(** * RealTimeChart: the data normalisation and layout engine

    A shallow embedding of [src/RealTimeChart.js]: the bounded data window,
    the range normaliser, the layout computation and the dispatch of draw
    calls to the renderer plugins.

    Numbers.  A JavaScript number is an IEEE-754 double: a finite double is
    written as the rational it is, beside the two infinities and NaN.  The
    arithmetic operations round their exact result to the nearest double,
    a tie going to the even significand, and overflow to an infinity
    ([to_double]); the literal [0.1] is the double nearest to 1/10.
    Negative zero is identified with zero: the two differ as divisors
    only, and a divisor of the program (valueDiff, totalElement, 100) is a
    negative zero only on options or data that hold one, which are outside
    the model.

    Objects.  Sample objects live in a heap and are named by references, so
    that an object shared between the caller and the window, or between two
    batches, is one object.  Batch arrays are never shared (every one of
    them is created by [Array.prototype.map] and referenced from one window
    array only), so they are modelled by value.  The window array itself is
    replaced by a new array in recalculatePercents; the chart records which
    array object [this.data] refers to, since addChartData takes its
    receiver [this.data] before it evaluates the argument that may replace
    it.

    Exceptions.  A computation returns a value or throws; in both cases it
    hands back the chart as mutated so far, since an exception does not undo
    assignments.  The mutual recursion calculatePercent -> filterValue ->
    recalculatePercents -> calculatePercent is bounded by a call-depth budget,
    whose exhaustion is the engine's RangeError (stack overflow). *)

From Stdlib Require Import ZArith QArith Qround Qpower Lia Lqa String List Permutation Sorted.
From stdpp Require Import base list.
Import ListNotations.

Local Open Scope Z_scope.

(** ** Numbers *)

Inductive jsnum :=
| Fin (q : Q)
| PInf
| NInf
| NaN.

Definition Qltb (a b : Q) : bool := negb (Qle_bool b a).
Definition Qzerob (a : Q) : bool := Qeq_bool a 0.

Definition jneg (a : jsnum) : jsnum :=
  match a with
  | Fin q => Fin (- q)
  | PInf => NInf
  | NInf => PInf
  | NaN => NaN
  end.

(** *** Rounding to a double

    A double has 53 significant bits; its unit in the last place is
    2^(e - 52) for a magnitude in [2^e, 2^(e + 1)), and 2^-1074 below
    2^-1022 (the subnormal numbers).  The largest double lies below
    2^1024. *)

Definition pow2 (e : Z) : Q := Qpower 2 e.

(** [floor (log2 q)], for [q > 0]. *)
Definition ilog2 (q : Q) : Z :=
  let k := Z.log2 (Qnum q) - Z.log2 (Zpos (Qden q)) in
  if Qle_bool (pow2 k) q then k else k - 1.

(** The nearest integer, a tie going to the even one. *)
Definition round_even (q : Q) : Z :=
  let f := Qfloor q in
  match (q - inject_Z f ?= 1 # 2)%Q with
  | Lt => f
  | Gt => f + 1
  | Eq => if Z.even f then f else f + 1
  end.

(** The exponent of the unit in the last place at [q > 0]. *)
Definition ulp_exp (q : Q) : Z := Z.max (ilog2 q - 52) (-1074).

(** The multiple of the unit in the last place nearest to [q > 0]. *)
Definition nearest (q : Q) : Q :=
  let e := ulp_exp q in
  (inject_Z (round_even (q / pow2 e)) * pow2 e)%Q.

Definition double_pos (q : Q) : jsnum :=
  let v := nearest q in
  if Qle_bool (pow2 1024) v then PInf else Fin (Qred v).

(** The double nearest to the real number [q]: what an arithmetic
    operation with the exact result [q] returns, and what a decimal
    literal denotes. *)
Definition to_double (q : Q) : jsnum :=
  match (q ?= 0)%Q with
  | Eq => Fin 0
  | Gt => double_pos q
  | Lt => jneg (double_pos (- q))
  end.

(** [q] is a double. *)
Definition double (q : Q) : bool :=
  match to_double q with
  | Fin v => Qeq_bool v q
  | _ => false
  end.

(** [a + b] *)
Definition jadd (a b : jsnum) : jsnum :=
  match a, b with
  | NaN, _ | _, NaN => NaN
  | Fin x, Fin y => to_double (x + y)
  | PInf, NInf | NInf, PInf => NaN
  | PInf, _ | _, PInf => PInf
  | NInf, _ | _, NInf => NInf
  end.

(** [a - b] *)
Definition jsub (a b : jsnum) : jsnum :=
  match a, b with
  | NaN, _ | _, NaN => NaN
  | Fin x, Fin y => to_double (x - y)
  | PInf, PInf | NInf, NInf => NaN
  | PInf, _ | _, NInf => PInf
  | NInf, _ | _, PInf => NInf
  end.

(** An infinity of the sign of [q], NaN when [q] is zero. *)
Definition inf_of_sign (q : Q) : jsnum :=
  if Qzerob q then NaN else if Qltb 0 q then PInf else NInf.

(** [a * b] *)
Definition jmul (a b : jsnum) : jsnum :=
  match a, b with
  | NaN, _ | _, NaN => NaN
  | Fin x, Fin y => to_double (x * y)
  | PInf, Fin y | Fin y, PInf => inf_of_sign y
  | NInf, Fin y | Fin y, NInf => inf_of_sign (- y)
  | PInf, PInf | NInf, NInf => PInf
  | PInf, NInf | NInf, PInf => NInf
  end.

(** [a / b]; a zero divisor is the positive zero. *)
Definition jdiv (a b : jsnum) : jsnum :=
  match a, b with
  | NaN, _ | _, NaN => NaN
  | Fin x, Fin y => if Qzerob y then inf_of_sign x else to_double (x / y)
  | Fin _, (PInf | NInf) => Fin 0
  | PInf, Fin y => if Qltb y 0 then NInf else PInf
  | NInf, Fin y => if Qltb y 0 then PInf else NInf
  | (PInf | NInf), (PInf | NInf) => NaN
  end.

(** [a < b]; every comparison with NaN is false. *)
Definition jlt (a b : jsnum) : bool :=
  match a, b with
  | NaN, _ | _, NaN => false
  | Fin x, Fin y => Qltb x y
  | NInf, NInf | PInf, _ => false
  | NInf, _ => true
  | Fin _, PInf => true
  | Fin _, NInf => false
  end.

(** [a > b] *)
Definition jgt (a b : jsnum) : bool := jlt b a.

(** The order of the numbers, NaN apart. *)
Definition jle (a b : jsnum) : Prop :=
  match a, b with
  | NaN, _ | _, NaN => False
  | NInf, _ | _, PInf => True
  | Fin x, Fin y => (x <= y)%Q
  | _, _ => False
  end.

(** [Math.round]: the nearest integer, a tie going up. *)
Definition Math_round (a : jsnum) : jsnum :=
  match a with
  | Fin q => Fin (inject_Z (Qfloor (q + (1 # 2))))
  | _ => a
  end.

(** ToBoolean on a number: zero and NaN are falsy. *)
Definition truthy (a : jsnum) : bool :=
  match a with
  | Fin q => negb (Qzerob q)
  | NaN => false
  | _ => true
  end.

(** [a || b] on numbers *)
Definition jor (a b : jsnum) : jsnum := if truthy a then a else b.

Definition of_Z (z : Z) : jsnum := Fin (inject_Z z).
Definition of_nat (n : nat) : jsnum := of_Z (Z.of_nat n).

(** The literal [0.1] *)
Definition point_one : jsnum := to_double (1 # 10).

(** ** Values, objects and the window *)

Definition loc := nat.

(** What the [value] and [defValue] properties of a sample object hold: a
    number, or [undefined] (also the result of reading an absent property).
    Other contents are outside the model. *)
Inductive field :=
| Undefined
| Number (n : jsnum).

(** ToNumber *)
Definition toNumber (v : field) : jsnum :=
  match v with
  | Undefined => NaN
  | Number n => n
  end.

(** ToBoolean *)
Definition toBoolean (v : field) : bool :=
  match v with
  | Undefined => false
  | Number n => truthy n
  end.

Record sample := Sample {
  value : field;
  defValue : field;
  id : option string;
}.

Definition set_value (v : field) (o : sample) : sample :=
  Sample v (defValue o) (id o).
Definition set_defValue (v : field) (o : sample) : sample :=
  Sample (value o) v (id o).

(** An element of a stored batch: [Array.prototype.map] in
    transformChartDataToPercent yields an object or [undefined]. *)
Inductive elem :=
| EUndefined
| ERef (l : loc).

(** An entry of [this.data]: what transformChartDataToPercent returned. *)
Inductive batch :=
| BUndefined
| BArray (es : list elem).

(** The argument of addChartData: any value that is not an array, or an
    array of such values. *)
Inductive jsval :=
| VUndefined
| VNull
| VBoolean (b : bool)
| VNumber (n : jsnum)
| VString (s : string)
| VObject (l : loc).

Inductive input :=
| Single (v : jsval)
| Array (vs : list jsval).

(** ** The chart *)

Inductive chartType := line | bar | otherType.

Module Options.
Record t := Make {
  type : chartType;
  width : jsnum;
  height : jsnum;
  totalElement : jsnum;
  minValue : jsnum;
  maxValue : jsnum;
  calcMaxValue : bool;
  showRuler : bool;
  legend : option (list string);
  paddingRight : jsnum;
  paddingBottom : jsnum;
}.

Definition set_maxValue (v : jsnum) (o : t) : t :=
  Make (type o) (width o) (height o) (totalElement o) (minValue o) v
       (calcMaxValue o) (showRuler o) (legend o) (paddingRight o)
       (paddingBottom o).
End Options.

Module Settings.
Record t := Make {
  paddingBottom : jsnum;
  paddingRight : jsnum;
  borderWidth : jsnum;
  boxInnerPadding : jsnum;
  stageWidth : jsnum;
  stageHeight : jsnum;
  oneXSegment : jsnum;
  oneYSegment : jsnum;
  valueDiff : jsnum;
}.

Definition set_valueDiff (v : jsnum) (s : t) : t :=
  Make (paddingBottom s) (paddingRight s) (borderWidth s)
       (boxInnerPadding s) (stageWidth s) (stageHeight s) (oneXSegment s)
       (oneYSegment s) v.

(** The constructor's initial settings. *)
Definition initial : t :=
  Make (of_Z 0) (of_Z 0) (of_Z 2) (of_Z 2) (of_Z 0) (of_Z 0) (of_Z 0)
       (of_Z 0) (of_Z 0).
End Settings.

(** The option object handed to [Bar.setOptions] and [Line.setOptions]. *)
Record drawOptions := DrawOptions {
  segmentKey : nat;
  iterKey : nat;
  percent : field;
  id_ : option string;
}.

(** Calls made on the plugins. *)
Inductive event :=
| Stage_clearStage
| Stage_printRuler
| Bar_setOptions (o : drawOptions)
| Bar_draw
| Line_setOptions (o : drawOptions)
| Line_draw
| Line_resetXY.

(** [data] holds the elements of the array [this.data] refers to, and
    [dataArray] names that array object: every array that
    [Array.prototype.map] creates is a new one.  [calls] is the log of the
    calls made on the plugins so far. *)
Record RealTimeChart := Chart {
  data : list batch;
  dataArray : nat;
  options : Options.t;
  settings : Settings.t;
  heap : list sample;
  calls : list event;
}.

(** A change of the elements of the array [this.data] refers to. *)
Definition set_data (d : list batch) (c : RealTimeChart) : RealTimeChart :=
  Chart d (dataArray c) (options c) (settings c) (heap c) (calls c).
(** [this.data = d], for an array [d] just created. *)
Definition assign_data (d : list batch) (c : RealTimeChart) : RealTimeChart :=
  Chart d (S (dataArray c)) (options c) (settings c) (heap c) (calls c).
Definition set_options (o : Options.t) (c : RealTimeChart) : RealTimeChart :=
  Chart (data c) (dataArray c) o (settings c) (heap c) (calls c).
Definition set_settings (s : Settings.t) (c : RealTimeChart) : RealTimeChart :=
  Chart (data c) (dataArray c) (options c) s (heap c) (calls c).
Definition set_heap (h : list sample) (c : RealTimeChart) : RealTimeChart :=
  Chart (data c) (dataArray c) (options c) (settings c) h (calls c).
Definition add_call (e : event) (c : RealTimeChart) : RealTimeChart :=
  Chart (data c) (dataArray c) (options c) (settings c) (heap c)
        (calls c ++ [e]).

(** ** Computations *)

Inductive error := TypeError | RangeError.

Inductive outcome (A : Type) :=
| Return (a : A) (c : RealTimeChart)
| Throw (e : error) (c : RealTimeChart).
Arguments Return {A} a c.
Arguments Throw {A} e c.

Definition M (A : Type) : Type := RealTimeChart -> outcome A.

Definition ret {A} (a : A) : M A := fun c => Return a c.
Definition throw {A} (e : error) : M A := fun c => Throw e c.
Definition bind {A B} (m : M A) (k : A -> M B) : M B :=
  fun c => match m c with
           | Return a c' => k a c'
           | Throw e c' => Throw e c'
           end.
Definition get : M RealTimeChart := fun c => Return c c.
Definition modify (f : RealTimeChart -> RealTimeChart) : M unit :=
  fun c => Return tt (f c).

Notation "x <- m ;; k" := (bind m (fun x => k))
  (at level 100, m at next level, right associativity).
Notation "m ;;; k" := (bind m (fun _ => k))
  (at level 100, right associativity).

(** [Array.prototype.map] with an effectful callback, left to right. *)
Fixpoint mapM {A B} (f : A -> M B) (l : list A) : M (list B) :=
  match l with
  | [] => ret []
  | x :: l' => y <- f x ;; ys <- mapM f l' ;; ret (y :: ys)
  end.

(** Reading the object behind a reference.  A reference outside the heap
    does not arise in a run; the model treats it like [undefined]. *)
Definition read (l : loc) : M sample :=
  fun c => match heap c !! l with
           | Some o => Return o c
           | None => Throw TypeError c
           end.

Definition write (l : loc) (f : sample -> sample) : M unit :=
  fun c => match heap c !! l with
           | Some o => Return tt (set_heap (<[l := f o]> (heap c)) c)
           | None => Throw TypeError c
           end.

(** An object literal: a fresh object. *)
Definition alloc (o : sample) : M loc :=
  fun c => Return (length (heap c)) (set_heap (heap c ++ [o]) c).

(** ** The range normaliser *)

Definition calculateValueDiff : M unit :=
  modify (fun c =>
    set_settings
      (Settings.set_valueDiff
         (jsub (Options.maxValue (options c)) (Options.minValue (options c)))
         (settings c)) c).

Section Normaliser.
(** [this.calculatePercent], one stack frame deeper. *)
Variable calculatePercent_rec : field -> M jsnum.

(** One sample of the window: the inner callback. *)
Definition recalculateSample (data : elem) : M elem :=
  match data with
  | EUndefined => throw TypeError
  | ERef l =>
      o <- read l ;;
      p <- calculatePercent_rec (defValue o) ;;
      write l (set_value (Number p)) ;;;
      ret (ERef l)
  end.

(** One batch of the window: the outer callback. *)
Definition recalculateBatch (statData : batch) : M batch :=
  match statData with
  | BUndefined => throw TypeError
  | BArray es => es' <- mapM recalculateSample es ;; ret (BArray es')
  end.

(** The outer [map] runs over the array [this.data] refers to when the
    call starts; the assignment makes [this.data] refer to the array that
    [map] created. *)
Definition recalculatePercents : M unit :=
  c <- get ;;
  d <- mapM recalculateBatch (data c) ;;
  modify (assign_data d).

Definition filterValue (value : field) : M field :=
  c <- get ;;
  if jlt (toNumber value) (Options.minValue (options c)) then
    ret (Number (Options.minValue (options c)))
  else if jgt (toNumber value) (Options.maxValue (options c)) then
    if Options.calcMaxValue (options c) then
      modify (fun c =>
        set_options
          (Options.set_maxValue
             (jadd (toNumber value) (jmul (toNumber value) point_one))
             (options c)) c) ;;;
      calculateValueDiff ;;;
      recalculatePercents ;;;
      modify (add_call Stage_printRuler) ;;;
      ret value
    else ret (Number (Options.maxValue (options c)))
  else ret value.

Definition calculatePercent_frame (num : field) : M jsnum :=
  correctValue <- filterValue num ;;
  c <- get ;;
  ret (jor (Math_round
              (jmul (jdiv (jsub (toNumber correctValue)
                                (Options.minValue (options c)))
                          (Settings.valueDiff (settings c)))
                    (of_Z 100)))
           (of_Z 1)).
End Normaliser.

(** [depth] is the number of nested calculatePercent frames the engine's
    stack still has room for. *)
Fixpoint calculatePercent (depth : nat) (num : field) : M jsnum :=
  match depth with
  | O => throw RangeError
  | S d => calculatePercent_frame (calculatePercent d) num
  end.

(** ** Taking in data *)

(** The array branch of transformChartDataToPercent: the callback of
    [values.map].  [typeof null] is ['object'], so [null] reaches the
    property read and throws. *)
Definition transformElement (depth : nat) (numObject : jsval) : M elem :=
  match numObject with
  | VObject l =>
      o <- read l ;;
      write l (set_defValue (value o)) ;;;
      p <- calculatePercent depth (value o) ;;
      write l (set_value (Number p)) ;;;
      ret (ERef l)
  | VNull => throw TypeError
  | VNumber n =>
      p <- calculatePercent depth (Number n) ;;
      l <- alloc (Sample (Number p) (Number n) None) ;;
      ret (ERef l)
  | _ => ret EUndefined
  end.

Definition transformArray (depth : nat) (values : list jsval) : M batch :=
  es <- mapM (transformElement depth) values ;;
  ret (BArray es).

(** The two recursive calls of the source are on a one-element array, which
    takes the array branch: an array has no [value] property. *)
Definition transformChartDataToPercent (depth : nat) (values : input)
  : M batch :=
  match values with
  | Single (VNumber n) =>
      l <- alloc (Sample (Number n) Undefined None) ;;
      transformArray depth [VObject l]
  | Single (VObject l) =>
      o <- read l ;;
      if toBoolean (value o) then transformArray depth [VObject l]
      else ret BUndefined
  | Single VNull => throw TypeError
  | Single _ => ret BUndefined
  | Array vs => transformArray depth vs
  end.

Definition push (b : batch) (c : RealTimeChart) : RealTimeChart :=
  set_data (data c ++ [b]) c.
Definition shift (c : RealTimeChart) : RealTimeChart :=
  set_data (tail (data c)) c.

(** In [this.data.push(e)] the receiver is evaluated before the argument:
    a call evaluates its member expression [this.data.push], and with it
    the value of [this.data], and only then its argument list.  When
    evaluating [e] made [this.data] refer to another array (which
    recalculatePercents does), the batch is pushed onto the array that was
    replaced, which nothing refers to any more, and [this.data] is left
    without it.  The test of the length and [shift] come after, and act on
    the array [this.data] refers to then. *)
Definition addChartData (depth : nat) (v : input) : M unit :=
  receiver <- (c <- get ;; ret (dataArray c)) ;;
  b <- transformChartDataToPercent depth v ;;
  c <- get ;;
  (if (dataArray c =? receiver)%nat then modify (push b) else ret tt) ;;;
  c <- get ;;
  if jgt (of_nat (length (data c))) (Options.totalElement (options c))
  then modify shift
  else ret tt.

(** A sequence of calls, stopping at the first exception. *)
Fixpoint addAll (depth : nat) (vs : list input) : M unit :=
  match vs with
  | [] => ret tt
  | v :: vs' => addChartData depth v ;;; addAll depth vs'
  end.

(** ** Layout *)

Module Layout.
Import Settings.

Definition set_paddingBottom v s :=
  Make v (paddingRight s) (borderWidth s) (boxInnerPadding s)
       (stageWidth s) (stageHeight s) (oneXSegment s) (oneYSegment s)
       (valueDiff s).
Definition set_paddingRight v s :=
  Make (paddingBottom s) v (borderWidth s) (boxInnerPadding s)
       (stageWidth s) (stageHeight s) (oneXSegment s) (oneYSegment s)
       (valueDiff s).
Definition set_borderWidth v s :=
  Make (paddingBottom s) (paddingRight s) v (boxInnerPadding s)
       (stageWidth s) (stageHeight s) (oneXSegment s) (oneYSegment s)
       (valueDiff s).
Definition set_boxInnerPadding v s :=
  Make (paddingBottom s) (paddingRight s) (borderWidth s) v
       (stageWidth s) (stageHeight s) (oneXSegment s) (oneYSegment s)
       (valueDiff s).
Definition set_stageWidth v s :=
  Make (paddingBottom s) (paddingRight s) (borderWidth s)
       (boxInnerPadding s) v (stageHeight s) (oneXSegment s)
       (oneYSegment s) (valueDiff s).
Definition set_stageHeight v s :=
  Make (paddingBottom s) (paddingRight s) (borderWidth s)
       (boxInnerPadding s) (stageWidth s) v (oneXSegment s)
       (oneYSegment s) (valueDiff s).
Definition set_oneXSegment v s :=
  Make (paddingBottom s) (paddingRight s) (borderWidth s)
       (boxInnerPadding s) (stageWidth s) (stageHeight s) v
       (oneYSegment s) (valueDiff s).
Definition set_oneYSegment v s :=
  Make (paddingBottom s) (paddingRight s) (borderWidth s)
       (boxInnerPadding s) (stageWidth s) (stageHeight s) (oneXSegment s)
       v (valueDiff s).

(** [this.settings.f = e], with [e] read off the chart as it is then. *)
Definition assign (setter : jsnum -> t -> t) (e : RealTimeChart -> jsnum)
  : M unit :=
  modify (fun c => set_settings (setter (e c) (settings c)) c).

(** [hasOwnProperty('legend') === true && legend.length > 0] *)
Definition hasLegend (o : Options.t) : bool :=
  match Options.legend o with
  | Some l => jgt (of_nat (length l)) (of_Z 0)
  | None => false
  end.
End Layout.

Definition calculateDefaults : M unit :=
  c <- get ;;
  (if Layout.hasLegend (options c) then
     Layout.assign Layout.set_paddingBottom
       (fun c => jadd (Options.paddingBottom (options c)) (of_Z 30))
   else ret tt) ;;;
  (if Options.showRuler (options c) then
     Layout.assign Layout.set_paddingRight
       (fun c => jadd (Options.paddingRight (options c)) (of_Z 30))
   else ret tt) ;;;
  Layout.assign Layout.set_borderWidth (fun _ => of_Z 2) ;;;
  Layout.assign Layout.set_boxInnerPadding (fun _ => of_Z 2) ;;;
  Layout.assign Layout.set_stageWidth
    (fun c => jsub (jsub (jsub (Options.width (options c))
                               (Settings.borderWidth (settings c)))
                         (Settings.paddingRight (settings c)))
                   (Settings.boxInnerPadding (settings c))) ;;;
  Layout.assign Layout.set_stageHeight
    (fun c => jsub (jsub (jsub (Options.height (options c))
                               (Settings.borderWidth (settings c)))
                         (Settings.paddingBottom (settings c)))
                   (Settings.boxInnerPadding (settings c))) ;;;
  Layout.assign Layout.set_oneXSegment
    (fun c => jdiv (Settings.stageWidth (settings c))
                   (Options.totalElement (options c))) ;;;
  Layout.assign Layout.set_oneYSegment
    (fun c => jdiv (Settings.stageHeight (settings c)) (of_Z 100)) ;;;
  calculateValueDiff.

(** ** The host's [Array.prototype.sort]

    The comparator's result is taken through ToNumber.  The language
    fixes the outcome of [sort] only for a consistent comparator; an engine
    is otherwise free in the comparisons it makes and in how it reads them.
    [sort] works in place, so its result is a rearrangement of the array. *)

Class ArraySort := {
  host_sort : forall A : Type, (A -> A -> jsnum) -> list A -> list A;
}.

(** The result of [sort] is a rearrangement of the array. *)
Definition rearranges (host : ArraySort) : Prop :=
  forall A (comparefn : A -> A -> jsnum) (l : list A),
    Permutation (host_sort A comparefn l) l.

Section LinearInsertion.
Context {A : Type} (comparefn : A -> A -> jsnum).

(** The sorted part is held nearest neighbour first.  [element] is
    carried to the left past every [tmp] with [comparefn(tmp, element) > 0]
    and stops at the first other one. *)
Fixpoint shift_in (element : A) (sorted_rev : list A) : list A :=
  match sorted_rev with
  | [] => [element]
  | tmp :: rest =>
      if jgt (comparefn tmp element) (of_Z 0)
      then tmp :: shift_in element rest
      else element :: tmp :: rest
  end.

(** The insertion sort engines ran on short arrays before they moved to
    merge sorts (in V8, up to version 6.9, on arrays of at most ten
    elements). *)
Definition linear_insertion_sort (l : list A) : list A :=
  rev (fold_left (fun sorted_rev element => shift_in element sorted_rev)
                 l []).
End LinearInsertion.

Section BinaryInsertion.
Context {A : Type} (comparefn : A -> A -> jsnum).

(** The place of [pivot] in the sorted part, by bisection of
    [left, right): the left half is taken when
    [comparefn(pivot, sorted[mid]) < 0], the right half otherwise. *)
Fixpoint bisect (steps : nat) (pivot : A) (sorted : list A)
         (left right : nat) : nat :=
  match steps with
  | O => left
  | S steps' =>
      if (left <? right)%nat then
        let mid := (left + (right - left) / 2)%nat in
        match sorted !! mid with
        | Some x =>
            if jlt (comparefn pivot x) (of_Z 0)
            then bisect steps' pivot sorted left mid
            else bisect steps' pivot sorted (S mid) right
        | None => left
        end
      else left
  end.

Definition insert_at (pivot : A) (sorted : list A) : list A :=
  let k := bisect (S (length sorted)) pivot sorted 0 (length sorted) in
  take k sorted ++ pivot :: drop k sorted.

(** The binary insertion sort that a TimSort (V8 from version 7.0 on)
    runs on a short array. *)
Definition binary_insertion_sort (l : list A) : list A :=
  fold_left (fun sorted pivot => insert_at pivot sorted) l [].
End BinaryInsertion.

(** ** Rendering *)

(** ToNumber of a boolean *)
Definition of_bool (b : bool) : jsnum := if b then of_Z 1 else of_Z 0.

(** The comparator, on two objects of the heap [h].  The elements of a
    stored batch are never numbers, so the branch [typeof a === 'number']
    is not taken; [sort] does not hand [undefined] to a comparator. *)
Definition sortDesc (h : list sample) (a b : loc) : jsnum :=
  match h !! a, h !! b with
  | Some oa, Some ob =>
      of_bool (jlt (toNumber (value oa)) (toNumber (value ob)))
  | _, _ => NaN
  end.

Global Instance elem_eq_dec : EqDecision elem.
Proof. solve_decision. Defined.

Definition refs (es : list elem) : list loc :=
  omap (fun e => match e with ERef l => Some l | EUndefined => None end) es.
Definition undefineds (es : list elem) : list elem :=
  filter (fun e => e = EUndefined) es.

(** [forEach], the callback taking the element and its index. *)
Fixpoint forEach_from {A} (i : nat) (f : A -> nat -> M unit) (l : list A)
  : M unit :=
  match l with
  | [] => ret tt
  | x :: l' => f x i ;;; forEach_from (S i) f l'
  end.
Definition forEach {A} := @forEach_from A 0.

Section Render.
Context {host : ArraySort}.

(** [values.sort(comparefn)]: the defined elements in the host's order,
    then the undefined ones. *)
Definition sort (comparefn : loc -> loc -> jsnum) (values : list elem)
  : list elem :=
  map ERef (host_sort loc comparefn (refs values)) ++ undefineds values.

(** The callback of [forEach] in drawBar. *)
Definition drawBarSample (segmentKey : nat) (v : elem) (iterKey : nat)
  : M unit :=
  match v with
  | EUndefined => throw TypeError
  | ERef l =>
      o <- read l ;;
      modify (add_call (Bar_setOptions
        {| segmentKey := segmentKey; iterKey := iterKey;
           percent := value o; id_ := id o |})) ;;;
      modify (add_call Bar_draw)
  end.

(** [values] is the array at [this.data[segmentKey]], which [sort]
    rearranges in place: the window holds the sorted array from then on. *)
Definition drawBar (values : batch) (segmentKey : nat) : M unit :=
  match values with
  | BUndefined => throw TypeError
  | BArray es =>
      c <- get ;;
      let sorted := sort (sortDesc (heap c)) es in
      modify (fun c => set_data (<[segmentKey := BArray sorted]> (data c)) c) ;;;
      forEach (drawBarSample segmentKey) sorted
  end.

Definition renderBar : M unit :=
  c <- get ;;
  forEach drawBar (data c).

(** The callback of [forEach] in drawLine. *)
Definition drawLineSample (segmentKey : nat) (v : elem) (iterKey : nat)
  : M unit :=
  match v with
  | EUndefined => throw TypeError
  | ERef l =>
      o <- read l ;;
      modify (add_call (Line_setOptions
        {| segmentKey := segmentKey; iterKey := iterKey;
           percent := value o; id_ := id o |})) ;;;
      modify (add_call Line_draw)
  end.

Definition drawLine (values : batch) (segmentKey : nat) : M unit :=
  match values with
  | BUndefined => throw TypeError
  | BArray es => forEach (drawLineSample segmentKey) es
  end.

Definition renderLine : M unit :=
  c <- get ;;
  forEach drawLine (data c) ;;;
  modify (add_call Line_resetXY).

Definition render : M unit :=
  modify (add_call Stage_clearStage) ;;;
  c <- get ;;
  match Options.type (options c) with
  | line => renderLine
  | bar => renderBar
  | otherType => ret tt
  end.
End Render.

(** ** The normaliser as the specification words it *)

Definition minOf (c : RealTimeChart) : jsnum := Options.minValue (options c).
Definition maxOf (c : RealTimeChart) : jsnum := Options.maxValue (options c).
Definition diffOf (c : RealTimeChart) : jsnum := Settings.valueDiff (settings c).

(** Clamp raw below min to min and raw above max to max. *)
Definition spec_clamp (c : RealTimeChart) (raw : jsnum) : jsnum :=
  if jlt raw (minOf c) then minOf c
  else if jgt raw (maxOf c) then maxOf c
  else raw.

(** round((x - min) / diff * 100); if the computed percent is 0 or NaN,
    return 1. *)
Definition spec_percent (c : RealTimeChart) (x : jsnum) : jsnum :=
  match Math_round (jmul (jdiv (jsub x (minOf c)) (diffOf c)) (of_Z 100)) with
  | NaN => of_Z 1
  | Fin q => if Qzerob q then of_Z 1 else Fin q
  | r => r
  end.

(** A chart whose range is [mn, mx] with [mn < mx], and whose [valueDiff]
    is the one calculateValueDiff leaves. *)
Definition configured (c : RealTimeChart) (mn mx : Q) : Prop :=
  minOf c = Fin mn /\ maxOf c = Fin mx /\ (mn < mx)%Q /\
  diffOf c = jsub (maxOf c) (minOf c).

(** The percent of [a] under the range [mn, mx], and the integer it is for
    [a] in the range. *)
Definition percent_of (mn mx a : Q) : jsnum :=
  jor (Math_round (jmul (jdiv (jsub (Fin a) (Fin mn))
                              (jsub (Fin mx) (Fin mn))) (of_Z 100)))
      (of_Z 1).

Definition percentZ (mn mx a : Q) : Z :=
  match percent_of mn mx a with
  | Fin q => Qfloor q
  | _ => 1
  end.

(** Whether filterValue grows the range on [num]: the input is not below
    min, is above max, and calcMaxValue is on. *)
Definition grows (c : RealTimeChart) (num : jsnum) : bool :=
  negb (jlt num (minOf c)) && jgt num (maxOf c) &&
  Options.calcMaxValue (options c).

(** The chart once filterValue has assigned [maxValue = value + value * 0.1]
    and called calculateValueDiff. *)
Definition grown_range (raw : jsnum) (c : RealTimeChart) : RealTimeChart :=
  let mx := jadd raw (jmul raw point_one) in
  set_settings
    (Settings.set_valueDiff (jsub mx (minOf c)) (settings c))
    (set_options (Options.set_maxValue mx (options c)) c).

(** ** The layout and the window, as data *)

(** The settings calculateDefaults leaves, given the options and the
    settings it starts from. *)
Definition layout (o : Options.t) (s : Settings.t) : Settings.t :=
  let pb := if Layout.hasLegend o
            then jadd (Options.paddingBottom o) (of_Z 30)
            else Settings.paddingBottom s in
  let pr := if Options.showRuler o
            then jadd (Options.paddingRight o) (of_Z 30)
            else Settings.paddingRight s in
  let sw := jsub (jsub (jsub (Options.width o) (of_Z 2)) pr) (of_Z 2) in
  let sh := jsub (jsub (jsub (Options.height o) (of_Z 2)) pb) (of_Z 2) in
  Settings.Make pb pr (of_Z 2) (of_Z 2) sw sh
                (jdiv sw (Options.totalElement o)) (jdiv sh (of_Z 100))
                (jsub (Options.maxValue o) (Options.minValue o)).

(** What addChartData does to the window once the batch [b] is there:
    append, then drop the head when the length exceeds totalElement. *)
Definition append (b : batch) (c : RealTimeChart) : RealTimeChart :=
  if jgt (of_nat (length (data c ++ [b]))) (Options.totalElement (options c))
  then shift (push b c)
  else push b c.

(** Inputs outside the documented ones that are neither [null] nor an
    array: [undefined], a boolean, a string, an object without [value]. *)
Definition malformed (c : RealTimeChart) (v : input) : Prop :=
  match v with
  | Single VUndefined | Single (VBoolean _) | Single (VString _) => True
  | Single (VObject l) =>
      exists o, heap c !! l = Some o /\ value o = Undefined
  | _ => False
  end.

(** Array elements that are neither a number, nor an object, nor [null]. *)
Definition primitive_junk (v : jsval) : bool :=
  match v with
  | VUndefined | VBoolean _ | VString _ => true
  | _ => false
  end.

(** ** Stored samples *)

Definition batch_refs (b : batch) : list loc :=
  match b with
  | BArray es => refs es
  | BUndefined => []
  end.

(** The references held by the window, oldest batch first. *)
Definition stored (c : RealTimeChart) : list loc :=
  concat (map batch_refs (data c)).

(** The sample [o] carries the percent of its [defValue] under the range of
    [c]: normalising [defValue] would not grow the range, and [value] is
    the percent of the clamped [defValue]. *)
Definition normalised (c : RealTimeChart) (o : sample) : Prop :=
  grows c (toNumber (defValue o)) = false /\
  value o = Number (spec_percent c (spec_clamp c (toNumber (defValue o)))).

Definition normalised_on (c : RealTimeChart) (ls : list loc) : Prop :=
  forall l, In l ls -> exists o, heap c !! l = Some o /\ normalised c o.

Definition window_normalised (c : RealTimeChart) : Prop :=
  normalised_on c (stored c).

(** Every sample stored in the window satisfies
    value = calculatePercent(defValue) under the range in effect: the call
    returns the stored [value] and leaves the chart, its range included, as
    it is. *)
Definition up_to_date (c : RealTimeChart) : Prop :=
  forall l, In l (stored c) ->
    exists o p, heap c !! l = Some o /\
                (forall depth,
                    calculatePercent (S depth) (defValue o) c = Return p c) /\
                value o = Number p.

(** What a call of calculatePercent keeps of a chart whatever it does:
    the window holds the same references, the array behind [this.data] is
    the same or a later one, the options other than maxValue are the same,
    and every object keeps its [defValue] and [id]. *)
Definition kept (c c' : RealTimeChart) : Prop :=
  data c' = data c /\
  (dataArray c <= dataArray c')%nat /\
  minOf c' = minOf c /\
  Options.calcMaxValue (options c') = Options.calcMaxValue (options c) /\
  Options.totalElement (options c') = Options.totalElement (options c) /\
  length (heap c') = length (heap c) /\
  forall l o, heap c !! l = Some o ->
              exists o', heap c' !! l = Some o' /\
                         defValue o' = defValue o /\ id o' = id o.

(** What a returning call of calculatePercent has done, for a callee
    [call]: when it grew the range, every stored sample carries the percent
    of its [defValue] under the range it left, and the result is the
    percent of the unclamped input under that range; otherwise the chart is
    as it was and the result is the percent of the clamped input. *)
Definition refreshes (call : field -> M jsnum) : Prop :=
  forall num c p c',
    call num c = Return p c' ->
    if grows c (toNumber num) then
      kept c c' /\ (dataArray c < dataArray c')%nat /\
      window_normalised c' /\ p = spec_percent c' (toNumber num)
    else
      c' = c /\ p = spec_percent c (spec_clamp c (toNumber num)).

(** What a step of transformChartDataToPercent has done when it returns
    [ls] as the references of its result. *)
Definition transformed (c : RealTimeChart) (ls : list loc)
           (c' : RealTimeChart) : Prop :=
  data c' = data c /\
  (dataArray c <= dataArray c')%nat /\
  (dataArray c' = dataArray c ->
   options c' = options c /\ settings c' = settings c /\
   forall known, normalised_on c known -> normalised_on c' (ls ++ known)) /\
  ((dataArray c < dataArray c')%nat -> window_normalised c').

(** Every entry of the window is an array of objects, and normalising the
    [defValue] of none of them grows the range of [c]. *)
Definition settled_elem (c : RealTimeChart) (e : elem) : Prop :=
  exists l o, e = ERef l /\ heap c !! l = Some o /\
              grows c (toNumber (defValue o)) = false.

Definition settled_batch (c : RealTimeChart) (b : batch) : Prop :=
  exists es, b = BArray es /\ Forall (settled_elem c) es.

Definition settled (c : RealTimeChart) : Prop :=
  Forall (settled_batch c) (data c).

(** The chart [c'] is [c] with other [value]s in some objects. *)
Definition revalued (c c' : RealTimeChart) : Prop :=
  c' = set_heap (heap c') c /\
  length (heap c') = length (heap c) /\
  forall l o, heap c !! l = Some o ->
              exists o', heap c' !! l = Some o' /\ defValue o' = defValue o.

(** A chart whose window starts with a sample of [defValue] [d] that is
    not below min, while calcMaxValue is on, and growing the range on [d]
    leaves the maximum below [d] (as it does for a negative number, a few
    of the smallest apart). *)
Definition runaway (c : RealTimeChart) (l : loc) (d : Q) : Prop :=
  (exists es bs, data c = BArray (ERef l :: es) :: bs) /\
  (exists o, heap c !! l = Some o /\ defValue o = Number (Fin d)) /\
  jgt (Fin d) (jadd (Fin d) (jmul (Fin d) point_one)) = true /\
  Options.calcMaxValue (options c) = true /\
  jlt (Fin d) (minOf c) = false.

(** ** Two hosts *)

(** A host that sorts by linear insertion. *)
Definition linear_host : ArraySort :=
  {| host_sort := fun A comparefn => linear_insertion_sort comparefn |}.

(** A host that sorts by binary insertion. *)
Definition binary_host : ArraySort :=
  {| host_sort := fun A comparefn => binary_insertion_sort comparefn |}.

(** ** A frame in bar mode, as data *)

(** The batch [b] once drawBar has sorted it, over the heap [h]. *)
Definition sorted_batch {host : ArraySort} (h : list sample) (b : batch)
  : batch :=
  match b with
  | BArray es => BArray (sort (sortDesc h) es)
  | BUndefined => BUndefined
  end.

Definition add_calls (evs : list event) (c : RealTimeChart) : RealTimeChart :=
  Chart (data c) (dataArray c) (options c) (settings c) (heap c)
        (calls c ++ evs).

Definition drawn (h : list sample) (segmentKey iterKey : nat) (e : elem)
  : list event :=
  match e with
  | ERef l =>
      match h !! l with
      | Some o =>
          [Bar_setOptions
             {| segmentKey := segmentKey; iterKey := iterKey;
                percent := value o; id_ := id o |};
           Bar_draw]
      | None => []
      end
  | EUndefined => []
  end.

(** The calls drawing the elements [es] of batch [segmentKey], the first
    of them being number [iterKey]. *)
Fixpoint bar_calls (h : list sample) (segmentKey iterKey : nat)
         (es : list elem) : list event :=
  match es with
  | [] => []
  | e :: es' =>
      drawn h segmentKey iterKey e ++ bar_calls h segmentKey (S iterKey) es'
  end.

Definition elems (b : batch) : list elem :=
  match b with
  | BArray es => es
  | BUndefined => []
  end.

(** The calls drawing the batches [bs] as they are, the first of them being
    batch [segmentKey]. *)
Fixpoint window_calls (h : list sample) (segmentKey : nat) (bs : list batch)
  : list event :=
  match bs with
  | [] => []
  | b :: bs' =>
      bar_calls h segmentKey 0 (elems b) ++ window_calls h (S segmentKey) bs'
  end.

(** A window that can be drawn: arrays of objects. *)
Definition drawable_elem (h : list sample) (e : elem) : Prop :=
  exists l o, e = ERef l /\ h !! l = Some o.
Definition drawable_batch (h : list sample) (b : batch) : Prop :=
  exists es, b = BArray es /\ Forall (drawable_elem h) es.
Definition drawable (c : RealTimeChart) : Prop :=
  Forall (drawable_batch (heap c)) (data c).

(** The percents handed to [Bar.setOptions], in the order of the calls. *)
Definition percents (evs : list event) : list field :=
  omap (fun ev => match ev with
                  | Bar_setOptions o => Some (percent o)
                  | _ => None
                  end) evs.

(** ** Draw order *)

(** The comparator does not ask for [a] to go after [b]. *)
Definition may_precede (h : list sample) (a b : loc) : Prop :=
  jgt (sortDesc h a b) (of_Z 0) = false.

Definition jsnum_eqb (a b : jsnum) : bool :=
  match a, b with
  | Fin x, Fin y => (Qnum x =? Qnum y) && (Qden x =? Qden y)%positive
  | PInf, PInf | NInf, NInf | NaN, NaN => true
  | _, _ => false
  end.

Definition field_eqb (a b : field) : bool :=
  match a, b with
  | Undefined, Undefined => true
  | Number x, Number y => jsnum_eqb x y
  | _, _ => false
  end.

(** The object behind [l] holds [v] as its [value]. *)
Definition has_value (h : list sample) (v : field) (l : loc) : bool :=
  match h !! l with
  | Some o => field_eqb (value o) v
  | None => false
  end.

(** ** Charts for the examples *)

(** The chart a computation leaves. *)
Definition after {A} (r : outcome A) : RealTimeChart :=
  match r with
  | Return _ c => c
  | Throw _ c => c
  end.

Definition example_options (mn mx : Z) (grow : bool) (capacity : Z)
  : Options.t :=
  Options.Make bar (of_Z 600) (of_Z 600) (of_Z capacity) (of_Z mn) (of_Z mx)
               grow true (Some ["#846f08"%string]) (of_Z 0) (of_Z 0).

(** A chart after [init], with an empty window and the given heap. *)
Definition example_chart (mn mx : Z) (grow : bool) (capacity : Z)
           (h : list sample) : RealTimeChart :=
  match calculateDefaults
          (Chart [] 0 (example_options mn mx grow capacity) Settings.initial
                 h [])
  with
  | Return _ c => c
  | Throw _ c => c
  end.

(** A chart as the constructor and setOptions leave it, before [init]:
    bottom and right padding of 10 configured, an empty legend, no ruler. *)
Definition bare_chart : RealTimeChart :=
  Chart [] 0
        (Options.Make line (of_Z 600) (of_Z 600) (of_Z 50) (of_Z 250)
                      (of_Z 500) false false (Some []) (of_Z 10) (of_Z 10))
        Settings.initial [] [].

(** A chart after [init] with the range [-1e308, 1e308] and an empty
    window. *)
Definition wide_chart : RealTimeChart :=
  after (calculateDefaults
           (Chart [] 0
                  (Options.Make bar (of_Z 600) (of_Z 600) (of_Z 50)
                                (to_double (- (10 ^ 308) # 1))
                                (to_double (10 ^ 308 # 1))
                                false true (Some ["#846f08"%string])
                                (of_Z 0) (of_Z 0))
                  Settings.initial [] [])).

(** A chart of range [0, 100] that grows its range, with room for three
    batches, an empty window and the heap [h]. *)
Definition growing_chart (h : list sample) : RealTimeChart :=
  example_chart 0 100 true 3 h.

(** The chart of range [0, 100] that grows its range, after
    addChartData(10). *)
Definition chart_with_10 : RealTimeChart :=
  after (addChartData 1 (Single (VNumber (of_Z 10))) (growing_chart [])).

(** A chart in bar mode, range [0, 100], after addChartData([10, 20]). *)
Definition chart_10_20 : RealTimeChart :=
  after (addChartData 1 (Array [VNumber (of_Z 10); VNumber (of_Z 20)])
                      (example_chart 0 100 false 3 [])).

(** The double -10.6 *)
Definition minus_10_6 : Q := -5967269506265907 # 562949953421312.

(** A chart with the range [-100, -10.5] that grows its range, after
    [init] and addChartData(-10.6). *)
Definition chart_below_zero : RealTimeChart :=
  after (addChartData 1 (Single (VNumber (Fin minus_10_6)))
           (after (calculateDefaults
                     (Chart [] 0
                            (Options.Make bar (of_Z 600) (of_Z 600) (of_Z 3)
                                          (of_Z (-100)) (Fin (-21 # 2))
                                          true true
                                          (Some ["#846f08"%string])
                                          (of_Z 0) (of_Z 0))
                            Settings.initial [] [])))).
(** ** Further notions for the normaliser *)

(** The clamp of a rational into [mn, mx]. *)
Definition clampQ (mn mx a : Q) : Q :=
  if Qltb a mn then mn else if Qltb mx a then mx else a.

(** ** Further notions for the window *)

(** What every step of addChartData keeps of a chart: the references the
    window holds, totalElement, the objects of the heap and their [id]s. *)
Definition carried (c c' : RealTimeChart) : Prop :=
  data c' = data c /\
  Options.totalElement (options c') = Options.totalElement (options c) /\
  (dataArray c <= dataArray c')%nat /\
  (length (heap c) <= length (heap c'))%nat /\
  forall l o, heap c !! l = Some o ->
              exists o', heap c' !! l = Some o' /\ id o' = id o.

(** How an element [v] of the input array shows in the batch: an object by
    the reference to it, a number by a reference to an object created after
    the first [n] ones, anything else but [null] by [undefined]. *)
Definition stored_as (n : nat) (v : jsval) (e : elem) : Prop :=
  match v with
  | VObject l => e = ERef l
  | VNumber _ => exists l, e = ERef l /\ (n <= l)%nat
  | VNull => False
  | _ => e = EUndefined
  end.

(** The objects handed to addChartData. *)
Definition input_refs (v : input) : list loc :=
  match v with
  | Single (VObject l) => [l]
  | Single _ => []
  | Array vs =>
      omap (fun x => match x with VObject l => Some l | _ => None end) vs
  end.

(** The heap of [c'] holds every object outside [ls] as [c] holds it. *)
Definition untouched_outside (ls : list loc) (c c' : RealTimeChart) : Prop :=
  forall l o, heap c !! l = Some o -> ~ In l ls -> heap c' !! l = Some o.

(** A callee that changes stored samples only. *)
Definition touches_stored_only (call : field -> M jsnum) : Prop :=
  forall num c p c',
    call num c = Return p c' -> untouched_outside (stored c) c c'.


(** ** A frame in line mode, as data *)

Definition line_drawn (h : list sample) (segmentKey iterKey : nat) (e : elem)
  : list event :=
  match e with
  | ERef l =>
      match h !! l with
      | Some o =>
          [Line_setOptions
             {| segmentKey := segmentKey; iterKey := iterKey;
                percent := value o; id_ := id o |};
           Line_draw]
      | None => []
      end
  | EUndefined => []
  end.

Fixpoint line_calls (h : list sample) (segmentKey iterKey : nat)
         (es : list elem) : list event :=
  match es with
  | [] => []
  | e :: es' =>
      line_drawn h segmentKey iterKey e ++
      line_calls h segmentKey (S iterKey) es'
  end.

Fixpoint line_window_calls (h : list sample) (segmentKey : nat)
         (bs : list batch) : list event :=
  match bs with
  | [] => []
  | b :: bs' =>
      line_calls h segmentKey 0 (elems b) ++
      line_window_calls h (S segmentKey) bs'
  end.

(** The [value]s of the samples [es], in their order. *)
Definition shown (h : list sample) (es : list elem) : list field :=
  omap (fun e => match e with
                 | ERef l => value <$> h !! l
                 | EUndefined => None
                 end) es.

(** The [value]s of the samples of the window [bs], oldest batch first. *)
Definition window_shown (h : list sample) (bs : list batch) : list field :=
  concat (map (fun b => shown h (elems b)) bs).

(** The percents handed to [Line.setOptions], in the order of the calls. *)
Definition line_percents (evs : list event) : list field :=
  omap (fun ev => match ev with
                  | Line_setOptions o => Some (percent o)
                  | _ => None
                  end) evs.

(** A batch that cannot be drawn: [undefined], or an array holding
    [undefined]. *)
Definition undrawable_batch (b : batch) : Prop :=
  match b with
  | BUndefined => True
  | BArray es => In EUndefined es
  end.

Definition undrawable (c : RealTimeChart) : Prop :=
  Exists undrawable_batch (data c).

(** A computation that returns or throws a TypeError. *)
Definition lands (m : M unit) : Prop :=
  forall c, (exists c', m c = Return tt c') \/
            (exists c', m c = Throw TypeError c').

(** What a frame leaves of a chart whatever it does: the samples, the
    range and the layout are the same, the window has the same length, and
    the calls made before are still there, in front. *)
Definition draws_only (c c' : RealTimeChart) : Prop :=
  heap c' = heap c /\ options c' = options c /\ settings c' = settings c /\
  dataArray c' = dataArray c /\ length (data c') = length (data c) /\
  exists evs, calls c' = calls c ++ evs.

(** The batches of the window are in the comparator's order. *)
Definition window_descending (h : list sample) (bs : list batch) : Prop :=
  Forall (fun b => Sorted (may_precede h) (refs (elems b))) bs.

(** A chart in line mode, range [250, 500], after [init] and
    addChartData([300, 400]). *)
Definition line_chart : RealTimeChart :=
  after (addChartData 1 (Array [VNumber (of_Z 300); VNumber (of_Z 400)])
                      (after (calculateDefaults bare_chart))).

(** * Properties *)

(** ** Numbers *)

Lemma Qltb_lt (a b : Q) : Qltb a b = true <-> (a < b)%Q.
Proof.
  unfold Qltb. rewrite negb_true_iff, <- not_true_iff_false, Qle_bool_iff.
  split; [apply Qnot_le_lt | apply Qlt_not_le].
Qed.

Lemma Qltb_ge (a b : Q) : Qltb a b = false <-> (b <= a)%Q.
Proof. unfold Qltb. rewrite negb_false_iff. apply Qle_bool_iff. Qed.

Lemma Qzerob_true (a : Q) : Qzerob a = true <-> (a == 0)%Q.
Proof. apply Qeq_bool_iff. Qed.

Lemma Qzerob_false (a : Q) : Qzerob a = false <-> ~ (a == 0)%Q.
Proof. rewrite <- not_true_iff_false, Qzerob_true. tauto. Qed.

Lemma Qfloor_unique (x : Q) (z : Z) :
  (inject_Z z <= x)%Q -> (x < inject_Z (z + 1))%Q -> Qfloor x = z.
Proof.
  intros Hlo Hhi.
  pose proof (Qfloor_le x) as Hfl. pose proof (Qlt_floor x) as Hlt.
  assert (inject_Z z < inject_Z (Qfloor x + 1))%Q as H1 by lra.
  assert (inject_Z (Qfloor x) < inject_Z (z + 1))%Q as H2 by lra.
  rewrite <- Zlt_Qlt in H1, H2. lia.
Qed.

Lemma Qfloor_half (z : Z) : Qfloor (inject_Z z + (1 # 2)) = z.
Proof.
  apply Qfloor_unique; [lra |].
  rewrite inject_Z_plus. change (inject_Z 1) with 1%Q. lra.
Qed.

(** Rounding a number that is an integer. *)
Lemma Math_round_integer (q : Q) (z : Z) :
  (q == inject_Z z)%Q -> Math_round (Fin q) = of_Z z.
Proof.
  intros H. unfold Math_round, of_Z. f_equal. f_equal.
  rewrite (Qfloor_comp _ (inject_Z z + (1 # 2))) by (rewrite H; reflexivity).
  apply Qfloor_half.
Qed.

Lemma truthy_of_Z (z : Z) : truthy (of_Z z) = negb (z =? 0).
Proof.
  unfold truthy, of_Z, Qzerob, Qeq_bool, inject_Z. simpl.
  f_equal. rewrite Z.mul_1_r. reflexivity.
Qed.

Lemma jor_of_Z (z : Z) :
  jor (of_Z z) (of_Z 1) = of_Z (if z =? 0 then 1 else z).
Proof. unfold jor. rewrite truthy_of_Z. destruct (z =? 0); reflexivity. Qed.

(** The operands [|| 1] replaces: zero and NaN. *)
Lemma truthy_false (x : jsnum) :
  truthy x = false <-> x = NaN \/ exists q, x = Fin q /\ (q == 0)%Q.
Proof.
  destruct x as [q | | |]; simpl.
  - rewrite negb_false_iff, Qzerob_true. split.
    + intros H. right. exists q. split; [reflexivity | exact H].
    + intros [H | (q' & H & H0)]; [discriminate H |].
      injection H as ->. exact H0.
  - split; [discriminate | intros [H | (q & H & _)]; discriminate H].
  - split; [discriminate | intros [H | (q & H & _)]; discriminate H].
  - split; [left; reflexivity | reflexivity].
Qed.

Lemma jor_falsy (x y : jsnum) : truthy x = false -> jor x y = y.
Proof. unfold jor. intros ->. reflexivity. Qed.

Lemma jor_truthy (x y : jsnum) : truthy x = true -> jor x y = x.
Proof. unfold jor. intros ->. reflexivity. Qed.

Lemma jlt_of_nat (a b : nat) : jlt (of_nat a) (of_nat b) = (a <? b)%nat.
Proof.
  unfold jlt, of_nat, of_Z, Qltb, Qle_bool, inject_Z.
  cbn [Qnum Qden]. rewrite !Z.mul_1_r.
  destruct (Nat.ltb_spec a b) as [H | H].
  - apply negb_true_iff. apply Z.leb_gt. lia.
  - apply negb_false_iff. apply Z.leb_le. lia.
Qed.

Lemma jlt_irreflexive a : jlt a a = false.
Proof.
  destruct a as [q | | |]; try reflexivity.
  simpl. apply Qltb_ge. apply Qle_refl.
Qed.

Lemma jlt_asymmetric a b : jlt a b = true -> jlt b a = false.
Proof.
  destruct a as [x | | |], b as [y | | |]; simpl; try discriminate;
    try reflexivity.
  rewrite Qltb_lt, Qltb_ge. apply Qlt_le_weak.
Qed.

Lemma jsnum_eqb_eq a b : jsnum_eqb a b = true -> a = b.
Proof.
  destruct a as [[xn xd] | | |], b as [[yn yd] | | |]; simpl;
    try discriminate; try reflexivity.
  intros H. apply andb_prop in H as [Hn Hd].
  apply Z.eqb_eq in Hn. apply Pos.eqb_eq in Hd. subst. reflexivity.
Qed.

Lemma field_eqb_eq a b : field_eqb a b = true -> a = b.
Proof.
  destruct a, b; simpl; try discriminate; try reflexivity.
  intros H. apply jsnum_eqb_eq in H. subst. reflexivity.
Qed.

(** ** Rounding to a double *)

Lemma pow2_pos e : (0 < pow2 e)%Q.
Proof. apply Qpower_0_lt. reflexivity. Qed.

Lemma pow2_add a b : (pow2 (a + b) == pow2 a * pow2 b)%Q.
Proof. apply Qpower_plus. discriminate. Qed.

Lemma pow2_le a b : a <= b -> (pow2 a <= pow2 b)%Q.
Proof. intros H. apply Qpower_le_compat_l; [exact H | discriminate]. Qed.

Lemma pow2_lt a b : a < b -> (pow2 a < pow2 b)%Q.
Proof. intros H. apply Qpower_lt_compat_l; [exact H | reflexivity]. Qed.

Lemma pow2_lt_inv a b : (pow2 a < pow2 b)%Q -> a < b.
Proof. intros H. apply (Qpower_lt_compat_l_inv 2); [exact H | reflexivity]. Qed.

Lemma pow2_Z z : 0 <= z -> (pow2 z == inject_Z (2 ^ z))%Q.
Proof. intros H. unfold pow2. rewrite Zpower_Qpower by exact H. reflexivity. Qed.

Lemma pow2_succ e : (pow2 (e + 1) == 2 * pow2 e)%Q.
Proof. rewrite pow2_add. change (pow2 1) with 2%Q. ring. Qed.

Lemma ilog2_rough (q : Q) :
  (0 < q)%Q ->
  let k := Z.log2 (Qnum q) - Z.log2 (Zpos (Qden q)) in
  (pow2 (k - 1) <= q /\ q < pow2 (k + 1))%Q.
Proof.
  intros Hq k. destruct q as [n d]. cbn [Qnum Qden] in k.
  assert (0 < n) as Hn by (unfold Qlt in Hq; simpl in Hq; lia).
  pose proof (Z.log2_spec n Hn) as [Hn1 Hn2].
  pose proof (Z.log2_spec (Zpos d) eq_refl) as [Hd1 Hd2].
  pose proof (Z.log2_nonneg n) as Hln.
  pose proof (Z.log2_nonneg (Zpos d)) as Hld.
  set (ln := Z.log2 n) in *. set (ld := Z.log2 (Zpos d)) in *.
  assert (pow2 ln <= inject_Z n)%Q as A1
      by (rewrite pow2_Z by lia; rewrite <- Zle_Qle; exact Hn1).
  assert (inject_Z n < pow2 (ln + 1))%Q as A2
      by (rewrite pow2_Z by lia; rewrite <- Zlt_Qlt; exact Hn2).
  assert (pow2 ld <= inject_Z (Zpos d))%Q as B1
      by (rewrite pow2_Z by lia; rewrite <- Zle_Qle; exact Hd1).
  assert (inject_Z (Zpos d) < pow2 (ld + 1))%Q as B2
      by (rewrite pow2_Z by lia; rewrite <- Zlt_Qlt; exact Hd2).
  assert (0 < inject_Z (Zpos d))%Q as Dpos by reflexivity.
  pose proof (pow2_pos ld) as Pld. pose proof (pow2_pos ln) as Pln.
  pose proof (pow2_pos (k - 1)) as Pk1. pose proof (pow2_pos (k + 1)) as Pk2.
  assert (pow2 (k - 1) * pow2 (ld + 1) == pow2 ln)%Q as E1
      by (rewrite <- pow2_add; subst k; replace (ln - ld - 1 + (ld + 1)) with ln by lia; reflexivity).
  assert (pow2 (k + 1) * pow2 ld == pow2 (ln + 1))%Q as E2
      by (rewrite <- pow2_add; subst k; replace (ln - ld + 1 + ld) with (ln + 1) by lia; reflexivity).
  rewrite (Qmake_Qdiv n d). split.
  - apply Qle_shift_div_l; [exact Dpos |].
    apply Qle_trans with (pow2 (k - 1) * pow2 (ld + 1))%Q.
    + apply Qmult_le_l; [exact Pk1 | apply Qlt_le_weak; exact B2].
    + rewrite E1. exact A1.
  - apply Qlt_shift_div_r; [exact Dpos |].
    apply Qlt_le_trans with (pow2 (k + 1) * pow2 ld)%Q.
    + rewrite E2. exact A2.
    + apply Qmult_le_l; [exact Pk2 | exact B1].
Qed.

Lemma ilog2_spec (q : Q) :
  (0 < q)%Q -> (pow2 (ilog2 q) <= q /\ q < pow2 (ilog2 q + 1))%Q.
Proof.
  intros Hq. destruct (ilog2_rough q Hq) as [H1 H2]. unfold ilog2.
  set (k := Z.log2 (Qnum q) - Z.log2 (Zpos (Qden q))) in *.
  destruct (Qle_bool (pow2 k) q) eqn:E.
  - apply Qle_bool_iff in E. split; assumption.
  - assert (q < pow2 k)%Q as Hlt.
    { apply Qnot_le_lt. intros H. apply Qle_bool_iff in H. congruence. }
    split; [exact H1 |]. replace (k - 1 + 1) with k by lia. exact Hlt.
Qed.

Lemma ilog2_unique (q : Q) (k : Z) :
  (pow2 k <= q)%Q -> (q < pow2 (k + 1))%Q -> ilog2 q = k.
Proof.
  intros H1 H2.
  assert (0 < q)%Q as Hq by (eapply Qlt_le_trans; [apply pow2_pos | exact H1]).
  destruct (ilog2_spec q Hq) as [S1 S2].
  assert (ilog2 q < k + 1)
    by (apply pow2_lt_inv; eapply Qle_lt_trans; eassumption).
  assert (k < ilog2 q + 1)
    by (apply pow2_lt_inv; eapply Qle_lt_trans; eassumption).
  lia.
Qed.

Lemma ilog2_comp (x y : Q) : (0 < x)%Q -> (x == y)%Q -> ilog2 x = ilog2 y.
Proof.
  intros Hx E. symmetry. destruct (ilog2_spec x Hx) as [S1 S2].
  apply ilog2_unique; rewrite <- E; assumption.
Qed.

Lemma ilog2_mono (x y : Q) : (0 < x)%Q -> (x <= y)%Q -> ilog2 x <= ilog2 y.
Proof.
  intros Hx Hxy.
  assert (0 < y)%Q as Hy by (eapply Qlt_le_trans; eassumption).
  destruct (ilog2_spec x Hx) as [S1 _]. destruct (ilog2_spec y Hy) as [_ S2].
  assert (ilog2 x < ilog2 y + 1); [| lia].
  apply pow2_lt_inv. eapply Qle_lt_trans; [exact S1 |].
  eapply Qle_lt_trans; eassumption.
Qed.

(** The nearest integer *)

Lemma round_even_floor (x : Q) :
  Qfloor x <= round_even x <= Qfloor x + 1.
Proof.
  unfold round_even. destruct (_ ?= _)%Q; [destruct (Z.even _) | |]; lia.
Qed.

Lemma round_even_comp (x y : Q) : (x == y)%Q -> round_even x = round_even y.
Proof.
  intros E. unfold round_even. rewrite (Qfloor_comp _ _ E).
  assert (x - inject_Z (Qfloor y) == y - inject_Z (Qfloor y))%Q as E'
      by (rewrite E; reflexivity).
  rewrite (Qcompare_comp _ _ E' _ _ (Qeq_refl (1 # 2))). reflexivity.
Qed.

Lemma round_even_mono (x y : Q) : (x <= y)%Q -> round_even x <= round_even y.
Proof.
  intros H. pose proof (Qfloor_resp_le _ _ H) as Hf.
  pose proof (round_even_floor x) as Bx. pose proof (round_even_floor y) as By.
  destruct (Z.eq_dec (Qfloor x) (Qfloor y)) as [E | N]; [| lia].
  unfold round_even in *. rewrite E in *.
  set (f := Qfloor y) in *.
  destruct (Qcompare_spec (x - inject_Z f) (1 # 2)) as [Hx | Hx | Hx];
    destruct (Qcompare_spec (y - inject_Z f) (1 # 2)) as [Hy | Hy | Hy];
    try destruct (Z.even f); try lia; exfalso; lra.
Qed.

Lemma round_even_le_Z (x : Q) (n : Z) :
  (x <= inject_Z n)%Q -> round_even x <= n.
Proof.
  intros H. pose proof (Qfloor_resp_le _ _ H) as Hf. rewrite Qfloor_Z in Hf.
  pose proof (round_even_floor x) as B.
  destruct (Z.eq_dec (Qfloor x) n) as [E | N]; [| lia].
  unfold round_even. rewrite E.
  destruct (Qcompare_spec (x - inject_Z n) (1 # 2)) as [Hx | Hx | Hx];
    [exfalso; lra | lia | exfalso; lra].
Qed.

Lemma round_even_ge_Z (x : Q) (n : Z) :
  (inject_Z n <= x)%Q -> n <= round_even x.
Proof.
  intros H. pose proof (Qfloor_resp_le _ _ H) as Hf. rewrite Qfloor_Z in Hf.
  pose proof (round_even_floor x). lia.
Qed.

Lemma round_even_Z (n : Z) : round_even (inject_Z n) = n.
Proof.
  apply Z.le_antisymm;
    [apply round_even_le_Z | apply round_even_ge_Z]; apply Qle_refl.
Qed.

(** The nearest multiple of the unit in the last place *)

Lemma ulp_exp_mono (x y : Q) :
  (0 < x)%Q -> (x <= y)%Q -> ulp_exp x <= ulp_exp y.
Proof.
  intros Hx Hxy. unfold ulp_exp. pose proof (ilog2_mono x y Hx Hxy). lia.
Qed.

Lemma scaled_lt (x : Q) :
  (0 < x)%Q -> (x / pow2 (ulp_exp x) < inject_Z (2 ^ 53))%Q.
Proof.
  intros Hx. destruct (ilog2_spec x Hx) as [_ S2].
  apply Qlt_shift_div_r; [apply pow2_pos |].
  rewrite <- pow2_Z by lia. rewrite <- pow2_add.
  eapply Qlt_le_trans; [exact S2 |]. apply pow2_le. unfold ulp_exp. lia.
Qed.

Lemma scaled_ge (x : Q) :
  (0 < x)%Q -> -1074 < ulp_exp x ->
  (inject_Z (2 ^ 52) <= x / pow2 (ulp_exp x))%Q.
Proof.
  intros Hx He. destruct (ilog2_spec x Hx) as [S1 _].
  apply Qle_shift_div_l; [apply pow2_pos |].
  rewrite <- pow2_Z by lia. rewrite <- pow2_add.
  eapply Qle_trans; [| exact S1]. apply pow2_le. unfold ulp_exp in *. lia.
Qed.

Lemma nearest_nonneg (x : Q) : (0 < x)%Q -> (0 <= nearest x)%Q.
Proof.
  intros Hx. unfold nearest. apply Qmult_le_0_compat.
  - change 0%Q with (inject_Z 0). rewrite <- Zle_Qle.
    apply round_even_ge_Z. apply Qle_shift_div_l; [apply pow2_pos |].
    rewrite Qmult_0_l. apply Qlt_le_weak. exact Hx.
  - apply Qlt_le_weak, pow2_pos.
Qed.

Lemma nearest_le (x : Q) :
  (0 < x)%Q -> (nearest x <= pow2 (ulp_exp x + 53))%Q.
Proof.
  intros Hx. unfold nearest. rewrite Z.add_comm, pow2_add.
  apply Qmult_le_compat_r; [| apply Qlt_le_weak, pow2_pos].
  rewrite (pow2_Z 53) by lia. rewrite <- Zle_Qle.
  apply round_even_le_Z. apply Qlt_le_weak, scaled_lt. exact Hx.
Qed.

Lemma nearest_ge (x : Q) :
  (0 < x)%Q -> -1074 < ulp_exp x -> (pow2 (ulp_exp x + 52) <= nearest x)%Q.
Proof.
  intros Hx He. unfold nearest. rewrite Z.add_comm, pow2_add.
  apply Qmult_le_compat_r; [| apply Qlt_le_weak, pow2_pos].
  rewrite (pow2_Z 52) by lia. rewrite <- Zle_Qle.
  apply round_even_ge_Z. apply scaled_ge; assumption.
Qed.

Lemma nearest_mono (x y : Q) :
  (0 < x)%Q -> (x <= y)%Q -> (nearest x <= nearest y)%Q.
Proof.
  intros Hx Hxy.
  assert (0 < y)%Q as Hy by (eapply Qlt_le_trans; eassumption).
  pose proof (ulp_exp_mono x y Hx Hxy) as He.
  destruct (Z.eq_dec (ulp_exp x) (ulp_exp y)) as [E | N].
  - unfold nearest. rewrite E.
    apply Qmult_le_compat_r; [| apply Qlt_le_weak, pow2_pos].
    rewrite <- Zle_Qle. apply round_even_mono.
    apply Qmult_le_compat_r; [exact Hxy |].
    apply Qlt_le_weak, Qinv_lt_0_compat, pow2_pos.
  - eapply Qle_trans; [apply nearest_le; exact Hx |].
    eapply Qle_trans; [| apply nearest_ge; [exact Hy |]].
    + apply pow2_le. lia.
    + unfold ulp_exp in *. lia.
Qed.

Lemma nearest_comp (x y : Q) : (0 < x)%Q -> (x == y)%Q -> nearest x = nearest y.
Proof.
  intros Hx E. unfold nearest, ulp_exp. rewrite (ilog2_comp x y Hx E).
  f_equal. f_equal. apply round_even_comp. rewrite E. reflexivity.
Qed.

(** The nearest double *)

Lemma double_pos_cases (q : Q) :
  (0 < q)%Q ->
  double_pos q = PInf /\ (pow2 1024 <= nearest q)%Q \/
  exists v, double_pos q = Fin v /\ (v == nearest q)%Q /\ (0 <= v)%Q /\
            (v < pow2 1024)%Q.
Proof.
  intros Hq. unfold double_pos.
  destruct (Qle_bool (pow2 1024) (nearest q)) eqn:E.
  - left. split; [reflexivity |]. apply Qle_bool_iff. exact E.
  - right. exists (Qred (nearest q)).
    split; [reflexivity |]. split; [apply Qred_correct |].
    rewrite Qred_correct. split; [apply nearest_nonneg; exact Hq |].
    apply Qnot_le_lt. intros H. apply Qle_bool_iff in H. congruence.
Qed.

Lemma double_pos_mono (x y : Q) :
  (0 < x)%Q -> (x <= y)%Q -> jle (double_pos x) (double_pos y).
Proof.
  intros Hx Hxy.
  assert (0 < y)%Q as Hy by (eapply Qlt_le_trans; eassumption).
  pose proof (nearest_mono x y Hx Hxy) as Hn.
  destruct (double_pos_cases x Hx) as [[-> Ox] | (vx & -> & Ex & _ & Bx)];
    destruct (double_pos_cases y Hy) as [[-> Oy] | (vy & -> & Ey & _ & By)];
    simpl; try exact I.
  - rewrite Ey in By. lra.
  - rewrite Ex, Ey. exact Hn.
Qed.

Lemma double_pos_nonneg (x : Q) : (0 < x)%Q -> jle (Fin 0) (double_pos x).
Proof.
  intros Hx.
  destruct (double_pos_cases x Hx) as [[-> _] | (v & -> & _ & Hv & _)];
    [exact I | exact Hv].
Qed.

Lemma double_pos_comp (x y : Q) :
  (0 < x)%Q -> (x == y)%Q -> double_pos x = double_pos y.
Proof.
  intros Hx E. unfold double_pos. rewrite (nearest_comp x y Hx E). reflexivity.
Qed.

Lemma jle_refl a : a <> NaN -> jle a a.
Proof. destruct a; simpl; try tauto. intros _. apply Qle_refl. Qed.

Lemma jle_trans a b c : jle a b -> jle b c -> jle a c.
Proof.
  destruct a, b, c; simpl; try tauto. apply Qle_trans.
Qed.

Lemma jle_jneg a b : jle a b -> jle (jneg b) (jneg a).
Proof.
  destruct a, b; simpl; try tauto. intros H. lra.
Qed.

Lemma to_double_comp (x y : Q) : (x == y)%Q -> to_double x = to_double y.
Proof.
  intros E. unfold to_double.
  rewrite <- (Qcompare_comp _ _ E _ _ (Qeq_refl 0)).
  destruct (Qcompare_spec x 0) as [H | H | H]; [reflexivity | |].
  - f_equal. apply double_pos_comp; [lra | rewrite E; reflexivity].
  - apply double_pos_comp; [exact H | exact E].
Qed.

Lemma to_double_sign (x : Q) :
  ((x <= 0)%Q -> jle (to_double x) (Fin 0)) /\
  ((0 <= x)%Q -> jle (Fin 0) (to_double x)).
Proof.
  unfold to_double.
  destruct (Qcompare_spec x 0) as [H | H | H]; split; intros H';
    try (simpl; lra).
  - assert (0 < - x)%Q as Hn by lra.
    apply jle_jneg with (a := Fin 0) (b := double_pos (- x)).
    apply double_pos_nonneg. exact Hn.
  - apply double_pos_nonneg. exact H.
Qed.

Lemma to_double_mono (x y : Q) :
  (x <= y)%Q -> jle (to_double x) (to_double y).
Proof.
  intros Hxy.
  destruct (Qlt_le_dec 0 x) as [Hx | Hx].
  - assert (0 < y)%Q as Hy by lra. unfold to_double.
    destruct (Qcompare_spec x 0) as [H | H | H]; try (exfalso; lra).
    destruct (Qcompare_spec y 0) as [H0 | H0 | H0]; try (exfalso; lra).
    apply double_pos_mono; assumption.
  - destruct (Qlt_le_dec y 0) as [Hy | Hy].
    + unfold to_double.
      destruct (Qcompare_spec x 0) as [H | H | H]; try (exfalso; lra).
      destruct (Qcompare_spec y 0) as [H0 | H0 | H0]; try (exfalso; lra).
      apply jle_jneg. apply double_pos_mono; lra.
    + eapply jle_trans; [apply to_double_sign; exact Hx |].
      apply to_double_sign. exact Hy.
Qed.

Lemma to_double_not_NaN (x : Q) : to_double x <> NaN.
Proof.
  pose proof (to_double_mono x x (Qle_refl x)) as H.
  intros E. rewrite E in H. exact H.
Qed.

Lemma to_double_zero (x : Q) : (x == 0)%Q -> to_double x = Fin 0.
Proof. intros E. rewrite (to_double_comp x 0 E). reflexivity. Qed.

(** ** Computations *)

Ltac run := unfold bind, get, ret, modify, throw; simpl.

Lemma bind_Return {A B} (m : M A) (k : A -> M B) c b c' :
  bind m k c = Return b c' ->
  exists a c1, m c = Return a c1 /\ k a c1 = Return b c'.
Proof.
  unfold bind. destruct (m c) as [a c1 | e c1]; [| discriminate].
  intros H. exists a, c1. split; [reflexivity | exact H].
Qed.

Lemma bind_eq {A B} (m : M A) (k : A -> M B) c a c1 :
  m c = Return a c1 -> bind m k c = k a c1.
Proof. unfold bind. intros ->. reflexivity. Qed.

Lemma set_heap_same c : set_heap (heap c) c = c.
Proof. destruct c; reflexivity. Qed.

(** Two readings of one heap cell. *)
Lemma lookup_same (h : list sample) l o o' :
  h !! l = Some o -> h !! l = Some o' -> o' = o.
Proof. intros H H'. rewrite H in H'. injection H' as <-. reflexivity. Qed.

Lemma heap_insert_same (h : list sample) (l : loc) o :
  h !! l = Some o -> <[l := o]> h = h.
Proof. apply list_insert_id. Qed.

(** ** The normaliser *)

Lemma spec_percent_jor (c : RealTimeChart) (x : jsnum) :
  spec_percent c x =
  jor (Math_round (jmul (jdiv (jsub x (minOf c)) (diffOf c)) (of_Z 100)))
      (of_Z 1).
Proof.
  unfold spec_percent, jor.
  destruct (Math_round _) as [q | | |]; simpl; try reflexivity.
  destruct (Qzerob q); reflexivity.
Qed.

(** One frame of calculatePercent, whatever filterValue does. *)
Lemma calculatePercent_frame_unfold call raw c :
  calculatePercent_frame call raw c =
  match filterValue call raw c with
  | Return v c' => Return (spec_percent c' (toNumber v)) c'
  | Throw e c' => Throw e c'
  end.
Proof.
  unfold calculatePercent_frame at 1. unfold bind at 1.
  destruct (filterValue _ raw c) as [v c' | e c']; [| reflexivity].
  run. rewrite spec_percent_jor. reflexivity.
Qed.

Lemma calculatePercent_unfold depth raw c :
  calculatePercent (S depth) raw c =
  match filterValue (calculatePercent depth) raw c with
  | Return v c' => Return (spec_percent c' (toNumber v)) c'
  | Throw e c' => Throw e c'
  end.
Proof. apply calculatePercent_frame_unfold. Qed.

(** Without growth of the range, filterValue is the clamp and leaves the
    chart alone. *)
Lemma filterValue_clamp rec raw c :
  Options.calcMaxValue (options c) = false \/
  jgt (toNumber raw) (maxOf c) = false ->
  exists v, filterValue rec raw c = Return v c /\
            toNumber v = spec_clamp c (toNumber raw).
Proof.
  intros H. unfold filterValue, spec_clamp, minOf, maxOf in *. run.
  destruct (jlt (toNumber raw) _); [eexists; split; reflexivity |].
  destruct (jgt (toNumber raw) _) eqn:Hgt.
  - destruct H as [-> | H]; [eexists; split; reflexivity | discriminate H].
  - eexists; split; reflexivity.
Qed.

Lemma calculatePercent_clamp depth raw c :
  Options.calcMaxValue (options c) = false \/
  jgt (toNumber raw) (maxOf c) = false ->
  calculatePercent (S depth) raw c =
  Return (spec_percent c (spec_clamp c (toNumber raw))) c.
Proof.
  intros H. rewrite calculatePercent_unfold.
  destruct (filterValue_clamp (calculatePercent depth) raw c H) as (v & -> & ->).
  reflexivity.
Qed.

(** A call that does not grow the range: the percent of the clamped input,
    the chart left as it was. *)
Lemma filterValue_settled rec raw c :
  grows c (toNumber raw) = false ->
  exists v, filterValue rec raw c = Return v c /\
            toNumber v = spec_clamp c (toNumber raw).
Proof.
  unfold grows, filterValue, spec_clamp, minOf, maxOf. run. intros H.
  destruct (jlt (toNumber raw) _); [eexists; split; reflexivity |].
  destruct (jgt (toNumber raw) _); [| eexists; split; reflexivity].
  simpl in H. rewrite H. eexists; split; reflexivity.
Qed.

Lemma calculatePercent_settled depth raw c :
  grows c (toNumber raw) = false ->
  calculatePercent (S depth) raw c =
  Return (spec_percent c (spec_clamp c (toNumber raw))) c.
Proof.
  intros H. rewrite calculatePercent_unfold.
  destruct (filterValue_settled (calculatePercent depth) raw c H)
    as (v & -> & ->).
  reflexivity.
Qed.

Lemma grows_off c num :
  Options.calcMaxValue (options c) = false -> grows c num = false.
Proof. intros H. unfold grows. rewrite H. apply andb_false_r. Qed.

(** ** The percent of a number in the range *)

(** A number between two doubles rounds to a double between them. *)
Lemma to_double_between (lo hi x : Q) :
  to_double lo = Fin lo -> to_double hi = Fin hi ->
  (lo <= x)%Q -> (x <= hi)%Q ->
  exists v, to_double x = Fin v /\ (lo <= v)%Q /\ (v <= hi)%Q.
Proof.
  intros Elo Ehi Hlo Hhi.
  pose proof (to_double_mono lo x Hlo) as H1.
  pose proof (to_double_mono x hi Hhi) as H2.
  rewrite Elo in H1. rewrite Ehi in H2.
  destruct (to_double x) as [v | | |]; simpl in *; try contradiction.
  exists v. auto.
Qed.

Lemma Math_round_between (w w' : Q) :
  (0 <= w)%Q -> (w <= w')%Q -> (w' <= 100)%Q ->
  exists z z', Math_round (Fin w) = of_Z z /\ Math_round (Fin w') = of_Z z' /\
               0 <= z /\ z <= z' /\ z' <= 100.
Proof.
  intros H0 Hw H100. exists (Qfloor (w + (1 # 2))), (Qfloor (w' + (1 # 2))).
  split; [reflexivity |]. split; [reflexivity |].
  split; [| split].
  - change 0 with (Qfloor 0). apply Qfloor_resp_le. lra.
  - apply Qfloor_resp_le. lra.
  - change 100 with (Qfloor (inject_Z 100 + (1 # 2))).
    apply Qfloor_resp_le. change (inject_Z 100) with 100%Q. lra.
Qed.

(** The quotient by a positive [d], times 100, rounded: for numerators
    0 <= t <= t' <= d, integers 0 <= z <= z' <= 100. *)
Lemma percent_steps (d t t' : Q) :
  (0 < d)%Q -> (0 <= t)%Q -> (t <= t')%Q -> (t' <= d)%Q ->
  exists z z',
    Math_round (jmul (jdiv (Fin t) (Fin d)) (of_Z 100)) = of_Z z /\
    Math_round (jmul (jdiv (Fin t') (Fin d)) (of_Z 100)) = of_Z z' /\
    0 <= z /\ z <= z' /\ z' <= 100.
Proof.
  intros Hd H0 Ht Ht'.
  assert (Qzerob d = false) as Ez by (apply Qzerob_false; lra).
  assert (0 < / d)%Q as Hi by (apply Qinv_lt_0_compat; exact Hd).
  assert (forall x, (0 <= x)%Q -> (x <= d)%Q ->
                    (0 <= x / d)%Q /\ (x / d <= 1)%Q) as Hq.
  { intros x Hx0 Hxd. split.
    - apply Qle_shift_div_l; [exact Hd | lra].
    - apply Qle_shift_div_r; [exact Hd | lra]. }
  assert (t / d <= t' / d)%Q as Hm
      by (apply Qmult_le_compat_r; [exact Ht | lra]).
  destruct (Hq t) as [A0 A1]; [lra | lra |].
  destruct (Hq t') as [B0 B1]; [lra | lra |].
  destruct (to_double_between 0 1 (t / d) eq_refl eq_refl A0 A1)
    as (u & Eu & U0 & U1).
  destruct (to_double_between 0 1 (t' / d) eq_refl eq_refl B0 B1)
    as (u' & Eu' & U0' & U1').
  assert (u <= u')%Q as Hu.
  { pose proof (to_double_mono _ _ Hm) as H. rewrite Eu, Eu' in H. exact H. }
  cbn [jdiv]. rewrite Ez, Eu, Eu'. unfold of_Z at 1 3. cbn [jmul].
  change (inject_Z 100) with 100%Q.
  destruct (to_double_between 0 100 (u * 100) eq_refl eq_refl)
    as (w & Ew & W0 & W1); [lra | lra |].
  destruct (to_double_between 0 100 (u' * 100) eq_refl eq_refl)
    as (w' & Ew' & W0' & W1'); [lra | lra |].
  assert (w <= w')%Q as Hw.
  { assert (u * 100 <= u' * 100)%Q as H by lra.
    apply to_double_mono in H. rewrite Ew, Ew' in H. exact H. }
  rewrite Ew, Ew'. apply Math_round_between; assumption.
Qed.

Lemma percent_of_NaN_or_zero (x : jsnum) :
  x = NaN \/ x = Fin 0 ->
  jor (Math_round (jmul x (of_Z 100))) (of_Z 1) = of_Z 1.
Proof. intros [-> | ->]; reflexivity. Qed.

(** In the range, the percent is an integer between 1 and 100, and
    monotonic. *)
Lemma percent_of_in_range (mn mx a b : Q) :
  (mn <= a)%Q -> (a <= b)%Q -> (b <= mx)%Q ->
  exists pa pb,
    percent_of mn mx a = of_Z pa /\ percent_of mn mx b = of_Z pb /\
    1 <= pa /\ pa <= pb /\ pb <= 100.
Proof.
  intros Hlo Hab Hhi. unfold percent_of. cbn [jsub].
  assert (a - mn <= b - mn)%Q as M1 by lra.
  assert (b - mn <= mx - mn)%Q as M2 by lra.
  assert (0 <= a - mn)%Q as M0 by lra.
  pose proof (to_double_mono _ _ M1) as J1.
  pose proof (to_double_mono _ _ M2) as J2.
  pose proof (proj2 (to_double_sign _) M0) as J0.
  destruct (to_double (mx - mn)) as [d | | |] eqn:ED;
    destruct (to_double (b - mn)) as [t' | | |] eqn:ET';
    simpl in J2; try contradiction;
    destruct (to_double (a - mn)) as [t | | |] eqn:ET;
    simpl in J1, J0; try contradiction.
  - (* a finite width *)
    destruct (Qlt_le_dec 0 d) as [Hd | Hd].
    + destruct (percent_steps d t t' Hd J0 J1 J2)
        as (z & z' & -> & -> & Z0 & Zm & Z100).
      rewrite !jor_of_Z.
      eexists _, _. split; [reflexivity |]. split; [reflexivity |].
      destruct (z =? 0) eqn:E1, (z' =? 0) eqn:E2; lia.
    + assert (Qzerob d = true) as Ez by (apply Qzerob_true; lra).
      assert (Qzerob t = true) as Et by (apply Qzerob_true; lra).
      assert (Qzerob t' = true) as Et' by (apply Qzerob_true; lra).
      cbn [jdiv]. rewrite Ez. unfold inf_of_sign. rewrite Et, Et'.
      exists 1, 1. repeat split; try reflexivity; lia.
  - exists 1, 1. repeat split; try reflexivity; lia.
  - exists 1, 1. repeat split; try reflexivity; lia.
  - exists 1, 1. repeat split; try reflexivity; lia.
Qed.

Lemma percentZ_of (mn mx a : Q) (p : Z) :
  percent_of mn mx a = of_Z p -> percentZ mn mx a = p.
Proof. intros H. unfold percentZ. rewrite H. apply Qfloor_Z. Qed.

Lemma percentZ_in_range (mn mx a : Q) :
  (mn <= a)%Q -> (a <= mx)%Q ->
  percent_of mn mx a = of_Z (percentZ mn mx a) /\
  1 <= percentZ mn mx a <= 100.
Proof.
  intros Hlo Hhi.
  destruct (percent_of_in_range mn mx a a Hlo (Qle_refl a) Hhi)
    as (p & p' & Hp & _ & H1 & Hm & H100).
  rewrite (percentZ_of _ _ _ _ Hp). split; [exact Hp | lia].
Qed.

Lemma percentZ_mono (mn mx a b : Q) :
  (mn <= a)%Q -> (a <= b)%Q -> (b <= mx)%Q ->
  percentZ mn mx a <= percentZ mn mx b.
Proof.
  intros Hlo Hab Hhi.
  destruct (percent_of_in_range mn mx a b Hlo Hab Hhi)
    as (pa & pb & Ha & Hb & _ & Hm & _).
  rewrite (percentZ_of _ _ _ _ Ha), (percentZ_of _ _ _ _ Hb). exact Hm.
Qed.

Lemma percentZ_min (mn mx : Q) : (mn <= mx)%Q -> percentZ mn mx mn = 1.
Proof.
  intros H. apply percentZ_of. unfold percent_of. cbn [jsub].
  rewrite (to_double_zero (mn - mn)) by ring.
  destruct (to_double (mx - mn)) as [d | | |] eqn:ED; try reflexivity.
  cbn [jdiv]. destruct (Qzerob d) eqn:Ez; [reflexivity |].
  rewrite (to_double_zero (0 / d)) by (unfold Qdiv; ring). reflexivity.
Qed.

(** At max the percent is 100 when the width of the range is a finite,
    non-zero double. *)
Lemma percentZ_max (mn mx d : Q) :
  jsub (Fin mx) (Fin mn) = Fin d -> ~ (d == 0)%Q ->
  percentZ mn mx mx = 100.
Proof.
  intros ED Hd. apply percentZ_of. unfold percent_of. rewrite ED.
  cbn [jdiv]. rewrite (proj2 (Qzerob_false d) Hd).
  rewrite (to_double_comp (d / d) 1) by (field; exact Hd).
  reflexivity.
Qed.

Lemma spec_percent_of c mn mx a :
  configured c mn mx -> spec_percent c (Fin a) = percent_of mn mx a.
Proof.
  intros (Hmin & Hmax & Hlt & Hdiff).
  rewrite spec_percent_jor, Hdiff, Hmax, Hmin. reflexivity.
Qed.

Lemma spec_percent_in_range c mn mx a :
  configured c mn mx -> (mn <= a)%Q -> (a <= mx)%Q ->
  spec_percent c (Fin a) = of_Z (percentZ mn mx a).
Proof.
  intros Hc Hlo Hhi. rewrite (spec_percent_of c mn mx a Hc).
  apply percentZ_in_range; assumption.
Qed.

Lemma spec_clamp_in_range c mn mx a :
  configured c mn mx -> (mn <= a)%Q -> (a <= mx)%Q ->
  spec_clamp c (Fin a) = Fin a.
Proof.
  intros (Hmin & Hmax & _) Hlo Hhi. unfold spec_clamp, jgt.
  rewrite Hmin, Hmax. simpl.
  assert (Qltb a mn = false) as -> by (apply Qltb_ge; exact Hlo).
  assert (Qltb mx a = false) as -> by (apply Qltb_ge; exact Hhi).
  reflexivity.
Qed.

Lemma calculatePercent_in_range depth c mn mx a :
  configured c mn mx -> (mn <= a)%Q -> (a <= mx)%Q ->
  calculatePercent (S depth) (Number (Fin a)) c =
  Return (of_Z (percentZ mn mx a)) c.
Proof.
  intros Hc Hlo Hhi.
  rewrite calculatePercent_clamp.
  - simpl. rewrite (spec_clamp_in_range c mn mx) by assumption.
    f_equal. apply (spec_percent_in_range c mn mx); assumption.
  - right. destruct Hc as (_ & Hmax & _). unfold jgt. rewrite Hmax. simpl.
    apply Qltb_ge. exact Hhi.
Qed.

(** C1, as the code has it.  On a chart configured with min < max,
    calculatePercent is round((clamp(raw) - min) / diff * 100), computed in
    doubles, with 1 in place of 0 and NaN: one frame of it is the
    specification's percent of what filterValue returns, under the range
    filterValue leaves; when the range does not grow this is the percent of
    the clamped input and the chart is left as it was;
    calculatePercent(min) = 1; and calculatePercent(max) = 100 when
    diff = max - min is finite, that is when the subtraction does not
    overflow. *)
Theorem calculatePercent_formula depth c mn mx :
  configured c mn mx ->
  (forall raw,
      calculatePercent (S depth) raw c =
      match filterValue (calculatePercent depth) raw c with
      | Return v c' => Return (spec_percent c' (toNumber v)) c'
      | Throw e c' => Throw e c'
      end) /\
  (forall raw,
      Options.calcMaxValue (options c) = false \/
      jgt (toNumber raw) (maxOf c) = false ->
      calculatePercent (S depth) raw c =
      Return (spec_percent c (spec_clamp c (toNumber raw))) c) /\
  calculatePercent (S depth) (Number (Fin mn)) c = Return (of_Z 1) c /\
  (forall d, diffOf c = Fin d -> (0 < d)%Q ->
             calculatePercent (S depth) (Number (Fin mx)) c =
             Return (of_Z 100) c).
Proof.
  intros Hc. pose proof Hc as (Hmin & Hmax & Hlt & Hdiff).
  split; [intros raw; apply calculatePercent_unfold |].
  split; [intros raw; apply calculatePercent_clamp |].
  split.
  - rewrite (calculatePercent_in_range depth c mn mx) by (assumption || lra).
    rewrite percentZ_min by lra. reflexivity.
  - intros d Hd Hpos.
    rewrite (calculatePercent_in_range depth c mn mx) by (assumption || lra).
    rewrite (percentZ_max mn mx d); [reflexivity | | lra].
    rewrite <- Hmin, <- Hmax, <- Hdiff. exact Hd.
Qed.

Lemma calculatePercent_formula_witness :
  configured (example_chart 0 200 false 50 []) 0 200 /\
  calculatePercent 1 (Number (Fin 0)) (example_chart 0 200 false 50 []) =
    Return (of_Z 1) (example_chart 0 200 false 50 []) /\
  calculatePercent 1 (Number (Fin 200)) (example_chart 0 200 false 50 []) =
    Return (of_Z 100) (example_chart 0 200 false 50 []) /\
  calculatePercent 1 (Number (Fin 29)) (example_chart 0 200 false 50 []) =
    Return (of_Z 14) (example_chart 0 200 false 50 []).
Proof.
  assert (configured (example_chart 0 200 false 50 []) 0 200) as Hc
    by (repeat split; vm_compute; reflexivity).
  destruct (calculatePercent_formula 0 _ 0 200 Hc) as (_ & _ & Hmn & Hmx).
  split; [exact Hc |]. split; [exact Hmn |].
  split; [apply (Hmx 200%Q); vm_compute; reflexivity |].
  vm_compute. reflexivity.
Defined.

(** C1 as stated fails in its last part: on the range [-1e308, 1e308] the
    subtraction max - min overflows to Infinity, every quotient by it is 0
    or NaN, and calculatePercent(max) is 1, not 100. *)
Lemma calculatePercent_max_overflow :
  exists mn mx,
    configured wide_chart mn mx /\
    to_double (10 ^ 308 # 1) = Fin mx /\
    diffOf wide_chart = PInf /\
    calculatePercent 1 (Number (Fin mx)) wide_chart =
      Return (of_Z 1) wide_chart /\
    of_Z 1 <> of_Z 100.
Proof.
  eexists _, _. split.
  { split; [vm_compute; reflexivity |]. split; [vm_compute; reflexivity |].
    split; vm_compute; reflexivity. }
  split; [vm_compute; reflexivity |]. split; [vm_compute; reflexivity |].
  split; [vm_compute; reflexivity | intros H; discriminate H].
Qed.

(** C9.  Under a fixed range min < max, for raw inputs a <= b both within
    [min, max], calculatePercent(a) <= calculatePercent(b); both calls
    return integers and leave the chart as it was. *)
Theorem calculatePercent_monotonic depth c mn mx a b :
  configured c mn mx ->
  (mn <= a)%Q -> (a <= b)%Q -> (b <= mx)%Q ->
  exists pa pb : Z,
    calculatePercent (S depth) (Number (Fin a)) c = Return (of_Z pa) c /\
    calculatePercent (S depth) (Number (Fin b)) c = Return (of_Z pb) c /\
    pa <= pb.
Proof.
  intros Hc Hlo Hab Hhi. pose proof Hc as (_ & _ & Hlt & _).
  exists (percentZ mn mx a), (percentZ mn mx b).
  split; [| split].
  - apply calculatePercent_in_range; [assumption | lra | lra].
  - apply calculatePercent_in_range; [assumption | lra | lra].
  - apply percentZ_mono; [assumption | assumption | lra].
Qed.

Lemma calculatePercent_monotonic_witness :
  configured (example_chart 0 100 true 3 []) 0 100 /\
  (0 <= 10)%Q /\ (10 <= 90)%Q /\ (90 <= 100)%Q /\
  exists pa pb : Z,
    calculatePercent 1 (Number (Fin 10)) (example_chart 0 100 true 3 []) =
      Return (of_Z pa) (example_chart 0 100 true 3 []) /\
    calculatePercent 1 (Number (Fin 90)) (example_chart 0 100 true 3 []) =
      Return (of_Z pb) (example_chart 0 100 true 3 []) /\
    pa <= pb.
Proof.
  assert (configured (example_chart 0 100 true 3 []) 0 100) as Hc
    by (repeat split; reflexivity).
  assert (0 <= 10)%Q as H1 by (vm_compute; discriminate).
  assert (10 <= 90)%Q as H2 by (vm_compute; discriminate).
  assert (90 <= 100)%Q as H3 by (vm_compute; discriminate).
  split; [exact Hc |]. split; [exact H1 |]. split; [exact H2 |].
  split; [exact H3 |].
  exact (calculatePercent_monotonic 0 _ 0 100 10 90 Hc H1 H2 H3).
Defined.

(** ** Layout *)

Lemma calculateDefaults_layout c :
  calculateDefaults c =
  Return tt (set_settings (layout (options c) (settings c)) c).
Proof.
  unfold calculateDefaults, layout, Layout.assign, calculateValueDiff. run.
  destruct c as [d a o s h l]; simpl.
  destruct (Layout.hasLegend o), (Options.showRuler o); reflexivity.
Qed.

(** C7, as the code has it.  calculateDefaults sets settings.paddingBottom
    to options.paddingBottom + 30 when a non-empty legend is configured and
    otherwise leaves settings.paddingBottom at the value it had; sets
    settings.paddingRight to options.paddingRight + 30 when the ruler is
    enabled and otherwise leaves it at the value it had; and derives
    stageWidth = width - 2 - paddingRight - 2,
    stageHeight = height - 2 - paddingBottom - 2,
    oneXSegment = stageWidth / totalElement, oneYSegment = stageHeight / 100
    from the settings' paddings. *)
Theorem calculateDefaults_geometry c :
  exists c',
    calculateDefaults c = Return tt c' /\
    let o := options c in
    let s' := settings c' in
    Settings.paddingBottom s' =
      (if Layout.hasLegend o then jadd (Options.paddingBottom o) (of_Z 30)
       else Settings.paddingBottom (settings c)) /\
    Settings.paddingRight s' =
      (if Options.showRuler o then jadd (Options.paddingRight o) (of_Z 30)
       else Settings.paddingRight (settings c)) /\
    Settings.stageWidth s' =
      jsub (jsub (jsub (Options.width o) (of_Z 2)) (Settings.paddingRight s'))
           (of_Z 2) /\
    Settings.stageHeight s' =
      jsub (jsub (jsub (Options.height o) (of_Z 2))
                 (Settings.paddingBottom s'))
           (of_Z 2) /\
    Settings.oneXSegment s' =
      jdiv (Settings.stageWidth s') (Options.totalElement o) /\
    Settings.oneYSegment s' = jdiv (Settings.stageHeight s') (of_Z 100) /\
    options c' = o /\ data c' = data c /\ heap c' = heap c.
Proof.
  eexists. split; [apply calculateDefaults_layout |].
  simpl. repeat split; reflexivity.
Qed.

(** C7 as stated fails: with no legend entry and no ruler, a configured
    padding of 10 does not reach the settings, which keep the
    constructor's 0. *)
Lemma calculateDefaults_padding_not_copied :
  Layout.hasLegend (options bare_chart) = false /\
  Options.showRuler (options bare_chart) = false /\
  exists c',
    calculateDefaults bare_chart = Return tt c' /\
    Settings.paddingBottom (settings c') = of_Z 0 /\
    Settings.paddingBottom (settings c') <>
      Options.paddingBottom (options bare_chart) /\
    Settings.paddingRight (settings c') <>
      Options.paddingRight (options bare_chart).
Proof.
  split; [reflexivity |]. split; [reflexivity |].
  eexists. split; [reflexivity |].
  split; [reflexivity |]. split; intros H; discriminate H.
Qed.

(** ** Taking in data *)

Lemma addChartData_no_growth depth v c b c1 :
  transformChartDataToPercent depth v c = Return b c1 ->
  dataArray c1 = dataArray c ->
  addChartData depth v c = Return tt (append b c1).
Proof.
  intros Ht Ha. unfold addChartData, append. run. rewrite Ht.
  rewrite Ha, Nat.eqb_refl. simpl. rewrite length_app.
  destruct (jgt _ _); reflexivity.
Qed.

Lemma addChartData_returns depth v c b c1 :
  transformChartDataToPercent depth v c = Return b c1 ->
  exists c', addChartData depth v c = Return tt c'.
Proof.
  intros Ht. unfold addChartData.
  unfold bind at 1. cbn [get bind ret]. unfold bind at 1. rewrite Ht.
  unfold bind at 1, get at 1. unfold bind at 1.
  destruct (dataArray c1 =? dataArray c)%nat;
    cbn [modify ret]; unfold bind at 1, get at 1;
    destruct (jgt _ _); eexists; reflexivity.
Qed.

Lemma append_length b c (n : nat) :
  Options.totalElement (options c) = of_nat n ->
  (length (data c) <= n)%nat ->
  length (data (append b c)) = Nat.min (S (length (data c))) n /\
  data (append b c) =
    (if (n <? S (length (data c)))%nat then tail (data c ++ [b])
     else data c ++ [b]).
Proof.
  intros Hcap Hlen. unfold append, jgt.
  rewrite Hcap, jlt_of_nat, length_app. simpl length.
  replace (length (data c) + 1)%nat with (S (length (data c))) by lia.
  destruct (Nat.ltb_spec n (S (length (data c)))) as [H | H];
    cbn [shift push set_data data]; (split; [| reflexivity]).
  - destruct (data c) as [| b0 d]; cbn [app tail length] in *;
      rewrite ?length_app; cbn [length]; lia.
  - rewrite length_app. cbn [length]. lia.
Qed.

Lemma mapM_primitive_junk depth vs c :
  forallb primitive_junk vs = true ->
  mapM (transformElement depth) vs c =
  Return (map (fun _ => EUndefined) vs) c.
Proof.
  induction vs as [| v vs IH]; intros H; [reflexivity |].
  simpl in H. apply andb_prop in H as [Hv Hvs].
  simpl. unfold bind at 1.
  replace (transformElement depth v c) with (Return EUndefined c)
    by (destruct v; try discriminate Hv; reflexivity).
  unfold bind at 1. rewrite (IH Hvs). reflexivity.
Qed.

(** C8, as the code has it.  For an input that is [undefined], a boolean,
    a string or an object without a [value], addChartData raises no error
    and changes no sample and no setting, but it is not a no-op: it appends
    [undefined] to the window as a batch, and drops the oldest batch when
    the length then exceeds totalElement.  An array of such primitive
    values is appended as a batch of [undefined] elements.  For [null],
    addChartData throws a TypeError and leaves the chart as it was. *)
Theorem addChartData_malformed depth c :
  (forall v, malformed c v ->
             addChartData depth v c = Return tt (append BUndefined c)) /\
  (forall vs, forallb primitive_junk vs = true ->
              addChartData depth (Array vs) c =
              Return tt (append (BArray (map (fun _ => EUndefined) vs)) c)) /\
  addChartData depth (Single VNull) c = Throw TypeError c.
Proof.
  split; [| split].
  - intros v Hv. apply addChartData_no_growth; [| reflexivity].
    destruct v as [[| | b | n | s | l] | vs]; simpl in Hv;
      try contradiction; try reflexivity.
    destruct Hv as (o & Hl & Ho). simpl. unfold bind, read. rewrite Hl, Ho.
    reflexivity.
  - intros vs Hvs. apply addChartData_no_growth; [| reflexivity].
    simpl. unfold transformArray, bind.
    rewrite mapM_primitive_junk by exact Hvs. reflexivity.
  - reflexivity.
Qed.

Lemma addChartData_malformed_witness :
  malformed (example_chart 0 100 false 3 []) (Single (VString "x")) /\
  addChartData 1 (Single (VString "x")) (example_chart 0 100 false 3 []) =
    Return tt (append BUndefined (example_chart 0 100 false 3 [])).
Proof.
  split; [exact I |].
  exact (proj1 (addChartData_malformed 1 (example_chart 0 100 false 3 []))
               (Single (VString "x")) I).
Defined.

(** C8 as stated fails: a string is not ignored, the window grows by an
    [undefined] entry; and [null] raises an error. *)
Lemma addChartData_malformed_not_noop :
  (exists c',
      addChartData 1 (Single (VString "x")) (example_chart 0 100 false 3 []) =
        Return tt c' /\
      data (example_chart 0 100 false 3 []) = [] /\
      data c' = [BUndefined]) /\
  addChartData 1 (Single VNull) (example_chart 0 100 false 3 []) =
    Throw TypeError (example_chart 0 100 false 3 []).
Proof.
  split; [| reflexivity].
  eexists. split; [reflexivity |]. split; reflexivity.
Qed.

(** An object with a truthy [value] whose normalisation does not grow the
    range is changed in place and stored by reference: [defValue] receives
    the raw value, [value] the percent, and the batch appended to the window
    refers to the caller's object. *)
Lemma addChartData_object_in_place depth c l o :
  heap c !! l = Some o ->
  toBoolean (value o) = true ->
  grows c (toNumber (value o)) = false ->
  addChartData (S depth) (Single (VObject l)) c =
  Return tt
    (append (BArray [ERef l])
       (set_heap
          (<[l := Sample (Number (spec_percent c (spec_clamp c
                                    (toNumber (value o)))))
                         (value o) (id o)]> (heap c)) c)).
Proof.
  intros Ho Htrue Hg.
  assert (l < length (heap c))%nat as Hlen
      by (eapply lookup_lt_Some; exact Ho).
  apply addChartData_no_growth; [| reflexivity].
  cbn [transformChartDataToPercent].
  erewrite bind_eq by (unfold read; rewrite Ho; reflexivity).
  rewrite Htrue. unfold transformArray. cbn [mapM transformElement].
  unfold bind at 1. unfold bind at 1. unfold bind at 1.
  unfold read at 1. rewrite Ho.
  unfold bind at 1. unfold write at 1. rewrite Ho.
  unfold bind at 1.
  rewrite calculatePercent_settled by exact Hg.
  unfold bind at 1. unfold write at 1. cbn [heap set_heap].
  rewrite list_lookup_insert_eq by exact Hlen.
  rewrite list_insert_insert_eq. reflexivity.
Qed.

(** C10 fails on the code: an object whose [value] is 0 does not pass the
    test [values.value]; it is left as it is, and the window receives
    [undefined] in place of a batch holding it.  Handed over inside an
    array, the same object is normalised in place and stored by
    reference. *)
Theorem addChartData_zero_object_not_stored :
  let o := Sample (Number (of_Z 0)) Undefined (Some "a"%string) in
  (exists c',
      addChartData 1 (Single (VObject 0%nat)) (growing_chart [o]) =
        Return tt c' /\
      heap c' = [o] /\
      data c' = [BUndefined]) /\
  (exists c',
      addChartData 1 (Array [VObject 0%nat]) (growing_chart [o]) =
        Return tt c' /\
      heap c' = [Sample (Number (of_Z 1)) (Number (of_Z 0))
                        (Some "a"%string)] /\
      data c' = [BArray [ERef 0%nat]]).
Proof.
  split.
  - eexists. split; [vm_compute; reflexivity |]. split; reflexivity.
  - eexists. split; [vm_compute; reflexivity |]. split; reflexivity.
Qed.

(** ** What calculatePercent keeps and what it refreshes *)

Lemma kept_refl c : kept c c.
Proof.
  unfold kept. repeat split; try reflexivity.
  intros l o H. exists o. repeat split; [exact H | reflexivity ..].
Qed.

Lemma kept_trans c1 c2 c3 : kept c1 c2 -> kept c2 c3 -> kept c1 c3.
Proof.
  intros (Hd & Ha & Hm & Hg & Ht & Hl & Hh) (Hd' & Ha' & Hm' & Hg' & Ht' & Hl' & Hh').
  unfold kept. repeat split; try congruence; [lia |].
  intros l o H. destruct (Hh l o H) as (o1 & H1 & Hv1 & Hi1).
  destruct (Hh' l o1 H1) as (o2 & H2 & Hv2 & Hi2).
  exists o2. repeat split; congruence.
Qed.

Lemma stored_kept c c' : kept c c' -> stored c' = stored c.
Proof. intros (Hd & _). unfold stored. rewrite Hd. reflexivity. Qed.

(** [normalised] looks at the range only. *)
Lemma normalised_range c c' o :
  options c' = options c -> settings c' = settings c ->
  normalised c o -> normalised c' o.
Proof.
  unfold normalised, grows, spec_percent, spec_clamp, minOf, maxOf, diffOf.
  intros -> ->. tauto.
Qed.

(** Storing a percent into an object: the object becomes normalised when
    the percent is the one of its [defValue], the others stay as they are. *)
Lemma write_value_normalised c l o p ls :
  heap c !! l = Some o ->
  normalised c (set_value (Number p) o) ->
  normalised_on c ls ->
  normalised_on (set_heap (<[l := set_value (Number p) o]> (heap c)) c)
                (l :: ls).
Proof.
  intros Hl Hn Hls l' Hin.
  destruct (Nat.eq_dec l' l) as [-> | Hne].
  - exists (set_value (Number p) o). split.
    + simpl. apply list_lookup_insert_eq. eapply lookup_lt_Some; exact Hl.
    + eapply normalised_range; [| | exact Hn]; reflexivity.
  - destruct Hin as [Heq | Hin]; [congruence |].
    destruct (Hls l' Hin) as (o' & Ho' & Hn').
    exists o'. split.
    + simpl. rewrite list_lookup_insert_ne by congruence. exact Ho'.
    + eapply normalised_range; [| | exact Hn']; reflexivity.
Qed.

Lemma write_value_kept c l o p :
  heap c !! l = Some o ->
  kept c (set_heap (<[l := set_value (Number p) o]> (heap c)) c).
Proof.
  intros Hl. unfold kept. simpl. repeat split; try reflexivity.
  - apply length_insert.
  - intros l' o' Hl'. destruct (Nat.eq_dec l' l) as [-> | Hne].
    + exists (set_value (Number p) o).
      rewrite list_lookup_insert_eq by (eapply lookup_lt_Some; exact Hl).
      assert (o' = o) as -> by congruence.
      repeat split; reflexivity.
    + exists o'. rewrite list_lookup_insert_ne by congruence.
      repeat split; [exact Hl' | reflexivity ..].
Qed.

Lemma normalised_on_incl c ls ls' :
  incl ls' ls -> normalised_on c ls -> normalised_on c ls'.
Proof. intros Hi H l Hl. apply H, Hi, Hl. Qed.

Lemma normalised_on_app c ls ls' :
  normalised_on c ls -> normalised_on c ls' -> normalised_on c (ls ++ ls').
Proof.
  intros H H' l Hl. apply in_app_or in Hl as [Hl | Hl]; [apply H | apply H'];
    exact Hl.
Qed.

(** A sample whose [defValue] grew the range and is stored: once the window
    is normalised under the range that results, the sample's [value] is the
    percent of the unclamped [defValue]. *)
Lemma normalised_after_growth c c' (d : jsnum) o :
  grows c d = true -> kept c c' ->
  toNumber (defValue o) = d -> normalised c' o ->
  value o = Number (spec_percent c' d).
Proof.
  intros Hg (_ & _ & Hm & Hc & _) Hd (Hg' & Hv).
  rewrite Hv, Hd. f_equal. f_equal.
  rewrite Hd in Hg'. unfold grows in Hg, Hg'.
  apply andb_prop in Hg as [Hg Hcalc]. apply andb_prop in Hg as [Hmin _].
  rewrite Hc, Hcalc, Hm, Hmin in Hg'. simpl in Hg'.
  rewrite andb_true_r in Hg'.
  unfold spec_clamp. rewrite Hm. apply negb_true_iff in Hmin.
  rewrite Hmin, Hg'. reflexivity.
Qed.

Section Refresh.
Variable call : field -> M jsnum.
Hypothesis call_refreshes : refreshes call.

Lemma recalculateSample_post l c e c' done :
  In l (stored c) -> incl done (stored c) -> normalised_on c done ->
  recalculateSample call (ERef l) c = Return e c' ->
  e = ERef l /\ kept c c' /\ normalised_on c' (l :: done).
Proof.
  intros Hl Hdone Hn H. unfold recalculateSample in H.
  apply bind_Return in H as (o_ & c0 & Hread & H).
  unfold read in Hread. destruct (heap c !! l) as [o |] eqn:Ho; [| discriminate].
  injection Hread as <- <-.
  apply bind_Return in H as (p & c1 & Hcall & H).
  apply bind_Return in H as ([] & c2 & Hwrite & H).
  injection H as <- <-. split; [reflexivity |].
  unfold write in Hwrite.
  destruct (heap c1 !! l) as [o1 |] eqn:Ho1; [| discriminate].
  injection Hwrite as <-.
  pose proof (call_refreshes _ _ _ _ Hcall) as Hpost.
  destruct (grows c (toNumber (defValue o))) eqn:Hg.
  - destruct Hpost as (Hk & _ & Hw & ->).
    pose proof (stored_kept _ _ Hk) as Hs.
    destruct (Hw l) as (o1' & Ho1' & Hn1); [rewrite Hs; exact Hl |].
    rewrite (lookup_same _ _ _ _ Ho1 Ho1') in *. clear Ho1'.
    pose proof Hk as (_ & _ & _ & _ & _ & _ & Hh).
    destruct (Hh l o Ho) as (o2 & Ho2 & Hd & _).
    rewrite (lookup_same _ _ _ _ Ho1 Ho2) in *. clear Ho2.
    pose proof (normalised_after_growth c c1 _ o1 Hg Hk (f_equal toNumber Hd) Hn1)
      as Hv.
    assert (set_value (Number (spec_percent c1 (toNumber (defValue o)))) o1 = o1)
      as Hsame by (destruct o1; simpl in *; rewrite Hv; reflexivity).
    split.
    + eapply kept_trans; [exact Hk |]. apply write_value_kept. exact Ho1.
    + apply write_value_normalised; [exact Ho1 | rewrite Hsame; exact Hn1 |].
      eapply normalised_on_incl; [| exact Hw]. rewrite Hs. exact Hdone.
  - destruct Hpost as (-> & ->).
    rewrite (lookup_same _ _ _ _ Ho Ho1) in *.
    split; [apply write_value_kept; exact Ho |].
    apply write_value_normalised; [exact Ho | | exact Hn].
    split; [exact Hg | reflexivity].
Qed.

Lemma recalculate_elems_post es : forall c es' c' done,
  incl (refs es) (stored c) -> incl done (stored c) ->
  normalised_on c done ->
  mapM (recalculateSample call) es c = Return es' c' ->
  es' = es /\ kept c c' /\ normalised_on c' (done ++ refs es).
Proof.
  induction es as [| e es IH]; intros c es' c' done Hes Hdone Hn H.
  - injection H as <- <-. split; [reflexivity |]. split; [apply kept_refl |].
    simpl. rewrite app_nil_r. exact Hn.
  - simpl in H. apply bind_Return in H as (e' & c1 & He & H).
    apply bind_Return in H as (es1 & c2 & Hrest & H).
    injection H as <- <-.
    destruct e as [| l]; [discriminate He |].
    change (refs (ERef l :: es)) with (l :: refs es) in *.
    apply (recalculateSample_post l c e' c1 done) in He as (-> & Hk & Hn1);
      [| apply Hes; left; reflexivity | exact Hdone | exact Hn].
    pose proof (stored_kept _ _ Hk) as Hs.
    apply (IH c1 es1 c2 (l :: done)) in Hrest as (-> & Hk2 & Hn2).
    + split; [reflexivity |]. split; [eapply kept_trans; eassumption |].
      eapply normalised_on_incl; [| exact Hn2].
      intros x Hx. apply in_app_or in Hx as [Hx | [-> | Hx]].
      * apply in_or_app. left. right. exact Hx.
      * apply in_or_app. left. left. reflexivity.
      * apply in_or_app. right. exact Hx.
    + rewrite Hs. intros x Hx. apply Hes. right. exact Hx.
    + rewrite Hs. intros x [<- | Hx]; [apply Hes; left; reflexivity |].
      apply Hdone, Hx.
    + exact Hn1.
Qed.

Lemma recalculate_batches_post bs : forall c bs' c' done,
  incl (concat (map batch_refs bs)) (stored c) -> incl done (stored c) ->
  normalised_on c done ->
  mapM (recalculateBatch call) bs c = Return bs' c' ->
  bs' = bs /\ kept c c' /\
  normalised_on c' (done ++ concat (map batch_refs bs)).
Proof.
  induction bs as [| b bs IH]; intros c bs' c' done Hbs Hdone Hn H.
  - injection H as <- <-. split; [reflexivity |]. split; [apply kept_refl |].
    simpl. rewrite app_nil_r. exact Hn.
  - simpl in H. apply bind_Return in H as (b' & cb & Hb & H).
    apply bind_Return in H as (bs1 & c2 & Hrest & H).
    injection H as <- <-.
    destruct b as [| es]; [discriminate Hb |].
    simpl in Hbs. unfold recalculateBatch in Hb.
    apply bind_Return in Hb as (es' & c1 & Hes & Hb).
    injection Hb as <- <-.
    apply (recalculate_elems_post es c es' c1 done) in Hes as (-> & Hk & Hn1);
      [| intros x Hx; apply Hbs, in_or_app; left; exact Hx
       | exact Hdone | exact Hn].
    pose proof (stored_kept _ _ Hk) as Hs.
    apply (IH c1 bs1 c2 (done ++ refs es)) in Hrest as (-> & Hk2 & Hn2).
    + split; [reflexivity |]. split; [eapply kept_trans; eassumption |].
      simpl. rewrite app_assoc. exact Hn2.
    + rewrite Hs. intros x Hx. apply Hbs, in_or_app. right. exact Hx.
    + rewrite Hs. intros x Hx. apply in_app_or in Hx as [Hx | Hx];
        [apply Hdone, Hx | apply Hbs, in_or_app; left; exact Hx].
    + exact Hn1.
Qed.

Lemma recalculatePercents_post c c' :
  recalculatePercents call c = Return tt c' ->
  kept c c' /\ (dataArray c < dataArray c')%nat /\ window_normalised c'.
Proof.
  intros H. unfold recalculatePercents in H.
  apply bind_Return in H as (c0 & c0' & Hget & H). injection Hget as <- <-.
  apply bind_Return in H as (d & c1 & Hmap & H). injection H as <-.
  apply (recalculate_batches_post (data c) c d c1 []) in Hmap
    as (-> & Hk & Hn);
    [| intros x Hx; exact Hx | intros x [] | intros x []].
  destruct Hk as (Hd & Ha & Hm & Hg & Ht & Hl & Hh).
  split; [| split].
  - unfold kept. simpl. repeat split; try assumption. lia.
  - simpl. lia.
  - intros l Hl'. destruct (Hn l Hl') as (o & Ho & Hno).
    exists o. split; [exact Ho |].
    eapply normalised_range; [| | exact Hno]; reflexivity.
Qed.

Lemma calculatePercent_frame_refreshes :
  refreshes (calculatePercent_frame call).
Proof.
  intros num c p c' H. rewrite calculatePercent_frame_unfold in H.
  destruct (filterValue call num c) as [v c1 | e c1] eqn:Hf; [| discriminate].
  injection H as <- <-.
  destruct (grows c (toNumber num)) eqn:Hg.
  - unfold grows in Hg. apply andb_prop in Hg as [Hg Hcalc].
    apply andb_prop in Hg as [Hmin Hmax]. apply negb_true_iff in Hmin.
    unfold filterValue in Hf.
    apply bind_Return in Hf as (c0 & c0' & Hget & Hf).
    injection Hget as <- <-.
    unfold minOf, maxOf in Hmin, Hmax. rewrite Hmin, Hmax, Hcalc in Hf.
    apply bind_Return in Hf as ([] & c2 & Hset & Hf). injection Hset as <-.
    apply bind_Return in Hf as ([] & c3 & Hdiff & Hf). injection Hdiff as <-.
    apply bind_Return in Hf as ([] & c4 & Hrec & Hf).
    apply bind_Return in Hf as ([] & c5 & Hcall & Hf). injection Hcall as <-.
    injection Hf as <- <-.
    apply recalculatePercents_post in Hrec as (Hk & Ha & Hn).
    destruct Hk as (Hd & Ha' & Hm & Hc & Ht & Hl & Hh).
    simpl in *.
    split; [| split; [| split]].
    + unfold kept. simpl. repeat split; assumption.
    + simpl. exact Ha.
    + intros l Hl'. destruct (Hn l Hl') as (o & Ho & Hno).
      exists o. split; [exact Ho |].
      eapply normalised_range; [| | exact Hno]; reflexivity.
    + reflexivity.
  - destruct (filterValue_settled call num c Hg) as (v' & Hf' & Hv').
    rewrite Hf' in Hf. injection Hf as <- <-.
    split; [reflexivity |]. rewrite Hv'. reflexivity.
Qed.
End Refresh.

Lemma calculatePercent_refreshes depth : refreshes (calculatePercent depth).
Proof.
  induction depth as [| depth IH].
  - intros num c p c' H. discriminate H.
  - apply calculatePercent_frame_refreshes. exact IH.
Qed.

Lemma normalised_calculatePercent c o :
  normalised c o <->
  exists p, (forall depth,
                calculatePercent (S depth) (defValue o) c = Return p c) /\
            value o = Number p.
Proof.
  split.
  - intros (Hg & Hv). eexists. split; [| exact Hv].
    intros depth. apply calculatePercent_settled. exact Hg.
  - intros (p & Hcall & Hv).
    pose proof (calculatePercent_refreshes 1 _ _ _ _ (Hcall 0%nat)) as H.
    destruct (grows c (toNumber (defValue o))) eqn:Hg.
    + destruct H as (_ & Hlt & _). lia.
    + destruct H as (_ & ->). split; [exact Hg | exact Hv].
Qed.

Lemma window_normalised_up_to_date c : window_normalised c <-> up_to_date c.
Proof.
  split; intros H l Hl.
  - destruct (H l Hl) as (o & Ho & Hn).
    apply normalised_calculatePercent in Hn as (p & Hp & Hv).
    exists o, p. auto.
  - destruct (H l Hl) as (o & p & Ho & Hp & Hv).
    exists o. split; [exact Ho |].
    apply normalised_calculatePercent. exists p. auto.
Qed.

(** ** Growth of the range *)

Lemma revalued_refl c : revalued c c.
Proof.
  split; [symmetry; apply set_heap_same |]. split; [reflexivity |].
  intros l o H. exists o. split; [exact H | reflexivity].
Qed.

Lemma revalued_trans c1 c2 c3 :
  revalued c1 c2 -> revalued c2 c3 -> revalued c1 c3.
Proof.
  intros (E1 & L1 & H1) (E2 & L2 & H2). split; [| split].
  - rewrite E2, E1. reflexivity.
  - congruence.
  - intros l o Ho. destruct (H1 l o Ho) as (o1 & Ho1 & Hd1).
    destruct (H2 l o1 Ho1) as (o2 & Ho2 & Hd2).
    exists o2. split; [exact Ho2 | congruence].
Qed.

Lemma settled_elem_revalued c c' e :
  revalued c c' -> settled_elem c e -> settled_elem c' e.
Proof.
  intros (E & _ & H) (l & o & -> & Ho & Hg).
  destruct (H l o Ho) as (o' & Ho' & Hd).
  exists l, o'. split; [reflexivity |]. split; [exact Ho' |].
  rewrite Hd, E. exact Hg.
Qed.

Lemma settled_agrees c c' :
  data c' = data c -> options c' = options c ->
  (forall l o, heap c !! l = Some o -> heap c' !! l = Some o) ->
  settled c -> settled c'.
Proof.
  intros Hd Ho Hh H. unfold settled in *. rewrite Hd.
  eapply Forall_impl; [exact H |].
  intros b (es & -> & Hes). exists es. split; [reflexivity |].
  eapply Forall_impl; [exact Hes |].
  intros e (l & o & -> & Hl & Hg). exists l, o.
  split; [reflexivity |]. split; [apply Hh; exact Hl |].
  unfold grows, minOf, maxOf in *. rewrite Ho. exact Hg.
Qed.

Lemma recalculateSample_settled depth c e :
  settled_elem c e ->
  exists c', recalculateSample (calculatePercent (S depth)) e c = Return e c' /\
             revalued c c'.
Proof.
  intros (l & o & -> & Ho & Hg). unfold recalculateSample.
  eexists. split.
  - erewrite bind_eq by (unfold read; rewrite Ho; reflexivity).
    erewrite bind_eq by (apply calculatePercent_settled; exact Hg).
    erewrite bind_eq by (unfold write; rewrite Ho; reflexivity).
    reflexivity.
  - split; [reflexivity |]. split; [apply length_insert |].
    intros l' o' Ho'. simpl. destruct (Nat.eq_dec l' l) as [-> | Hne].
    + rewrite (lookup_same _ _ _ _ Ho Ho').
      eexists. split; [apply list_lookup_insert_eq;
                       eapply lookup_lt_Some; exact Ho |].
      reflexivity.
    + exists o'. rewrite list_lookup_insert_ne by congruence.
      split; [exact Ho' | reflexivity].
Qed.

Lemma recalculate_elems_settled depth es : forall c,
  Forall (settled_elem c) es ->
  exists c', mapM (recalculateSample (calculatePercent (S depth))) es c =
               Return es c' /\
             revalued c c'.
Proof.
  induction es as [| e es IH]; intros c H.
  - exists c. split; [reflexivity | apply revalued_refl].
  - inversion H as [| ? ? He Hes]; subst.
    destruct (recalculateSample_settled depth c e He) as (c1 & H1 & R1).
    destruct (IH c1) as (c2 & H2 & R2).
    { eapply Forall_impl; [exact Hes |].
      intros x. apply settled_elem_revalued. exact R1. }
    exists c2. split; [| eapply revalued_trans; eassumption].
    simpl. rewrite (bind_eq _ _ _ _ _ H1), (bind_eq _ _ _ _ _ H2).
    reflexivity.
Qed.

Lemma recalculate_batches_settled depth bs : forall c,
  Forall (settled_batch c) bs ->
  exists c', mapM (recalculateBatch (calculatePercent (S depth))) bs c =
               Return bs c' /\
             revalued c c'.
Proof.
  induction bs as [| b bs IH]; intros c H.
  - exists c. split; [reflexivity | apply revalued_refl].
  - inversion H as [| ? ? Hb Hbs]; subst.
    destruct Hb as (es & -> & Hes).
    destruct (recalculate_elems_settled depth es c Hes) as (c1 & H1 & R1).
    destruct (IH c1) as (c2 & H2 & R2).
    { eapply Forall_impl; [exact Hbs |].
      intros x (es' & -> & Hes'). exists es'. split; [reflexivity |].
      eapply Forall_impl; [exact Hes' |].
      intros y. apply settled_elem_revalued. exact R1. }
    exists c2. split; [| eapply revalued_trans; eassumption].
    cbn [mapM]. unfold bind at 1. unfold recalculateBatch at 1.
    unfold bind at 1. rewrite H1. unfold ret at 1.
    unfold bind at 1. rewrite H2. reflexivity.
Qed.

Lemma filterValue_grows call c raw :
  grows c raw = true ->
  filterValue call (Number raw) c =
  (recalculatePercents call ;;;
   modify (add_call Stage_printRuler) ;;;
   ret (Number raw)) (grown_range raw c).
Proof.
  intros Hg. unfold grows in Hg.
  apply andb_prop in Hg as [Hg Hcalc]. apply andb_prop in Hg as [Hmin Hmax].
  apply negb_true_iff in Hmin. unfold minOf, maxOf in Hmin, Hmax.
  unfold filterValue. unfold bind at 1, get at 1. cbn [toNumber].
  rewrite Hmin, Hmax, Hcalc. reflexivity.
Qed.

Lemma filterValue_growth depth c raw :
  grows c raw = true -> settled (grown_range raw c) ->
  exists c2,
    revalued (grown_range raw c) c2 /\
    filterValue (calculatePercent (S depth)) (Number raw) c =
    Return (Number raw)
           (add_call Stage_printRuler (assign_data (data c) c2)).
Proof.
  intros Hg Hs.
  destruct (recalculate_batches_settled depth _ _ Hs) as (c2 & Hrec & R).
  exists c2. split; [exact R |].
  rewrite (filterValue_grows _ _ _ Hg).
  unfold recalculatePercents. unfold bind at 1. unfold bind at 1, get at 1.
  unfold bind at 1. rewrite Hrec. reflexivity.
Qed.

(** What a call that grows the range does, on a window that the new range
    settles. *)
Lemma calculatePercent_grows depth c raw :
  grows c raw = true -> settled (grown_range raw c) ->
  exists c',
    calculatePercent (S (S depth)) (Number raw) c =
      Return (spec_percent c' raw) c' /\
    maxOf c' = jadd raw (jmul raw point_one) /\
    diffOf c' = jsub (maxOf c') (minOf c') /\
    minOf c' = minOf c /\
    data c' = data c /\
    up_to_date c' /\
    (forall l o, heap c !! l = Some o ->
                 exists o', heap c' !! l = Some o' /\
                            defValue o' = defValue o) /\
    calls c' = calls c ++ [Stage_printRuler].
Proof.
  intros Hg Hs.
  destruct (filterValue_growth depth c raw Hg Hs) as (c2 & R & Hf).
  pose proof R as (E & Hlen & Hh).
  eexists. split.
  { rewrite calculatePercent_unfold, Hf. reflexivity. }
  assert (calculatePercent (S (S depth)) (Number raw) c =
          Return (spec_percent
                    (add_call Stage_printRuler (assign_data (data c) c2)) raw)
                 (add_call Stage_printRuler (assign_data (data c) c2)))
    as Hcall by (rewrite calculatePercent_unfold, Hf; reflexivity).
  apply calculatePercent_refreshes in Hcall. simpl toNumber in Hcall.
  rewrite Hg in Hcall. destruct Hcall as (_ & _ & Hw & _).
  rewrite E. cbn.
  split; [reflexivity |].
  split; [reflexivity |]. split; [reflexivity |].
  split; [reflexivity |].
  split; [apply window_normalised_up_to_date; rewrite E in Hw; exact Hw |].
  split; [| reflexivity].
  intros l o Ho. apply (Hh l o). exact Ho.
Qed.

(** C2, as the code has it.  For a raw value above max and not below min,
    with calcMaxValue on, on a window of arrays of sample objects none of
    whose [defValue]s lies above the new maximum, calculatePercent sets
    maxValue to raw + raw * 0.1 as doubles give it (rounded, and Infinity
    when the sum overflows), recomputes valueDiff from it, recomputes the
    [value] of every sample of the window from its [defValue] (which it
    keeps), notifies the ruler, and returns the percent of the unclamped
    raw value under the new range, that is
    round((raw - min) / (maxValue - min) * 100) with 1 in place of 0 and
    NaN. *)
Theorem calculatePercent_growth depth c raw :
  grows c raw = true -> settled (grown_range raw c) ->
  exists c',
    calculatePercent (S (S depth)) (Number raw) c =
      Return (spec_percent c' raw) c' /\
    maxOf c' = jadd raw (jmul raw point_one) /\
    diffOf c' = jsub (maxOf c') (minOf c') /\
    minOf c' = minOf c /\
    data c' = data c /\
    up_to_date c' /\
    (forall l o, heap c !! l = Some o ->
                 exists o', heap c' !! l = Some o' /\
                            defValue o' = defValue o) /\
    calls c' = calls c ++ [Stage_printRuler].
Proof. exact (calculatePercent_grows depth c raw). Qed.

Lemma calculatePercent_growth_witness :
  grows chart_with_10 (of_Z 200) = true /\
  settled (grown_range (of_Z 200) chart_with_10) /\
  exists c',
    calculatePercent 2 (Number (of_Z 200)) chart_with_10 =
      Return (spec_percent c' (of_Z 200)) c' /\
    maxOf c' = jadd (of_Z 200) (jmul (of_Z 200) point_one).
Proof.
  assert (grows chart_with_10 (of_Z 200) = true) as Hg by reflexivity.
  assert (settled (grown_range (of_Z 200) chart_with_10)) as Hs.
  { constructor; [| constructor].
    exists [ERef 0%nat]. split; [reflexivity |].
    constructor; [| constructor].
    eexists _, _. split; [reflexivity |]. split; reflexivity. }
  split; [exact Hg |]. split; [exact Hs |].
  destruct (calculatePercent_growth 0 chart_with_10 (of_Z 200) Hg Hs)
    as (c' & Hcall & Hmax & _).
  exists c'. split; [exact Hcall | exact Hmax].
Defined.

(** C2 as stated fails in its last part: on the spec's own scenario (range
    [0, 100], 10 stored, then 200) the maximum becomes 220 and the stored 10
    is recomputed to 5, but the call returns 91, not 100: the new maximum
    lies ten percent above the value that set it. *)
Lemma calculatePercent_growth_returns_91 :
  exists c',
    calculatePercent 2 (Number (of_Z 200)) chart_with_10 =
      Return (of_Z 91) c' /\
    of_Z 91 <> of_Z 100 /\
    (exists q, maxOf c' = Fin q /\ (q == 220)%Q) /\
    heap chart_with_10 !! 0%nat =
      Some (Sample (Number (of_Z 10)) (Number (of_Z 10)) None) /\
    heap c' !! 0%nat =
      Some (Sample (Number (of_Z 5)) (Number (of_Z 10)) None).
Proof.
  eexists. split; [vm_compute; reflexivity |].
  split; [intros H; discriminate H |].
  split; [eexists; split; reflexivity |].
  split; reflexivity.
Qed.

(** A growth that overflows: on the range [0, 100] with 10 stored,
    calculatePercent(1.7e308) sets maxValue to Infinity, and returns 1. *)
Lemma calculatePercent_growth_overflow :
  exists r c',
    to_double (17 * 10 ^ 307 # 1) = Fin r /\
    calculatePercent 2 (Number (Fin r)) chart_with_10 = Return (of_Z 1) c' /\
    maxOf c' = PInf.
Proof.
  eexists _, _. split; [vm_compute; reflexivity |].
  split; vm_compute; reflexivity.
Qed.

(** ** The window across calls *)

Lemma write_normalised c l x ls :
  (l < length (heap c))%nat -> normalised c x -> normalised_on c ls ->
  normalised_on (set_heap (<[l := x]> (heap c)) c) (l :: ls).
Proof.
  intros Hl Hn Hls l' Hin.
  destruct (Nat.eq_dec l' l) as [-> | Hne].
  - exists x. split; [simpl; apply list_lookup_insert_eq; exact Hl |].
    eapply normalised_range; [| | exact Hn]; reflexivity.
  - destruct Hin as [Heq | Hin]; [congruence |].
    destruct (Hls l' Hin) as (o' & Ho' & Hn').
    exists o'. split.
    + simpl. rewrite list_lookup_insert_ne by congruence. exact Ho'.
    + eapply normalised_range; [| | exact Hn']; reflexivity.
Qed.

Lemma write_elsewhere_normalised c l x ls :
  ~ In l ls -> normalised_on c ls ->
  normalised_on (set_heap (<[l := x]> (heap c)) c) ls.
Proof.
  intros Hl Hls l' Hin. destruct (Hls l' Hin) as (o' & Ho' & Hn').
  exists o'. split.
  - simpl. rewrite list_lookup_insert_ne by (intros ->; contradiction).
    exact Ho'.
  - eapply normalised_range; [| | exact Hn']; reflexivity.
Qed.

Lemma alloc_normalised c x ls :
  normalised_on c ls -> normalised_on (set_heap (heap c ++ [x]) c) ls.
Proof.
  intros Hls l Hin. destruct (Hls l Hin) as (o & Ho & Hn).
  exists o. split.
  - simpl. rewrite lookup_app_l by (eapply lookup_lt_Some; exact Ho).
    exact Ho.
  - eapply normalised_range; [| | exact Hn]; reflexivity.
Qed.

Lemma alloc_new_normalised c x ls :
  normalised c x -> normalised_on c ls ->
  normalised_on (set_heap (heap c ++ [x]) c) (length (heap c) :: ls).
Proof.
  intros Hx Hls l [<- | Hin].
  - exists x. split.
    + simpl. apply list_lookup_middle. reflexivity.
    + eapply normalised_range; [| | exact Hx]; reflexivity.
  - exact (alloc_normalised c x ls Hls l Hin).
Qed.

Lemma transformed_refl c : transformed c [] c.
Proof.
  unfold transformed. split; [reflexivity |]. split; [lia |].
  split; [| lia].
  intros _. split; [reflexivity |]. split; [reflexivity |].
  intros known Hk. exact Hk.
Qed.

Lemma transformed_trans c1 ls1 c2 ls2 c3 :
  transformed c1 ls1 c2 -> transformed c2 ls2 c3 ->
  transformed c1 (ls1 ++ ls2) c3.
Proof.
  intros (Hd & Ha & Hsame & Hgrew) (Hd' & Ha' & Hsame' & Hgrew').
  unfold transformed. split; [congruence |]. split; [lia |]. split.
  - intros Heq.
    destruct Hsame as (Ho & Hs & Hn); [lia |].
    destruct Hsame' as (Ho' & Hs' & Hn'); [lia |].
    split; [congruence |]. split; [congruence |].
    intros known Hk. eapply normalised_on_incl; [| apply Hn', Hn, Hk].
    intros x Hx. rewrite <- app_assoc in Hx.
    apply in_app_or in Hx as [Hx | Hx]; [| apply in_app_or in Hx as [Hx | Hx]].
    + apply in_or_app. right. apply in_or_app. left. exact Hx.
    + apply in_or_app. left. exact Hx.
    + apply in_or_app. right. apply in_or_app. right. exact Hx.
  - intros Hlt.
    destruct (Nat.eq_dec (dataArray c3) (dataArray c2)) as [Heq | Hne].
    + destruct Hsame' as (_ & _ & Hn'); [exact Heq |].
      assert (window_normalised c2) as Hw by (apply Hgrew; lia).
      unfold window_normalised, stored. rewrite Hd'.
      eapply normalised_on_incl; [| apply Hn', Hw].
      intros x Hx. apply in_or_app. right. exact Hx.
    + apply Hgrew'. lia.
Qed.

Lemma transformElement_post depth v c e c' :
  transformElement depth v c = Return e c' -> transformed c (refs [e]) c'.
Proof.
  intros H. destruct v as [| | b | n | s | l]; simpl in H;
    try (injection H as <- <-; apply transformed_refl);
    try discriminate H.
  - (* a number *)
    apply bind_Return in H as (p & c1 & Hcall & H).
    apply bind_Return in H as (l & c2 & Halloc & H).
    injection Halloc as <- <-. injection H as <- <-.
    pose proof (calculatePercent_refreshes depth _ _ _ _ Hcall) as Hpost.
    simpl toNumber in Hpost.
    destruct (grows c n) eqn:Hg.
    + destruct Hpost as (Hk & Hlt & Hw & ->).
      pose proof Hk as (Hd & _).
      split; [exact Hd |]. split; [simpl; lia |].
      split; [simpl; lia |]. intros _.
      exact (alloc_normalised c1 _ (stored c1) Hw).
    + destruct Hpost as (-> & ->).
      split; [reflexivity |]. split; [simpl; lia |].
      split; [| simpl; lia]. intros _.
      split; [reflexivity |]. split; [reflexivity |].
      intros known Hknown.
      apply (alloc_new_normalised c _ known); [| exact Hknown].
      split; [exact Hg | reflexivity].
  - (* an object *)
    apply bind_Return in H as (o_ & c0 & Hread & H).
    unfold read in Hread.
    destruct (heap c !! l) as [o |] eqn:Ho; [| discriminate].
    injection Hread as <- <-.
    assert (l < length (heap c))%nat as Hlen
        by (eapply lookup_lt_Some; exact Ho).
    apply bind_Return in H as ([] & c1 & Hw1 & H).
    unfold write in Hw1. rewrite Ho in Hw1. injection Hw1 as <-.
    apply bind_Return in H as (p & c2 & Hcall & H).
    apply bind_Return in H as ([] & c3 & Hw2 & H).
    injection H as <- <-.
    unfold write in Hw2.
    destruct (heap c2 !! l) as [o2 |] eqn:Ho2; [| discriminate].
    injection Hw2 as <-.
    set (y := set_defValue (value o) o) in *.
    assert (heap (set_heap (<[l := y]> (heap c)) c) !! l = Some y) as Hy
        by (simpl; apply list_lookup_insert_eq; exact Hlen).
    pose proof (calculatePercent_refreshes depth _ _ _ _ Hcall) as Hpost.
    destruct (grows _ (toNumber (value o))) eqn:Hg.
    + destruct Hpost as (Hk & Hlt & Hw & ->).
      pose proof Hk as (Hd & _ & _ & _ & _ & _ & Hh).
      simpl in Hlt, Hd.
      split; [exact Hd |]. split; [simpl; lia |].
      split; [simpl; lia |]. intros _.
      destruct (in_dec Nat.eq_dec l (stored c2)) as [Hin | Hout].
      * destruct (Hw l Hin) as (o2' & Ho2' & Hn2).
        rewrite (lookup_same _ _ _ _ Ho2 Ho2') in *. clear Ho2'.
        destruct (Hh l y Hy) as (o3 & Ho3 & Hdef & _).
        rewrite (lookup_same _ _ _ _ Ho2 Ho3) in *. clear Ho3.
        pose proof (normalised_after_growth _ c2 _ o2 Hg Hk
                      (f_equal toNumber Hdef) Hn2) as Hv.
        replace (set_value _ o2) with o2
          by (destruct o2; simpl in *; rewrite Hv; reflexivity).
        rewrite (heap_insert_same _ _ _ Ho2), set_heap_same. exact Hw.
      * exact (write_elsewhere_normalised c2 l _ (stored c2) Hout Hw).
    + destruct Hpost as (-> & ->).
      rewrite (lookup_same _ _ _ _ Hy Ho2) in *.
      split; [reflexivity |]. split; [simpl; lia |].
      split; [| simpl; lia]. intros _.
      split; [reflexivity |]. split; [reflexivity |].
      intros known Hknown. simpl. rewrite list_insert_insert_eq.
      apply (write_normalised c l _ known Hlen); [| exact Hknown].
      split; [exact Hg | reflexivity].
Qed.

Lemma transformArray_post depth vs : forall c b c',
  transformArray depth vs c = Return b c' -> transformed c (batch_refs b) c'.
Proof.
  unfold transformArray.
  assert (forall c es c',
             mapM (transformElement depth) vs c = Return es c' ->
             transformed c (refs es) c') as Hmap.
  { induction vs as [| v vs IH]; intros c es c' H.
    - injection H as <- <-. apply transformed_refl.
    - simpl in H. apply bind_Return in H as (e & c1 & He & H).
      apply bind_Return in H as (es1 & c2 & Hrest & H).
      injection H as <- <-.
      apply transformElement_post in He. apply IH in Hrest.
      replace (refs (e :: es1)) with (refs [e] ++ refs es1)
        by (destruct e; reflexivity).
      eapply transformed_trans; eassumption. }
  intros c b c' H. apply bind_Return in H as (es & c1 & Hes & H).
  injection H as <- <-. apply Hmap. exact Hes.
Qed.

Lemma transformChartDataToPercent_post depth v c b c' :
  transformChartDataToPercent depth v c = Return b c' ->
  transformed c (batch_refs b) c'.
Proof.
  intros H. destruct v as [[| | bo | n | s | l] | vs]; simpl in H;
    try (injection H as <- <-; apply transformed_refl);
    try discriminate H.
  - apply bind_Return in H as (l & c1 & Halloc & H).
    injection Halloc as <- <-.
    apply transformArray_post in H.
    change (batch_refs b) with ([] ++ batch_refs b).
    eapply transformed_trans; [| exact H].
    split; [reflexivity |]. split; [simpl; lia |]. split; [| simpl; lia].
    intros _. split; [reflexivity |]. split; [reflexivity |].
    intros known Hknown. apply alloc_normalised. exact Hknown.
  - apply bind_Return in H as (o & c1 & Hread & H).
    unfold read in Hread. destruct (heap c !! l); [| discriminate].
    injection Hread as <- <-.
    destruct (toBoolean (value s)).
    + apply transformArray_post in H. exact H.
    + injection H as <- <-. apply transformed_refl.
  - apply transformArray_post in H. exact H.
Qed.

Lemma stored_push b c : stored (push b c) = stored c ++ batch_refs b.
Proof.
  unfold stored, push. simpl. rewrite map_app, concat_app. simpl.
  rewrite app_nil_r. reflexivity.
Qed.

Lemma stored_shift c : incl (stored (shift c)) (stored c).
Proof.
  unfold stored, shift. simpl. destruct (data c) as [| b d]; simpl.
  - intros x Hx. exact Hx.
  - intros x Hx. apply in_or_app. right. exact Hx.
Qed.

Lemma addChartData_window_normalised depth v c c' :
  window_normalised c -> addChartData depth v c = Return tt c' ->
  window_normalised c'.
Proof.
  intros Hw H. unfold addChartData in H.
  apply bind_Return in H as (receiver & c0 & Hrec & H).
  injection Hrec as <- <-.
  apply bind_Return in H as (b & c1 & Ht & H).
  apply transformChartDataToPercent_post in Ht
    as (Hd & Ha & Hsame & Hgrew).
  apply bind_Return in H as (c1' & c1'' & Hget & H). injection Hget as <- <-.
  apply bind_Return in H as ([] & c2 & Hpush & H).
  apply bind_Return in H as (c2' & c2'' & Hget & H). injection Hget as <- <-.
  assert (window_normalised c2) as Hw2.
  { destruct (Nat.eqb_spec (dataArray c1) (dataArray c)) as [Heq | Hne].
    - injection Hpush as <-.
      destruct (Hsame Heq) as (_ & _ & Hn).
      assert (stored c1 = stored c) as Hs
          by (unfold stored; rewrite Hd; reflexivity).
      unfold window_normalised. rewrite stored_push, Hs.
      intros l Hl. destruct (Hn (stored c) Hw l) as (o & Ho & Hno).
      + apply in_app_or in Hl as [Hl | Hl]; apply in_or_app; tauto.
      + exists o. split; [exact Ho |].
        eapply normalised_range; [| | exact Hno]; reflexivity.
    - injection Hpush as <-. apply Hgrew. lia. }
  destruct (jgt _ _); injection H as <-; [| exact Hw2].
  intros l Hl. destruct (Hw2 l (stored_shift c2 l Hl)) as (o & Ho & Hno).
  exists o. split; [exact Ho |].
  eapply normalised_range; [| | exact Hno]; reflexivity.
Qed.

(** A number is taken in by every call with room for two frames, on a
    window whose samples do not grow the range themselves. *)
Lemma addChartData_number_returns depth c raw :
  grows c raw = false \/ settled (grown_range raw c) ->
  exists c', addChartData (S (S depth)) (Single (VNumber raw)) c = Return tt c'.
Proof.
  intros H.
  set (l := length (heap c)).
  set (c1 := set_heap (<[l := Sample (Number raw) (Number raw) None]>
                         (heap c ++ [Sample (Number raw) Undefined None])) c).
  assert (heap c1 !! l = Some (Sample (Number raw) (Number raw) None)) as Hl.
  { subst c1. cbn [heap set_heap]. apply list_lookup_insert_eq.
    rewrite length_app. simpl. lia. }
  assert (exists p c2,
             calculatePercent (S (S depth)) (Number raw) c1 = Return p c2 /\
             is_Some (heap c2 !! l)) as (p & c2 & Hcall & [o2 Ho2]).
  { destruct (grows c raw) eqn:Hg.
    - destruct H as [H | H]; [discriminate H |].
      destruct (calculatePercent_grows depth c1 raw) as (c2 & Hc & Hrest).
      + exact Hg.
      + apply (settled_agrees (grown_range raw c)); try reflexivity; [| exact H].
        intros l' o' Hl'. cbn [heap grown_range set_settings set_options] in *.
        subst c1. cbn [heap set_heap].
        assert (l' < l)%nat by (eapply lookup_lt_Some; exact Hl').
        rewrite list_lookup_insert_ne by lia.
        rewrite lookup_app_l by lia. exact Hl'.
      + destruct Hrest as (_ & _ & _ & _ & _ & Hh & _).
        destruct (Hh l _ Hl) as (o2 & Ho2 & _).
        exists (spec_percent c2 raw), c2. split; [exact Hc | eauto].
    - exists (spec_percent c1 (spec_clamp c1 raw)), c1.
      split; [apply (calculatePercent_settled (S depth)); exact Hg | eauto]. }
  apply (addChartData_returns _ _ _ (BArray [ERef l])
           (set_heap (<[l := set_value (Number p) o2]> (heap c2)) c2)).
  cbn [transformChartDataToPercent]. unfold bind at 1, alloc at 1.
  unfold transformArray. cbn [mapM transformElement].
  unfold bind at 1. unfold bind at 1. unfold bind at 1.
  unfold read at 1. cbn [heap set_heap]. fold l.
  rewrite list_lookup_middle by reflexivity.
  unfold bind at 1. unfold write at 1. cbn [heap set_heap].
  rewrite list_lookup_middle by reflexivity.
  unfold bind at 1. cbn [value set_defValue defValue id].
  change (set_heap _ (set_heap _ c)) with c1.
  rewrite Hcall.
  unfold bind at 1. unfold write at 1. fold l.
  match goal with
  | |- context [match ?t with Some _ => _ | None => _ end] =>
      destruct t eqn:E
  end.
  - pose proof (eq_trans (eq_sym E) Ho2) as Es. injection Es as ->.
    reflexivity.
  - pose proof (eq_trans (eq_sym E) Ho2) as Hno. discriminate Hno.
Qed.

Lemma empty_window_up_to_date c : data c = [] -> up_to_date c.
Proof. intros H l Hl. unfold stored in Hl. rewrite H in Hl. destruct Hl. Qed.

(** Calls that return keep the window up to date.  When every sample
    stored in the window satisfies value = calculatePercent(defValue) under
    the range in effect, the same holds after a call of addChartData that
    returns, under the range in effect then, whatever the input and
    whether or not the call grew the range, partway through the batch or
    not.  A call on a number returns, given room for two frames, when the
    number does not grow the range or no stored [defValue] lies above the
    new maximum. *)
Theorem addChartData_up_to_date depth v c :
  up_to_date c ->
  (forall c', addChartData depth v c = Return tt c' -> up_to_date c') /\
  (forall raw,
      grows c raw = false \/ settled (grown_range raw c) ->
      exists c',
        addChartData (S (S depth)) (Single (VNumber raw)) c = Return tt c' /\
        up_to_date c').
Proof.
  intros Hup. split.
  - intros c' H. revert Hup H. rewrite <- !window_normalised_up_to_date.
    apply addChartData_window_normalised.
  - intros raw H.
    destruct (addChartData_number_returns depth c raw H) as (c' & Hc).
    exists c'. split; [exact Hc |].
    revert Hup Hc. rewrite <- !window_normalised_up_to_date.
    apply addChartData_window_normalised.
Qed.

Lemma addChartData_up_to_date_witness :
  up_to_date chart_with_10 /\
  (exists c',
      addChartData 2 (Single (VNumber (of_Z 200))) chart_with_10 =
        Return tt c' /\
      up_to_date c') /\
  up_to_date (after (addChartData 2
                       (Array [VNumber (of_Z 20); VNumber (of_Z 200)])
                       chart_with_10)).
Proof.
  assert (up_to_date chart_with_10) as H10.
  { apply (proj1 (addChartData_up_to_date 1 (Single (VNumber (of_Z 10)))
                    (growing_chart [])
                    (empty_window_up_to_date (growing_chart []) eq_refl))).
    vm_compute. reflexivity. }
  assert (settled (grown_range (of_Z 200) chart_with_10)) as Hs.
  { constructor; [| constructor].
    exists [ERef 0%nat]. split; [reflexivity |].
    constructor; [| constructor].
    eexists _, _. split; [reflexivity |]. split; reflexivity. }
  split; [exact H10 |]. split.
  - exact (proj2 (addChartData_up_to_date 0
                    (Single (VNumber (of_Z 200))) chart_with_10 H10)
                 (of_Z 200) (or_intror Hs)).
  - apply (proj1 (addChartData_up_to_date 2
                    (Array [VNumber (of_Z 20); VNumber (of_Z 200)])
                    chart_with_10 H10)).
    vm_compute. reflexivity.
Defined.

(** ** A growth that does not end *)

Lemma bind_Throw {A B} (m : M A) (k : A -> M B) c e c' :
  m c = Throw e c' -> bind m k c = Throw e c'.
Proof. unfold bind. intros ->. reflexivity. Qed.

Lemma runaway_grown c l d raw :
  runaway c l d -> runaway (grown_range raw c) l d.
Proof. intros H. exact H. Qed.

Lemma grown_range_twice raw c :
  grown_range raw (grown_range raw c) = grown_range raw c.
Proof. destruct c as [d a o s h l]. destruct o, s. reflexivity. Qed.

(** The first sample of the window stops every recalculation whose callee
    throws on it. *)
Lemma recalculatePercents_first_throws call c l d e c' :
  runaway c l d ->
  call (Number (Fin d)) c = Throw e c' ->
  recalculatePercents call c = Throw e c'.
Proof.
  intros ((es & bs & Hd) & (o & Ho & Hdef) & _) Hcall.
  unfold recalculatePercents.
  unfold bind at 1, get at 1. rewrite Hd. cbn [mapM].
  apply bind_Throw. apply bind_Throw. unfold recalculateBatch.
  apply bind_Throw. cbn [mapM]. apply bind_Throw.
  unfold recalculateSample. unfold bind at 1, read at 1. rewrite Ho.
  apply bind_Throw. rewrite Hdef. exact Hcall.
Qed.

(** Normalising the first sample of a runaway window, once it lies above
    max, overflows the stack whatever room the stack has: every growth
    leaves max below the sample.  The range is left as the growth on the
    sample set it, and no sample has been written. *)
Lemma calculatePercent_runaway depth : forall c l d,
  runaway c l d -> jgt (Fin d) (maxOf c) = true ->
  calculatePercent (S depth) (Number (Fin d)) c =
  Throw RangeError (grown_range (Fin d) c).
Proof.
  induction depth as [| depth IH]; intros c l d Hrun Hgt;
    pose proof Hrun as (_ & _ & Hself & Hcalc & Hlow);
    assert (grows c (Fin d) = true) as Hg
        by (unfold grows; rewrite Hlow, Hgt, Hcalc; reflexivity);
    rewrite calculatePercent_unfold, (filterValue_grows _ _ _ Hg).
  - rewrite (bind_Throw _ _ _ _ _
               (recalculatePercents_first_throws (calculatePercent 0)
                  (grown_range (Fin d) c) l d RangeError _
                  (runaway_grown c l d _ Hrun) eq_refl)).
    reflexivity.
  - assert (calculatePercent (S depth) (Number (Fin d))
                             (grown_range (Fin d) c) =
            Throw RangeError (grown_range (Fin d) c)) as Hcall.
    { rewrite (IH _ l d); [| apply runaway_grown; exact Hrun | exact Hself].
      rewrite grown_range_twice. reflexivity. }
    rewrite (bind_Throw _ _ _ _ _
               (recalculatePercents_first_throws _ _ l d RangeError _
                  (runaway_grown c l d _ Hrun) Hcall)).
    reflexivity.
Qed.

Lemma runaway_heap c c' l d :
  data c' = data c -> options c' = options c ->
  (forall o, heap c !! l = Some o -> heap c' !! l = Some o) ->
  runaway c l d -> runaway c' l d.
Proof.
  intros Hd Ho Hh (Hdata & (o & Hl & Hdef) & Hself & Hcalc & Hlow).
  unfold runaway, minOf. rewrite Hd, Ho.
  split; [exact Hdata |]. split; [exists o; auto |]. auto.
Qed.

(** A number that grows the range to a maximum below the first sample. *)
Lemma calculatePercent_number_runaway depth c raw l d :
  grows c raw = true -> runaway c l d ->
  jgt (Fin d) (maxOf (grown_range raw c)) = true ->
  calculatePercent (S (S depth)) (Number raw) c =
  Throw RangeError (grown_range (Fin d) (grown_range raw c)).
Proof.
  intros Hg Hrun Hgt.
  rewrite calculatePercent_unfold, (filterValue_grows _ _ _ Hg).
  rewrite (bind_Throw _ _ _ _ _
             (recalculatePercents_first_throws _ _ l d RangeError _
                (runaway_grown c l d raw Hrun)
                (calculatePercent_runaway depth _ l d
                   (runaway_grown c l d raw Hrun) Hgt))).
  reflexivity.
Qed.

(** With less room the call overflows as well. *)
Lemma calculatePercent_number_overflows depth c raw l d :
  grows c raw = true -> runaway c l d ->
  jgt (Fin d) (maxOf (grown_range raw c)) = true ->
  exists c', calculatePercent depth (Number raw) c = Throw RangeError c'.
Proof.
  intros Hg Hrun Hgt. destruct depth as [| [| depth]].
  - eexists. reflexivity.
  - eexists. rewrite calculatePercent_unfold, (filterValue_grows _ _ _ Hg).
    rewrite (bind_Throw _ _ _ _ _
               (recalculatePercents_first_throws (calculatePercent 0)
                  (grown_range raw c) l d RangeError _
                  (runaway_grown c l d raw Hrun) eq_refl)).
    reflexivity.
  - eexists. apply (calculatePercent_number_runaway depth c raw l d);
      assumption.
Qed.

(** The chart once addChartData(raw) has created the object for [raw] and
    copied [value] to [defValue]. *)
Lemma addChartData_number_throws depth c raw e c' :
  calculatePercent depth (Number raw)
    (set_heap (<[length (heap c) := Sample (Number raw) (Number raw) None]>
                 (heap c ++ [Sample (Number raw) Undefined None])) c) =
    Throw e c' ->
  addChartData depth (Single (VNumber raw)) c = Throw e c'.
Proof.
  intros Hcall. unfold addChartData.
  unfold bind at 1. cbn [get bind ret].
  apply bind_Throw. cbn [transformChartDataToPercent].
  unfold bind at 1, alloc at 1. unfold transformArray.
  apply bind_Throw. cbn [mapM]. apply bind_Throw.
  cbn [transformElement]. unfold bind at 1, read at 1.
  cbn [heap set_heap].
  rewrite list_lookup_middle by reflexivity.
  unfold bind at 1, write at 1. cbn [heap set_heap].
  rewrite list_lookup_middle by reflexivity.
  cbn [value set_defValue defValue id].
  apply bind_Throw. exact Hcall.
Qed.

Lemma runaway_new_object c l d x :
  runaway c l d ->
  runaway (set_heap (<[length (heap c) := x]>
                       (heap c ++ [Sample (value x) Undefined None])) c) l d.
Proof.
  intros Hrun. apply (runaway_heap c); try reflexivity; [| exact Hrun].
  intros o Ho. cbn [heap set_heap].
  assert (l < length (heap c))%nat by (eapply lookup_lt_Some; exact Ho).
  rewrite list_lookup_insert_ne by lia.
  rewrite lookup_app_l by lia. exact Ho.
Qed.

Lemma minus_10_6_double : to_double (-106 # 10) = Fin minus_10_6.
Proof. vm_compute. reflexivity. Qed.

(** C4 fails on the code: a call of addChartData that throws after
    filterValue has assigned the new maxValue leaves the stored samples
    with the [value]s of the old range, and the calls that follow and
    return keep them so.

    With the range [0, 100] growing: after addChartData('x') and
    addChartData(10), addChartData(200) sets maxValue to 220 and throws a
    TypeError in recalculatePercents, on the [undefined] batch, before any
    sample is recomputed; after addChartData(50) and addChartData(60) the
    stored 10 still has the [value] 10, where calculatePercent(10) is 5.

    With numbers only, on the range [-100, -10.5] growing: after
    addChartData(-10.6), addChartData(-10) overflows the stack whatever
    room it has and leaves maxValue below the stored -10.6; after
    addChartData(-50) the stored -10.6 still has the [value] 100 of the old
    range, and calculatePercent of its [defValue] does not return. *)
Theorem addChartData_throw_leaves_stale :
  (exists c1 c2 c3,
      addAll 2 [Single (VString "x"); Single (VNumber (of_Z 10))]
             (growing_chart []) = Return tt c1 /\
      addChartData 2 (Single (VNumber (of_Z 200))) c1 = Throw TypeError c2 /\
      addAll 2 [Single (VNumber (of_Z 50)); Single (VNumber (of_Z 60))] c2 =
        Return tt c3 /\
      maxOf c3 = of_Z 220 /\
      In 0%nat (stored c3) /\
      heap c3 !! 0%nat =
        Some (Sample (Number (of_Z 10)) (Number (of_Z 10)) None) /\
      calculatePercent 1 (Number (of_Z 10)) c3 = Return (of_Z 5) c3 /\
      ~ up_to_date c3) /\
  (exists c2 c3,
      (forall depth,
          addChartData (S (S depth)) (Single (VNumber (of_Z (-10))))
                       chart_below_zero = Throw RangeError c2) /\
      addChartData 2 (Single (VNumber (of_Z (-50)))) c2 = Return tt c3 /\
      In 0%nat (stored c3) /\
      heap c3 !! 0%nat =
        Some (Sample (Number (of_Z 100)) (Number (Fin minus_10_6)) None) /\
      jgt (Fin minus_10_6) (maxOf c3) = true /\
      ~ up_to_date c3).
Proof.
  split.
  - eexists _, _, _.
    split; [vm_compute; reflexivity |].
    split; [vm_compute; reflexivity |].
    split; [vm_compute; reflexivity |].
    split; [vm_compute; reflexivity |].
    split; [vm_compute; left; reflexivity |].
    split; [vm_compute; reflexivity |].
    split; [vm_compute; reflexivity |].
    intros Hup. destruct (Hup 0%nat) as (o & p & Ho & Hcall & Hv).
    { vm_compute. left. reflexivity. }
    vm_compute in Ho. injection Ho as <-.
    specialize (Hcall 0%nat). vm_compute in Hcall. injection Hcall as <-.
    discriminate Hv.
  - assert (runaway chart_below_zero 0%nat minus_10_6) as Hrun.
    { split; [exists [], []; vm_compute; reflexivity |].
      split; [exists (Sample (Number (of_Z 100)) (Number (Fin minus_10_6))
                             None);
              split; [vm_compute; reflexivity | reflexivity] |].
      split; [vm_compute; reflexivity |].
      split; vm_compute; reflexivity. }
    set (x := Sample (Number (of_Z (-10))) (Number (of_Z (-10))) None).
    set (c1 := set_heap (<[length (heap chart_below_zero) := x]>
                           (heap chart_below_zero ++
                            [Sample (value x) Undefined None]))
                        chart_below_zero).
    exists (grown_range (Fin minus_10_6) (grown_range (of_Z (-10)) c1)).
    eexists.
    split.
    { intros depth. apply addChartData_number_throws.
      apply (calculatePercent_number_runaway depth c1 (of_Z (-10)) 0%nat
               minus_10_6).
      - vm_compute. reflexivity.
      - apply runaway_new_object. exact Hrun.
      - vm_compute. reflexivity. }
    split; [vm_compute; reflexivity |].
    split; [vm_compute; left; reflexivity |].
    split; [vm_compute; reflexivity |].
    split; [vm_compute; reflexivity |].
    intros Hup. destruct (Hup 0%nat) as (o & p & Ho & Hcall & Hv).
    { vm_compute. left. reflexivity. }
    vm_compute in Ho. injection Ho as <-.
    specialize (Hcall 0%nat). vm_compute in Hcall. discriminate Hcall.
Qed.

(** With calcMaxValue off, normalising a batch changes objects only. *)
Lemma transformElement_fixed depth v c e c' :
  Options.calcMaxValue (options c) = false ->
  transformElement depth v c = Return e c' ->
  c' = set_heap (heap c') c.
Proof.
  intros Hoff H. destruct v as [| | b | n | s | l]; simpl in H;
    try (injection H as <- <-; symmetry; apply set_heap_same);
    try discriminate H.
  - apply bind_Return in H as (p & c1 & Hcall & H).
    apply bind_Return in H as (l & c2 & Halloc & H).
    injection Halloc as <- <-. injection H as <- <-.
    apply calculatePercent_refreshes in Hcall.
    rewrite grows_off in Hcall by exact Hoff. destruct Hcall as (-> & _).
    reflexivity.
  - apply bind_Return in H as (o_ & c0 & Hread & H).
    unfold read in Hread.
    destruct (heap c !! l) as [o |] eqn:Ho; [| discriminate].
    injection Hread as <- <-.
    apply bind_Return in H as ([] & c1 & Hw1 & H).
    unfold write in Hw1. rewrite Ho in Hw1. injection Hw1 as <-.
    apply bind_Return in H as (p & c2 & Hcall & H).
    apply bind_Return in H as ([] & c3 & Hw2 & H).
    injection H as <- <-.
    apply calculatePercent_refreshes in Hcall.
    rewrite grows_off in Hcall by exact Hoff. destruct Hcall as (-> & _).
    unfold write in Hw2. cbn [heap set_heap] in Hw2.
    rewrite list_lookup_insert_eq in Hw2
      by (eapply lookup_lt_Some; exact Ho).
    injection Hw2 as <-. reflexivity.
Qed.

Lemma transformArray_fixed depth vs : forall c b c',
  Options.calcMaxValue (options c) = false ->
  transformArray depth vs c = Return b c' ->
  c' = set_heap (heap c') c.
Proof.
  unfold transformArray.
  assert (forall c es c',
             Options.calcMaxValue (options c) = false ->
             mapM (transformElement depth) vs c = Return es c' ->
             c' = set_heap (heap c') c) as Hmap.
  { induction vs as [| v vs IH]; intros c es c' Hoff H.
    - injection H as <- <-. symmetry. apply set_heap_same.
    - simpl in H. apply bind_Return in H as (e & c1 & He & H).
      apply bind_Return in H as (es1 & c2 & Hrest & H).
      injection H as <- <-.
      apply transformElement_fixed in He; [| exact Hoff].
      apply IH in Hrest; [| rewrite He; exact Hoff].
      rewrite Hrest, He. reflexivity. }
  intros c b c' Hoff H. apply bind_Return in H as (es & c1 & Hes & H).
  injection H as <- <-. apply (Hmap c es c1 Hoff Hes).
Qed.

Lemma transformChartDataToPercent_fixed depth v c b c' :
  Options.calcMaxValue (options c) = false ->
  transformChartDataToPercent depth v c = Return b c' ->
  c' = set_heap (heap c') c.
Proof.
  intros Hoff H. destruct v as [[| | bo | n | s | l] | vs]; simpl in H;
    try (injection H as <- <-; symmetry; apply set_heap_same);
    try discriminate H.
  - apply bind_Return in H as (l & c1 & Halloc & H).
    injection Halloc as <- <-.
    apply transformArray_fixed in H; [| exact Hoff].
    rewrite H. reflexivity.
  - apply bind_Return in H as (o & c1 & Hread & H).
    unfold read in Hread. destruct (heap c !! l); [| discriminate].
    injection Hread as <- <-.
    destruct (toBoolean (value s)).
    + apply transformArray_fixed in H; [exact H | exact Hoff].
    + injection H as <- <-. symmetry. apply set_heap_same.
  - apply transformArray_fixed in H; [exact H | exact Hoff].
Qed.

(** With calcMaxValue off, a call that returns has appended one batch and,
    when the length then exceeded totalElement, dropped the oldest one. *)
Lemma addChartData_fixed_range depth v c c' (n : nat) :
  Options.calcMaxValue (options c) = false ->
  Options.totalElement (options c) = of_nat n ->
  (length (data c) <= n)%nat ->
  addChartData depth v c = Return tt c' ->
  options c' = options c /\
  length (data c') = Nat.min (S (length (data c))) n /\
  exists b, data c' = (if (n <? S (length (data c)))%nat
                       then tail (data c ++ [b]) else data c ++ [b]).
Proof.
  intros Hoff Hcap Hlen H.
  destruct (transformChartDataToPercent depth v c) as [b c1 | e c1] eqn:Ht.
  - pose proof (transformChartDataToPercent_fixed _ _ _ _ _ Hoff Ht) as E.
    rewrite (addChartData_no_growth depth v c b c1 Ht) in H
      by (rewrite E; reflexivity).
    injection H as <-.
    assert (data c1 = data c) as Hd by (rewrite E; reflexivity).
    assert (options c1 = options c) as Ho by (rewrite E; reflexivity).
    destruct (append_length b c1 n) as [Hl Hdata];
      [rewrite Ho; exact Hcap | rewrite Hd; exact Hlen |].
    rewrite Hd in Hl, Hdata.
    split; [| split; [exact Hl | exists b; exact Hdata]].
    unfold append. destruct (jgt _ _); simpl; exact Ho.
  - unfold addChartData in H. unfold bind at 1 in H. simpl in H.
    unfold bind at 1 in H. rewrite Ht in H. discriminate H.
Qed.

(** With calcMaxValue off, after [n] calls that return the window holds
    min(n, totalElement) batches. *)
Lemma addAll_fixed_range depth vs : forall c c' (n : nat),
  Options.calcMaxValue (options c) = false ->
  Options.totalElement (options c) = of_nat n ->
  (length (data c) <= n)%nat ->
  addAll depth vs c = Return tt c' ->
  length (data c') = Nat.min (length (data c) + length vs) n.
Proof.
  induction vs as [| v vs IH]; intros c c' n Hoff Hcap Hlen H.
  - injection H as <-. simpl. lia.
  - simpl in H. apply bind_Return in H as ([] & c1 & H1 & H).
    destruct (addChartData_fixed_range depth v c c1 n Hoff Hcap Hlen H1)
      as (Ho & Hl & _).
    rewrite (IH c1 c' n) by (rewrite ?Ho; assumption || lia).
    rewrite Hl. cbn [length]. lia.
Qed.

(** C3 fails on the code: on a chart that grows its range, the batch whose
    normalisation grows the range is pushed onto the array that
    recalculatePercents has just replaced as [this.data], and is lost.
    After the two calls addChartData(10), addChartData(200) on a chart of
    range [0, 100] with room for three batches, the window holds one batch,
    the first, not two.  With calcMaxValue off the same two calls leave two
    batches. *)
Theorem addChartData_growing_call_loses_batch :
  (exists c',
      addAll 2 [Single (VNumber (of_Z 10)); Single (VNumber (of_Z 200))]
             (growing_chart []) = Return tt c' /\
      data c' = [BArray [ERef 0%nat]] /\
      length (data c') = 1%nat /\
      heap c' !! 1%nat =
        Some (Sample (Number (of_Z 91)) (Number (of_Z 200)) None)) /\
  (exists c',
      addAll 2 [Single (VNumber (of_Z 10)); Single (VNumber (of_Z 200))]
             (example_chart 0 100 false 3 []) = Return tt c' /\
      data c' = [BArray [ERef 0%nat]; BArray [ERef 1%nat]]).
Proof.
  split.
  - eexists. split; [vm_compute; reflexivity |].
    split; [reflexivity |]. split; reflexivity.
  - eexists. split; [vm_compute; reflexivity |]. reflexivity.
Qed.

(** ** The two hosts *)

Lemma shift_in_perm {A} (comparefn : A -> A -> jsnum) (x : A) (l : list A) :
  Permutation (shift_in comparefn x l) (x :: l).
Proof.
  induction l as [| tmp rest IH]; cbn [shift_in]; [reflexivity |].
  destruct (jgt (comparefn tmp x) (of_Z 0)); [| reflexivity].
  rewrite IH. apply perm_swap.
Qed.

Lemma linear_insertion_sort_perm {A} (comparefn : A -> A -> jsnum)
      (l : list A) :
  Permutation (linear_insertion_sort comparefn l) l.
Proof.
  unfold linear_insertion_sort. rewrite <- Permutation_rev.
  assert (forall acc,
             Permutation
               (fold_left (fun sorted_rev element =>
                             shift_in comparefn element sorted_rev) l acc)
               (acc ++ l)) as H.
  { induction l as [| x l IH]; intros acc; simpl.
    - rewrite app_nil_r. reflexivity.
    - rewrite IH, shift_in_perm. apply Permutation_middle. }
  apply (H []).
Qed.

Lemma insert_at_perm {A} (comparefn : A -> A -> jsnum) (x : A) (l : list A) :
  Permutation (insert_at comparefn x l) (x :: l).
Proof.
  unfold insert_at. rewrite <- Permutation_middle, take_drop. reflexivity.
Qed.

Lemma binary_insertion_sort_perm {A} (comparefn : A -> A -> jsnum)
      (l : list A) :
  Permutation (binary_insertion_sort comparefn l) l.
Proof.
  unfold binary_insertion_sort.
  assert (forall acc,
             Permutation
               (fold_left (fun sorted pivot => insert_at comparefn pivot sorted)
                          l acc)
               (acc ++ l)) as H.
  { induction l as [| x l IH]; intros acc; simpl.
    - rewrite app_nil_r. reflexivity.
    - rewrite IH, insert_at_perm. apply Permutation_middle. }
  apply (H []).
Qed.

Lemma linear_host_rearranges : rearranges linear_host.
Proof. intros A comparefn l. apply linear_insertion_sort_perm. Qed.

Lemma binary_host_rearranges : rearranges binary_host.
Proof. intros A comparefn l. apply binary_insertion_sort_perm. Qed.

(** ** A frame in bar mode *)

Lemma add_calls_nil c : add_calls [] c = c.
Proof. destruct c. unfold add_calls. simpl. rewrite app_nil_r. reflexivity. Qed.

Lemma forEach_drawBarSample segmentKey es : forall iterKey c,
  Forall (drawable_elem (heap c)) es ->
  forEach_from iterKey (drawBarSample segmentKey) es c =
  Return tt (add_calls (bar_calls (heap c) segmentKey iterKey es) c).
Proof.
  induction es as [| e es IH]; intros iterKey c H.
  - simpl. rewrite add_calls_nil. reflexivity.
  - inversion H as [| ? ? He Hes]; subst.
    destruct He as (l & o & -> & Ho).
    cbn [forEach_from bar_calls drawn]. rewrite Ho.
    unfold bind at 1. unfold drawBarSample, bind, read, modify. rewrite Ho.
    rewrite IH by exact Hes.
    destruct c; unfold add_calls, add_call; simpl.
    rewrite <- !app_assoc. reflexivity.
Qed.

Lemma insert_middle (pre : list batch) b b' post :
  <[length pre := b']> (pre ++ b :: post) = pre ++ b' :: post.
Proof. induction pre as [| x pre IH]; simpl; [| rewrite IH]; reflexivity. Qed.

Lemma refs_drawable h es :
  Forall (drawable_elem h) es -> map ERef (refs es) = es /\ undefineds es = [].
Proof.
  induction 1 as [| e es (l & o & -> & Ho) _ [IH1 IH2]]; [split; reflexivity |].
  split.
  - change (refs (ERef l :: es)) with (l :: refs es). simpl. rewrite IH1.
    reflexivity.
  - unfold undefineds in *. rewrite filter_cons_False by discriminate.
    exact IH2.
Qed.

Section Frame.
Context {host : ArraySort}.
Hypothesis host_rearranges : rearranges host.

Lemma sort_drawable h es :
  Forall (drawable_elem h) es ->
  Forall (drawable_elem h) (sort (sortDesc h) es) /\
  Permutation (sort (sortDesc h) es) es.
Proof.
  intros H. destruct (refs_drawable h es H) as [Hrefs Hund].
  assert (Permutation (sort (sortDesc h) es) es) as Hperm.
  { unfold sort. rewrite Hund, app_nil_r. rewrite <- Hrefs at 2.
    apply Permutation_map. apply host_rearranges. }
  split; [| exact Hperm].
  rewrite Forall_forall in *. intros x Hx. apply H.
  rewrite <- Hperm. exact Hx.
Qed.

Lemma drawBar_drawable b (pre post : list batch) c :
  data c = pre ++ b :: post ->
  drawable_batch (heap c) b ->
  drawBar b (length pre) c =
  Return tt (add_calls (bar_calls (heap c) (length pre) 0
                                  (elems (sorted_batch (heap c) b)))
                       (set_data (pre ++ sorted_batch (heap c) b :: post) c)).
Proof.
  intros Hd (es & -> & Hes). unfold drawBar.
  unfold bind at 1, get at 1. unfold bind at 1, modify at 1.
  rewrite Hd, insert_middle. unfold forEach.
  rewrite forEach_drawBarSample by (apply sort_drawable; exact Hes).
  reflexivity.
Qed.

Lemma forEach_drawBar bs : forall pre c,
  data c = pre ++ bs ->
  Forall (drawable_batch (heap c)) bs ->
  forEach_from (length pre) drawBar bs c =
  Return tt
    (add_calls (window_calls (heap c) (length pre)
                             (map (sorted_batch (heap c)) bs))
               (set_data (pre ++ map (sorted_batch (heap c)) bs) c)).
Proof.
  induction bs as [| b bs IH]; intros pre c Hd H.
  - simpl. rewrite add_calls_nil, app_nil_r, <- (app_nil_r pre), <- Hd.
    destruct c; reflexivity.
  - inversion H as [| ? ? Hb Hbs]; subst.
    cbn [forEach_from]. unfold bind at 1.
    rewrite (drawBar_drawable b pre bs c Hd Hb).
    set (b' := sorted_batch (heap c) b).
    set (c1 := add_calls _ _).
    assert (heap c1 = heap c) as Hh by reflexivity.
    replace (S (length pre)) with (length (pre ++ [b']))
      by (rewrite length_app; simpl; lia).
    rewrite (IH (pre ++ [b']) c1);
      [| subst c1; simpl; rewrite <- app_assoc; reflexivity
       | rewrite Hh; exact Hbs].
    rewrite Hh. subst c1. destruct c; unfold add_calls, set_data; simpl.
    rewrite <- !app_assoc. simpl.
    replace (length (pre ++ [b'])) with (S (length pre))
      by (rewrite length_app; simpl; lia).
    reflexivity.
Qed.

(** C6, as the code has it.  Rendering a frame in bar mode sorts every
    batch of the window in place: afterwards the window holds, batch by
    batch, the array [sort] left, a rearrangement of the batch it held
    before, and the bars were drawn batch by batch in the order the window
    holds from then on.  The samples, the range and the number and order
    of the batches are as before. *)
Theorem render_bar_sorts_window c :
  Options.type (options c) = bar -> drawable c ->
  exists c',
    render c = Return tt c' /\
    data c' = map (sorted_batch (heap c)) (data c) /\
    Forall2 (fun b b' => Permutation (elems b') (elems b)) (data c) (data c') /\
    calls c' = calls c ++ Stage_clearStage :: window_calls (heap c) 0 (data c') /\
    heap c' = heap c /\ options c' = options c /\ settings c' = settings c /\
    dataArray c' = dataArray c.
Proof.
  intros Ht Hdr. unfold render.
  unfold bind at 1, modify at 1. unfold bind at 1, get at 1.
  cbn [options add_call]. rewrite Ht.
  unfold renderBar, bind at 1, get at 1. unfold forEach.
  cbn [data add_call].
  pose proof (forEach_drawBar (data c) [] (add_call Stage_clearStage c)
                eq_refl Hdr) as Hloop.
  cbn [length app heap add_call] in Hloop. rewrite Hloop. clear Hloop.
  eexists. split; [reflexivity |]. cbn.
  split; [reflexivity |].
  split; [| split; [rewrite <- app_assoc; reflexivity | repeat split]].
  unfold drawable in Hdr. induction Hdr as [| b bs (es & -> & Hes) _ IH].
  - constructor.
  - simpl. constructor; [| exact IH].
    simpl. apply sort_drawable. exact Hes.
Qed.
End Frame.

Lemma render_bar_sorts_window_witness :
  rearranges linear_host /\
  Options.type (options chart_10_20) = bar /\
  drawable chart_10_20 /\
  exists c',
    @render linear_host chart_10_20 = Return tt c' /\
    data c' = map (@sorted_batch linear_host (heap chart_10_20))
                  (data chart_10_20).
Proof.
  assert (drawable chart_10_20) as Hd.
  { constructor; [| constructor].
    exists [ERef 0%nat; ERef 1%nat]. split; [reflexivity |].
    repeat constructor; eexists _, _; split; reflexivity. }
  split; [exact linear_host_rearranges |]. split; [reflexivity |].
  split; [exact Hd |].
  destruct (@render_bar_sorts_window linear_host linear_host_rearranges
              chart_10_20 eq_refl Hd) as (c' & Hr & Hdata & _).
  exists c'. split; [exact Hr | exact Hdata].
Defined.

(** C6 as stated fails: on a host whose [sort] puts the batch in
    descending order, the frame leaves the batch [10, 20] stored as
    [20, 10]. *)
Lemma render_bar_reorders_window :
  exists c',
    @render linear_host chart_10_20 = Return tt c' /\
    data chart_10_20 = [BArray [ERef 0%nat; ERef 1%nat]] /\
    data c' = [BArray [ERef 1%nat; ERef 0%nat]] /\
    data c' <> data chart_10_20 /\
    percents (calls c') = [Number (of_Z 20); Number (of_Z 10)].
Proof.
  eexists. split; [vm_compute; reflexivity |].
  split; [reflexivity |]. split; [reflexivity |].
  split; [intros H; discriminate H | reflexivity].
Qed.

(** ** The comparator *)

(** sortDesc returns the boolean [a.value < b.value]: 0 or 1 as a number,
    never a negative one. *)
Lemma sortDesc_not_negative h a b : jlt (sortDesc h a b) (of_Z 0) = false.
Proof.
  unfold sortDesc. destruct (h !! a) as [oa |], (h !! b) as [ob |];
    try reflexivity.
  destruct (jlt (toNumber (value oa)) (toNumber (value ob))); reflexivity.
Qed.

Lemma sortDesc_after h a b oa ob :
  h !! a = Some oa -> h !! b = Some ob ->
  jgt (sortDesc h a b) (of_Z 0) =
  jlt (toNumber (value oa)) (toNumber (value ob)).
Proof.
  intros Ha Hb. unfold sortDesc. rewrite Ha, Hb.
  destruct (jlt (toNumber (value oa)) (toNumber (value ob))); reflexivity.
Qed.

Lemma sortDesc_asymmetric h a b :
  jgt (sortDesc h a b) (of_Z 0) = true -> may_precede h b a.
Proof.
  unfold may_precede, sortDesc.
  destruct (h !! a) as [oa |], (h !! b) as [ob |]; try discriminate.
  destruct (jlt (toNumber (value oa)) (toNumber (value ob))) eqn:E;
    [| discriminate].
  intros _. rewrite (jlt_asymmetric _ _ E). reflexivity.
Qed.

Section NeverNegative.
Context {A : Type} (comparefn : A -> A -> jsnum).
Hypothesis not_negative : forall a b, jlt (comparefn a b) (of_Z 0) = false.

Lemma bisect_right steps pivot sorted : forall left right,
  (left <= right)%nat -> (right <= length sorted)%nat ->
  (right - left < steps)%nat ->
  bisect comparefn steps pivot sorted left right = right.
Proof.
  induction steps as [| steps IH]; intros left right Hlr Hr Hs; [lia |].
  cbn [bisect]. destruct (Nat.ltb_spec left right) as [Hlt | Hge]; [| lia].
  set (mid := (left + (right - left) / 2)%nat).
  assert (left <= mid /\ mid < right)%nat as [Hm1 Hm2].
  { subst mid. split; [lia |].
    assert ((right - left) / 2 < right - left)%nat
      by (apply Nat.div_lt; lia).
    lia. }
  destruct (lookup_lt_is_Some_2 sorted mid) as [x Hx]; [lia |].
  rewrite Hx, not_negative. apply IH; lia.
Qed.

Lemma insert_at_end pivot sorted :
  insert_at comparefn pivot sorted = sorted ++ [pivot].
Proof.
  unfold insert_at. rewrite bisect_right by lia.
  rewrite take_ge, drop_ge by lia. reflexivity.
Qed.

(** A comparator that never returns a negative number leaves the array as
    it is under binary insertion. *)
Lemma binary_insertion_sort_unchanged l :
  binary_insertion_sort comparefn l = l.
Proof.
  unfold binary_insertion_sort.
  assert (forall acc,
             fold_left (fun sorted pivot => insert_at comparefn pivot sorted)
                       l acc = acc ++ l) as H.
  { induction l as [| x l IH]; intros acc; simpl.
    - rewrite app_nil_r. reflexivity.
    - rewrite IH, insert_at_end, <- app_assoc. reflexivity. }
  apply (H []).
Qed.
End NeverNegative.

(** On the host that sorts by binary insertion, drawBar leaves every batch
    of objects in the order it was stored in, whatever the values. *)
Lemma sort_binary_host_unchanged h es :
  Forall (drawable_elem h) es -> @sort binary_host (sortDesc h) es = es.
Proof.
  intros H. destruct (refs_drawable h es H) as [Hrefs Hund].
  unfold sort. rewrite Hund, app_nil_r. simpl.
  rewrite binary_insertion_sort_unchanged by apply sortDesc_not_negative.
  exact Hrefs.
Qed.

Section Insertion.
Context {A : Type} (comparefn : A -> A -> jsnum).
Let after_ (a b : A) : Prop := jgt (comparefn a b) (of_Z 0) = true.
Let R (a b : A) : Prop := jgt (comparefn a b) (of_Z 0) = false.
Hypothesis asymmetric : forall a b, after_ a b -> R b a.

Lemma shift_in_HdRel x tmp rest :
  R x tmp -> HdRel (fun a b => R b a) tmp rest ->
  HdRel (fun a b => R b a) tmp (shift_in comparefn x rest).
Proof.
  intros Hx H. destruct rest as [| r rest]; cbn [shift_in].
  - constructor. exact Hx.
  - destruct (jgt (comparefn r x) (of_Z 0)).
    + constructor. apply HdRel_inv in H. exact H.
    + constructor. exact Hx.
Qed.

Lemma shift_in_Sorted x l :
  Sorted (fun a b => R b a) l ->
  Sorted (fun a b => R b a) (shift_in comparefn x l).
Proof.
  induction l as [| tmp rest IH]; intros H; cbn [shift_in].
  - constructor; constructor.
  - destruct (jgt (comparefn tmp x) (of_Z 0)) eqn:E.
    + apply Sorted_inv in H as [Hs Hh].
      constructor; [apply IH; exact Hs |].
      apply shift_in_HdRel; [apply asymmetric; exact E | exact Hh].
    + constructor; [exact H |]. constructor. exact E.
Qed.

Lemma Sorted_snoc (Q : A -> A -> Prop) l x :
  Sorted Q l -> (forall y, last l = Some y -> Q y x) -> Sorted Q (l ++ [x]).
Proof.
  induction l as [| a l IH]; intros Hs Hl; simpl.
  - constructor; constructor.
  - apply Sorted_inv in Hs as [Hs Hh]. constructor.
    + apply IH; [exact Hs |]. intros y Hy. apply Hl.
      destruct l; [discriminate Hy | exact Hy].
    + destruct l as [| b l]; simpl.
      * constructor. apply Hl. reflexivity.
      * constructor. apply HdRel_inv in Hh. exact Hh.
Qed.

Lemma Sorted_rev_flip l :
  Sorted (fun a b => R b a) l -> Sorted R (rev l).
Proof.
  induction l as [| a l IH]; intros H; simpl; [constructor |].
  apply Sorted_inv in H as [Hs Hh].
  apply Sorted_snoc; [apply IH; exact Hs |].
  intros y Hy. destruct l as [| b l]; [discriminate Hy |].
  apply HdRel_inv in Hh.
  simpl in Hy. rewrite last_snoc in Hy. injection Hy as <-. exact Hh.
Qed.

(** Neighbours in the result are in the comparator's order. *)
Lemma linear_insertion_sort_Sorted l :
  Sorted R (linear_insertion_sort comparefn l).
Proof.
  unfold linear_insertion_sort. apply Sorted_rev_flip.
  assert (forall acc,
             Sorted (fun a b => R b a) acc ->
             Sorted (fun a b => R b a)
                    (fold_left (fun sorted_rev element =>
                                  shift_in comparefn element sorted_rev)
                               l acc)) as H.
  { induction l as [| x l IH]; intros acc Hacc; simpl; [exact Hacc |].
    apply IH, shift_in_Sorted, Hacc. }
  apply H. constructor.
Qed.

Variable p : A -> bool.
Hypothesis p_ties : forall a b, p a = true -> p b = true -> R a b.

Lemma shift_in_filter x l :
  List.filter p (shift_in comparefn x l) = List.filter p (x :: l).
Proof.
  induction l as [| tmp rest IH]; cbn [shift_in]; [reflexivity |].
  destruct (jgt (comparefn tmp x) (of_Z 0)) eqn:E; [| reflexivity].
  cbn [List.filter] in *. rewrite IH.
  destruct (p x) eqn:Hx, (p tmp) eqn:Ht; try reflexivity.
  pose proof (p_ties tmp x Ht Hx) as Hno. unfold R in Hno. congruence.
Qed.

(** The elements of a class that the comparator does not order keep their
    relative order. *)
Lemma linear_insertion_sort_stable l :
  List.filter p (linear_insertion_sort comparefn l) = List.filter p l.
Proof.
  unfold linear_insertion_sort. rewrite List.filter_rev.
  assert (forall acc,
             List.filter p
               (fold_left (fun sorted_rev element =>
                             shift_in comparefn element sorted_rev) l acc) =
             rev (List.filter p l) ++ List.filter p acc) as H.
  { induction l as [| x l IH]; intros acc; simpl; [reflexivity |].
    rewrite IH, shift_in_filter. cbn [List.filter].
    destruct (p x); [| reflexivity].
    simpl. rewrite <- app_assoc. reflexivity. }
  rewrite H. simpl. rewrite app_nil_r. apply rev_involutive.
Qed.
End Insertion.

(** On the host that sorts by linear insertion the claim of C5 holds:
    neighbours in a sorted batch are never in ascending order of [value],
    and the objects holding one and the same [value] keep their relative
    order. *)
Lemma linear_host_descending_stable h ls :
  Sorted (may_precede h) (@host_sort linear_host loc (sortDesc h) ls) /\
  forall v, List.filter (has_value h v)
                        (@host_sort linear_host loc (sortDesc h) ls) =
            List.filter (has_value h v) ls.
Proof.
  split.
  - apply linear_insertion_sort_Sorted. apply sortDesc_asymmetric.
  - intros v. apply linear_insertion_sort_stable.
    intros a b Ha Hb. unfold has_value in Ha, Hb.
    destruct (h !! a) as [oa |] eqn:Ea; [| discriminate].
    destruct (h !! b) as [ob |] eqn:Eb; [| discriminate].
    apply field_eqb_eq in Ha, Hb.
    rewrite (sortDesc_after h a b oa ob Ea Eb), Ha, Hb.
    apply jlt_irreflexive.
Qed.

(** C5 fails on the code: sortDesc answers with a boolean, so it never
    tells [sort] that its first argument goes first.  On a host that sorts
    by binary insertion, the batch [10, 20] is drawn as 10, then 20:
    ascending.  (On the host that sorts by linear insertion it is drawn as
    20, then 10.) *)
Theorem render_bar_boolean_comparator :
  (exists c',
      @render binary_host chart_10_20 = Return tt c' /\
      percents (calls c') = [Number (of_Z 10); Number (of_Z 20)] /\
      data c' = data chart_10_20) /\
  (exists c',
      @render linear_host chart_10_20 = Return tt c' /\
      percents (calls c') = [Number (of_Z 20); Number (of_Z 10)]).
Proof.
  split.
  - eexists. split; [vm_compute; reflexivity |]. split; reflexivity.
  - eexists. split; [vm_compute; reflexivity |]. reflexivity.
Qed.

(** * Further properties *)

(** ** The normaliser on every input *)

Lemma percentZ_bounds mn mx a :
  (mn < mx)%Q -> (mn <= a)%Q -> (a <= mx)%Q ->
  1 <= percentZ mn mx a <= 100.
Proof.
  intros Hlt Hlo Hhi. apply percentZ_in_range; assumption.
Qed.

Lemma clampQ_bounds mn mx a :
  (mn < mx)%Q -> (mn <= clampQ mn mx a)%Q /\ (clampQ mn mx a <= mx)%Q.
Proof.
  intros Hlt. unfold clampQ.
  destruct (Qltb a mn) eqn:E1; [split; lra |].
  destruct (Qltb mx a) eqn:E2; [split; lra |].
  apply Qltb_ge in E1, E2. split; assumption.
Qed.

Lemma clampQ_mono mn mx a b :
  (mn < mx)%Q -> (a <= b)%Q -> (clampQ mn mx a <= clampQ mn mx b)%Q.
Proof.
  intros Hlt Hab. unfold clampQ.
  destruct (Qltb a mn) eqn:A1, (Qltb b mn) eqn:B1;
    rewrite ?Qltb_lt, ?Qltb_ge in *; try lra;
    destruct (Qltb mx a) eqn:A2, (Qltb mx b) eqn:B2;
    rewrite ?Qltb_lt, ?Qltb_ge in *; lra.
Qed.

(** On a configured chart that does not grow its range, a finite number is
    normalised to the integer percent of its clamp. *)
Lemma calculatePercent_fixed_finite depth c mn mx a :
  configured c mn mx -> Options.calcMaxValue (options c) = false ->
  calculatePercent (S depth) (Number (Fin a)) c =
  Return (of_Z (percentZ mn mx (clampQ mn mx a))) c.
Proof.
  intros Hc Hoff. pose proof Hc as (Hmin & Hmax & Hlt & _).
  rewrite calculatePercent_settled by (apply grows_off; exact Hoff).
  f_equal. cbn [toNumber].
  assert (spec_clamp c (Fin a) = Fin (clampQ mn mx a)) as ->.
  { unfold spec_clamp, clampQ, jgt. rewrite Hmin, Hmax. cbn [jlt].
    destruct (Qltb a mn); [reflexivity |].
    destruct (Qltb mx a); reflexivity. }
  apply (spec_percent_in_range c mn mx); [exact Hc | |];
    apply clampQ_bounds; exact Hlt.
Qed.

Lemma spec_percent_NaN c : spec_percent c NaN = of_Z 1.
Proof.
  unfold spec_percent. replace (jsub NaN (minOf c)) with NaN
    by (destruct (minOf c); reflexivity).
  replace (jdiv NaN (diffOf c)) with NaN by (destruct (diffOf c); reflexivity).
  reflexivity.
Qed.

(** The clamp of any number on a configured chart: NaN stays NaN, every
    other number lands in the range. *)
Lemma spec_clamp_configured c mn mx x :
  configured c mn mx ->
  (x = NaN /\ spec_clamp c x = NaN) \/
  (exists a, spec_clamp c x = Fin a /\ (mn <= a)%Q /\ (a <= mx)%Q).
Proof.
  intros (Hmin & Hmax & Hlt & _). unfold spec_clamp, jgt. rewrite Hmin, Hmax.
  destruct x as [q | | |]; cbn [jlt].
  - right. destruct (Qltb q mn) eqn:E1; [exists mn; split; [reflexivity | lra] |].
    destruct (Qltb mx q) eqn:E2; [exists mx; split; [reflexivity | lra] |].
    apply Qltb_ge in E1, E2. exists q. auto.
  - right. exists mx. split; [reflexivity | lra].
  - right. exists mn. split; [reflexivity | lra].
  - left. split; reflexivity.
Qed.

Lemma calculatePercent_settled_range depth c mn mx raw :
  configured c mn mx -> grows c (toNumber raw) = false ->
  exists p : Z,
    calculatePercent (S depth) raw c = Return (of_Z p) c /\ 1 <= p <= 100.
Proof.
  intros Hc Hg. pose proof Hc as (_ & _ & Hlt & _).
  rewrite calculatePercent_settled by exact Hg.
  destruct (spec_clamp_configured c mn mx (toNumber raw) Hc)
    as [[_ ->] | (a & -> & Hlo & Hhi)].
  - exists 1. rewrite spec_percent_NaN. split; [reflexivity | lia].
  - exists (percentZ mn mx a).
    rewrite (spec_percent_in_range c mn mx a Hc Hlo Hhi).
    split; [reflexivity | apply percentZ_bounds; assumption].
Qed.

(** X1.  On a chart configured with min < max, every call of
    calculatePercent that does not grow the range (calcMaxValue off, or an
    input not above max) returns an integer between 1 and 100 and leaves
    the chart as it was, whatever the input: a number, an infinity, NaN or
    [undefined]. *)
Theorem calculatePercent_between_1_and_100 depth c mn mx raw :
  configured c mn mx -> grows c (toNumber raw) = false ->
  exists p : Z,
    calculatePercent (S depth) raw c = Return (of_Z p) c /\ 1 <= p <= 100.
Proof. apply calculatePercent_settled_range. Qed.

Lemma calculatePercent_between_1_and_100_witness :
  configured (example_chart 0 100 false 3 []) 0 100 /\
  grows (example_chart 0 100 false 3 []) (toNumber (Number (of_Z 250))) =
    false /\
  exists p : Z,
    calculatePercent 1 (Number (of_Z 250)) (example_chart 0 100 false 3 []) =
      Return (of_Z p) (example_chart 0 100 false 3 []) /\
    1 <= p <= 100.
Proof.
  assert (configured (example_chart 0 100 false 3 []) 0 100) as Hc
    by (repeat split; reflexivity).
  split; [exact Hc |]. split; [reflexivity |].
  exact (calculatePercent_between_1_and_100 0 _ 0 100 (Number (of_Z 250))
           Hc eq_refl).
Defined.

Lemma percentZ_comp mn mx a b :
  (a == b)%Q -> percentZ mn mx a = percentZ mn mx b.
Proof.
  intros E. unfold percentZ, percent_of. cbn [jsub].
  rewrite (to_double_comp (a - mn) (b - mn)) by (rewrite E; reflexivity).
  reflexivity.
Qed.

(** X2.  With calcMaxValue off, everything at or below min is normalised
    to 1, -Infinity included, and so are NaN and [undefined]; everything
    at or above max is normalised to 100, +Infinity included, when the
    width max - min of the range is finite (the subtraction does not
    overflow). *)
Theorem calculatePercent_clamps depth c mn mx :
  configured c mn mx -> Options.calcMaxValue (options c) = false ->
  (forall a, (a <= mn)%Q ->
             calculatePercent (S depth) (Number (Fin a)) c =
             Return (of_Z 1) c) /\
  calculatePercent (S depth) (Number NInf) c = Return (of_Z 1) c /\
  calculatePercent (S depth) (Number NaN) c = Return (of_Z 1) c /\
  calculatePercent (S depth) Undefined c = Return (of_Z 1) c /\
  (forall d, diffOf c = Fin d -> (0 < d)%Q ->
     (forall a, (mx <= a)%Q ->
                calculatePercent (S depth) (Number (Fin a)) c =
                Return (of_Z 100) c) /\
     calculatePercent (S depth) (Number PInf) c = Return (of_Z 100) c).
Proof.
  intros Hc Hoff. pose proof Hc as (Hmin & Hmax & Hlt & Hdiff).
  assert (spec_percent c (Fin mn) = of_Z 1) as Hlow.
  { rewrite (spec_percent_in_range c mn mx mn Hc) by lra.
    rewrite percentZ_min by lra. reflexivity. }
  assert (forall d, diffOf c = Fin d -> (0 < d)%Q ->
                    percentZ mn mx mx = 100) as Hhigh.
  { intros d Hd Hpos. apply (percentZ_max mn mx d); [| lra].
    rewrite <- Hmin, <- Hmax, <- Hdiff. exact Hd. }
  split; [| split; [| split; [| split]]].
  - intros a Ha.
    rewrite (calculatePercent_fixed_finite depth c mn mx a Hc Hoff).
    unfold clampQ. destruct (Qltb a mn) eqn:E.
    + rewrite percentZ_min by lra. reflexivity.
    + apply Qltb_ge in E.
      assert (Qltb mx a = false) as -> by (apply Qltb_ge; lra).
      rewrite (percentZ_comp mn mx a mn) by lra.
      rewrite percentZ_min by lra. reflexivity.
  - rewrite calculatePercent_settled by (apply grows_off; exact Hoff).
    f_equal. cbn [toNumber].
    replace (spec_clamp c NInf) with (Fin mn); [exact Hlow |].
    unfold spec_clamp. rewrite Hmin. reflexivity.
  - rewrite calculatePercent_settled by (apply grows_off; exact Hoff).
    f_equal. cbn [toNumber].
    replace (spec_clamp c NaN) with NaN; [apply spec_percent_NaN |].
    unfold spec_clamp, jgt. destruct (minOf c), (maxOf c); reflexivity.
  - rewrite calculatePercent_settled by (apply grows_off; exact Hoff).
    f_equal. cbn [toNumber].
    replace (spec_clamp c NaN) with NaN; [apply spec_percent_NaN |].
    unfold spec_clamp, jgt. destruct (minOf c), (maxOf c); reflexivity.
  - intros d Hd Hpos. split.
    + intros a Ha.
      rewrite (calculatePercent_fixed_finite depth c mn mx a Hc Hoff).
      unfold clampQ.
      assert (Qltb a mn = false) as -> by (apply Qltb_ge; lra).
      destruct (Qltb mx a) eqn:E.
      * rewrite (Hhigh d Hd Hpos). reflexivity.
      * apply Qltb_ge in E.
        rewrite (percentZ_comp mn mx a mx) by lra.
        rewrite (Hhigh d Hd Hpos). reflexivity.
    + rewrite calculatePercent_settled by (apply grows_off; exact Hoff).
      f_equal. cbn [toNumber].
      replace (spec_clamp c PInf) with (Fin mx).
      * rewrite (spec_percent_in_range c mn mx mx Hc) by lra.
        rewrite (Hhigh d Hd Hpos). reflexivity.
      * unfold spec_clamp, jgt. rewrite Hmin, Hmax. reflexivity.
Qed.

Lemma calculatePercent_clamps_witness :
  configured (example_chart 250 500 false 50 []) 250 500 /\
  Options.calcMaxValue (options (example_chart 250 500 false 50 [])) = false /\
  diffOf (example_chart 250 500 false 50 []) = Fin 250 /\
  (0 < 250)%Q /\
  calculatePercent 1 (Number PInf) (example_chart 250 500 false 50 []) =
    Return (of_Z 100) (example_chart 250 500 false 50 []) /\
  calculatePercent 1 (Number (Fin 1000)) (example_chart 250 500 false 50 []) =
    Return (of_Z 100) (example_chart 250 500 false 50 []).
Proof.
  assert (configured (example_chart 250 500 false 50 []) 250 500) as Hc
    by (repeat split; vm_compute; reflexivity).
  assert (Options.calcMaxValue
            (options (example_chart 250 500 false 50 [])) = false) as Hoff
      by (vm_compute; reflexivity).
  assert (diffOf (example_chart 250 500 false 50 []) = Fin 250) as Hd
      by (vm_compute; reflexivity).
  assert (0 < 250)%Q as Hpos by reflexivity.
  split; [exact Hc |]. split; [exact Hoff |]. split; [exact Hd |].
  split; [exact Hpos |].
  destruct (calculatePercent_clamps 0 _ 250 500 Hc Hoff)
    as (_ & _ & _ & _ & Hhigh).
  destruct (Hhigh 250%Q Hd Hpos) as [Hfin Hinf].
  split; [exact Hinf |]. apply Hfin. vm_compute. discriminate.
Defined.

(** X3.  With calcMaxValue off, calculatePercent is monotonic on all
    finite numbers, in or out of the range: a <= b gives
    calculatePercent(a) <= calculatePercent(b). *)
Theorem calculatePercent_monotonic_everywhere depth c mn mx a b :
  configured c mn mx -> Options.calcMaxValue (options c) = false ->
  (a <= b)%Q ->
  exists pa pb : Z,
    calculatePercent (S depth) (Number (Fin a)) c = Return (of_Z pa) c /\
    calculatePercent (S depth) (Number (Fin b)) c = Return (of_Z pb) c /\
    pa <= pb.
Proof.
  intros Hc Hoff Hab. pose proof Hc as (_ & _ & Hlt & _).
  exists (percentZ mn mx (clampQ mn mx a)), (percentZ mn mx (clampQ mn mx b)).
  split; [apply calculatePercent_fixed_finite; assumption |].
  split; [apply calculatePercent_fixed_finite; assumption |].
  apply percentZ_mono;
    [apply clampQ_bounds; exact Hlt | apply clampQ_mono; assumption
     | apply clampQ_bounds; exact Hlt].
Qed.

Lemma calculatePercent_monotonic_everywhere_witness :
  configured (example_chart 0 100 false 3 []) 0 100 /\
  Options.calcMaxValue (options (example_chart 0 100 false 3 [])) = false /\
  (-5 <= 700)%Q /\
  exists pa pb : Z,
    calculatePercent 1 (Number (Fin (-5))) (example_chart 0 100 false 3 []) =
      Return (of_Z pa) (example_chart 0 100 false 3 []) /\
    calculatePercent 1 (Number (Fin 700)) (example_chart 0 100 false 3 []) =
      Return (of_Z pb) (example_chart 0 100 false 3 []) /\
    pa <= pb.
Proof.
  assert (configured (example_chart 0 100 false 3 []) 0 100) as Hc
    by (repeat split; reflexivity).
  assert (-5 <= 700)%Q as Hab by (vm_compute; discriminate).
  split; [exact Hc |]. split; [reflexivity |]. split; [exact Hab |].
  exact (calculatePercent_monotonic_everywhere 0 _ 0 100 (-5) 700
           Hc eq_refl Hab).
Defined.

(** X4.  When min and max are one and the same number, the division by the
    zero valueDiff yields NaN for every input that does not grow the range,
    and the fallback turns it into 1: calculatePercent returns 1 whatever
    the input, and raises no error. *)
Theorem calculatePercent_zero_width depth c m raw :
  minOf c = Fin m -> maxOf c = Fin m ->
  diffOf c = jsub (maxOf c) (minOf c) ->
  grows c (toNumber raw) = false ->
  calculatePercent (S depth) raw c = Return (of_Z 1) c.
Proof.
  intros Hmin Hmax Hdiff Hg.
  rewrite calculatePercent_settled by exact Hg. f_equal.
  assert (spec_clamp c (toNumber raw) = NaN \/
          exists a, spec_clamp c (toNumber raw) = Fin a /\ (a == m)%Q)
    as [-> | (a & -> & Ha)].
  { unfold spec_clamp, jgt. rewrite Hmin, Hmax.
    destruct (toNumber raw) as [q | | |]; cbn [jlt].
    - right. destruct (Qltb q m) eqn:E1; [exists m; split; reflexivity |].
      destruct (Qltb m q) eqn:E2; [exists m; split; reflexivity |].
      apply Qltb_ge in E1, E2. exists q. split; [reflexivity | lra].
    - right. exists m. split; reflexivity.
    - right. exists m. split; reflexivity.
    - left. reflexivity. }
  - apply spec_percent_NaN.
  - unfold spec_percent. rewrite Hdiff, Hmax, Hmin. cbn [jsub].
    rewrite (to_double_zero (m - m)) by ring.
    rewrite (to_double_zero (a - m)) by lra.
    reflexivity.
Qed.

Lemma calculatePercent_zero_width_witness :
  minOf (example_chart 7 7 false 3 []) = Fin 7 /\
  calculatePercent 1 (Number (of_Z 9)) (example_chart 7 7 false 3 []) =
    Return (of_Z 1) (example_chart 7 7 false 3 []).
Proof.
  split; [reflexivity |].
  exact (calculatePercent_zero_width 0 (example_chart 7 7 false 3 []) 7
           (Number (of_Z 9)) eq_refl eq_refl eq_refl eq_refl).
Defined.

Lemma point_one_positive : exists p, point_one = Fin p /\ (0 < p)%Q.
Proof. eexists. split; [vm_compute; reflexivity | reflexivity]. Qed.

Lemma double_to_double r :
  double r = true -> exists v, to_double r = Fin v /\ (v == r)%Q.
Proof.
  unfold double. destruct (to_double r) as [v | | |]; try discriminate.
  intros H. exists v. split; [reflexivity | apply Qeq_bool_iff; exact H].
Qed.

Lemma jle_not_jlt a b : jle a b -> jlt b a = false.
Proof.
  destruct a, b; simpl; try tauto. intros H. apply Qltb_ge. exact H.
Qed.

Lemma jlt_jle_trans a b c : jlt a b = true -> jle b c -> jlt a c = true.
Proof.
  destruct a, b, c; simpl; try tauto; try discriminate.
  rewrite !Qltb_lt. intros H1 H2. lra.
Qed.

(** Growing the range on a non-negative double leaves the maximum at or
    above it. *)
Lemma grown_maximum_above r :
  (0 <= r)%Q -> double r = true ->
  jle (Fin r) (jadd (Fin r) (jmul (Fin r) point_one)).
Proof.
  intros Hr Hd. destruct point_one_positive as (p & -> & Hp).
  destruct (double_to_double r Hd) as (v & Ev & Hv).
  cbn [jmul].
  assert (0 <= r * p)%Q as Hrp by (apply Qmult_le_0_compat; lra).
  pose proof (proj2 (to_double_sign (r * p)) Hrp) as Ht.
  destruct (to_double (r * p)) as [t | | |]; simpl in Ht; try contradiction;
    [| exact I].
  cbn [jadd].
  assert (r <= r + t)%Q as Hsum by lra.
  apply to_double_mono in Hsum. rewrite Ev in Hsum.
  destruct (to_double (r + t)) as [s | | |]; simpl in *; try contradiction;
    [lra | exact I].
Qed.

(** X5.  A growth caused by a non-negative number (a double, as every
    number of the program is) moves max up, to a value not below that
    number, so the number does not grow the range again: a second
    calculatePercent of it returns the same percent and leaves the chart
    as the first call left it. *)
Theorem calculatePercent_growth_stable depth c r :
  double r = true ->
  (0 <= r)%Q -> grows c (Fin r) = true -> settled (grown_range (Fin r) c) ->
  exists p c',
    calculatePercent (S (S depth)) (Number (Fin r)) c = Return p c' /\
    jlt (maxOf c) (maxOf c') = true /\
    jlt (maxOf c') (Fin r) = false /\
    forall depth', calculatePercent (S depth') (Number (Fin r)) c' = Return p c'.
Proof.
  intros Hdbl Hr Hg Hs.
  destruct (calculatePercent_grows depth c (Fin r) Hg Hs)
    as (c' & Hcall & Hmax & _ & Hmin & _).
  exists (spec_percent c' (Fin r)), c'. split; [exact Hcall |].
  unfold grows in Hg. apply andb_prop in Hg as [Hg Hcalc].
  apply andb_prop in Hg as [Hlow Hhigh]. apply negb_true_iff in Hlow.
  pose proof (grown_maximum_above r Hr Hdbl) as Habove.
  rewrite <- Hmax in Habove.
  assert (jlt (maxOf c') (Fin r) = false) as Hnot
      by (apply jle_not_jlt; exact Habove).
  split; [| split; [exact Hnot |]].
  - apply (jlt_jle_trans _ (Fin r)); [exact Hhigh | exact Habove].
  - intros depth'.
    rewrite calculatePercent_settled.
    + cbn [toNumber]. unfold spec_clamp, jgt.
      rewrite Hmin, Hlow, Hnot. reflexivity.
    + cbn [toNumber]. unfold grows, jgt. rewrite Hnot.
      rewrite andb_false_r. reflexivity.
Qed.

Lemma calculatePercent_growth_stable_witness :
  double 200 = true /\
  (0 <= 200)%Q /\
  grows chart_with_10 (Fin 200) = true /\
  settled (grown_range (Fin 200) chart_with_10) /\
  exists p c',
    calculatePercent 2 (Number (Fin 200)) chart_with_10 = Return p c' /\
    jlt (maxOf chart_with_10) (maxOf c') = true /\
    jlt (maxOf c') (Fin 200) = false /\
    forall depth',
      calculatePercent (S depth') (Number (Fin 200)) c' = Return p c'.
Proof.
  assert (double 200 = true) as Hd by (vm_compute; reflexivity).
  assert (0 <= 200)%Q as Hr by (vm_compute; discriminate).
  assert (grows chart_with_10 (Fin 200) = true) as Hg
      by (vm_compute; reflexivity).
  assert (settled (grown_range (Fin 200) chart_with_10)) as Hs.
  { constructor; [| constructor].
    exists [ERef 0%nat]. split; [reflexivity |].
    constructor; [| constructor].
    eexists _, _. split; [vm_compute; reflexivity |].
    split; [reflexivity | vm_compute; reflexivity]. }
  split; [exact Hd |]. split; [exact Hr |]. split; [exact Hg |].
  split; [exact Hs |].
  exact (calculatePercent_growth_stable 0 chart_with_10 200 Hd Hr Hg Hs).
Defined.

(** ** A growth that does not end *)

(** X6.  With calcMaxValue on, a number that grows the range to a maximum
    below the sample at the head of the window cannot be taken in when
    growing the range on that sample leaves the maximum below the sample
    again (as it does for a negative sample: its maximum is ten percent
    below it): recalculatePercents grows the range on the sample, and so
    on without end.  addChartData throws a RangeError (stack overflow)
    whatever room the stack has. *)
Theorem addChartData_runaway depth c raw l d :
  grows c raw = true -> runaway c l d ->
  jgt (Fin d) (maxOf (grown_range raw c)) = true ->
  exists c',
    addChartData depth (Single (VNumber raw)) c = Throw RangeError c'.
Proof.
  intros Hg Hrun Hgt.
  set (x := Sample (Number raw) (Number raw) None).
  destruct (calculatePercent_number_overflows depth
              (set_heap (<[length (heap c) := x]>
                           (heap c ++ [Sample (value x) Undefined None])) c)
              raw l d Hg (runaway_new_object c l d x Hrun) Hgt)
    as (c' & Hcall).
  exists c'. apply addChartData_number_throws. exact Hcall.
Qed.

Lemma addChartData_runaway_witness :
  grows chart_below_zero (Fin (-10)) = true /\
  runaway chart_below_zero 0%nat minus_10_6 /\
  jgt (Fin minus_10_6) (maxOf (grown_range (Fin (-10)) chart_below_zero)) =
    true /\
  exists c',
    addChartData 1000 (Single (VNumber (Fin (-10)))) chart_below_zero =
      Throw RangeError c'.
Proof.
  assert (runaway chart_below_zero 0%nat minus_10_6) as Hrun.
  { split; [exists [], []; vm_compute; reflexivity |].
    split; [exists (Sample (Number (of_Z 100)) (Number (Fin minus_10_6)) None);
            split; [vm_compute; reflexivity | reflexivity] |].
    split; [vm_compute; reflexivity |].
    split; vm_compute; reflexivity. }
  assert (grows chart_below_zero (Fin (-10)) = true) as Hg
      by (vm_compute; reflexivity).
  assert (jgt (Fin minus_10_6)
              (maxOf (grown_range (Fin (-10)) chart_below_zero)) = true) as Hj
      by (vm_compute; reflexivity).
  split; [exact Hg |]. split; [exact Hrun |]. split; [exact Hj |].
  exact (addChartData_runaway 1000 chart_below_zero (Fin (-10)) 0%nat
           minus_10_6 Hg Hrun Hj).
Defined.

(** ** Recalculation twice *)

Lemma recalculateSample_normalised depth c e :
  (exists l o, e = ERef l /\ heap c !! l = Some o /\ normalised c o) ->
  recalculateSample (calculatePercent (S depth)) e c = Return e c.
Proof.
  intros (l & o & -> & Ho & Hg & Hv). unfold recalculateSample.
  erewrite bind_eq by (unfold read; rewrite Ho; reflexivity).
  erewrite bind_eq by (apply calculatePercent_settled; exact Hg).
  unfold bind, write. rewrite Ho.
  replace (set_value _ o) with o
    by (destruct o; simpl in *; rewrite Hv; reflexivity).
  rewrite (heap_insert_same _ _ _ Ho), set_heap_same. reflexivity.
Qed.

Lemma recalculate_elems_normalised depth c es :
  Forall (fun e => exists l o, e = ERef l /\ heap c !! l = Some o /\
                               normalised c o) es ->
  mapM (recalculateSample (calculatePercent (S depth))) es c = Return es c.
Proof.
  induction 1 as [| e es He _ IH]; [reflexivity |].
  cbn [mapM].
  rewrite (bind_eq _ _ _ _ _ (recalculateSample_normalised depth c e He)).
  rewrite (bind_eq _ _ _ _ _ IH). reflexivity.
Qed.

Lemma recalculate_batches_normalised depth c bs :
  Forall (fun b => exists es, b = BArray es /\
            Forall (fun e => exists l o, e = ERef l /\
                               heap c !! l = Some o /\ normalised c o) es)
         bs ->
  mapM (recalculateBatch (calculatePercent (S depth))) bs c = Return bs c.
Proof.
  induction 1 as [| b bs (es & -> & Hes) _ IH]; [reflexivity |].
  cbn [mapM]. unfold bind at 1. unfold recalculateBatch at 1.
  unfold bind at 1. rewrite (recalculate_elems_normalised depth c es Hes).
  unfold ret at 1. unfold bind at 1. rewrite IH. reflexivity.
Qed.

(** X7.  recalculatePercents is idempotent on a window of objects none of
    which grows the range: run twice, it returns both times, and the second
    run changes no [value]; the window holds the same references
    throughout.  Only the array behind [this.data] is a new one each
    time. *)
Theorem recalculatePercents_idempotent depth c :
  settled c ->
  exists c1 c2,
    recalculatePercents (calculatePercent (S depth)) c = Return tt c1 /\
    recalculatePercents (calculatePercent (S depth)) c1 = Return tt c2 /\
    heap c2 = heap c1 /\
    data c1 = data c /\ data c2 = data c /\
    options c2 = options c /\ settings c2 = settings c /\
    dataArray c2 = S (S (dataArray c)).
Proof.
  intros Hs.
  destruct (recalculate_batches_settled depth (data c) c Hs)
    as (c0 & Hrec & (E & Hlen & Hh)).
  assert (recalculatePercents (calculatePercent (S depth)) c =
          Return tt (assign_data (data c) c0)) as H1.
  { unfold recalculatePercents. unfold bind at 1, get at 1.
    unfold bind at 1. rewrite Hrec. reflexivity. }
  set (c1 := assign_data (data c) c0) in *.
  destruct (recalculatePercents_post _ (calculatePercent_refreshes (S depth))
              c c1 H1) as (_ & _ & Hw).
  assert (mapM (recalculateBatch (calculatePercent (S depth))) (data c) c1 =
          Return (data c) c1) as H2.
  { apply recalculate_batches_normalised.
    assert (forall l, In l (stored c) ->
                      exists o, heap c1 !! l = Some o /\ normalised c1 o)
      as Hall by (intros l Hl; apply Hw; exact Hl).
    clear - Hs Hall. unfold stored in Hall. unfold settled in Hs.
    induction Hs as [| b bs (es & -> & Hes) _ IH]; [constructor |].
    constructor.
    - exists es. split; [reflexivity |].
      assert (forall l, In l (refs es) ->
                        exists o, heap c1 !! l = Some o /\ normalised c1 o)
        as Hes' by (intros l Hl; apply Hall; simpl; apply in_or_app;
                    left; exact Hl).
      clear - Hes Hes'.
      induction Hes as [| e es (l & o & -> & _) _ IH]; [constructor |].
      constructor.
      + destruct (Hes' l) as (o' & Ho' & Hn); [left; reflexivity |].
        exists l, o'. auto.
      + apply IH. intros l' Hl'. apply Hes'. right. exact Hl'.
    - apply IH. intros l Hl. apply Hall. simpl. apply in_or_app.
      right. exact Hl. }
  exists c1, (assign_data (data c) c1).
  split; [exact H1 |]. split.
  { unfold recalculatePercents. unfold bind at 1, get at 1.
    change (data c1) with (data c). unfold bind at 1. rewrite H2.
    reflexivity. }
  subst c1. rewrite E. repeat split; reflexivity.
Qed.

Lemma recalculatePercents_idempotent_witness :
  settled chart_with_10 /\
  exists c1 c2,
    recalculatePercents (calculatePercent 1) chart_with_10 = Return tt c1 /\
    recalculatePercents (calculatePercent 1) c1 = Return tt c2 /\
    heap c2 = heap c1.
Proof.
  assert (settled chart_with_10) as Hs.
  { constructor; [| constructor].
    exists [ERef 0%nat]. split; [reflexivity |].
    constructor; [| constructor].
    eexists _, _. split; [reflexivity |]. split; reflexivity. }
  split; [exact Hs |].
  destruct (recalculatePercents_idempotent 0 chart_with_10 Hs)
    as (c1 & c2 & H1 & H2 & Hh & _).
  exists c1, c2. auto.
Defined.

(** ** What addChartData carries along *)

Lemma carried_refl c : carried c c.
Proof.
  unfold carried. repeat split; try reflexivity; try lia.
  intros l o H. exists o. auto.
Qed.

Lemma carried_trans c1 c2 c3 : carried c1 c2 -> carried c2 c3 -> carried c1 c3.
Proof.
  intros (Hd & Ht & Ha & Hl & Hh) (Hd' & Ht' & Ha' & Hl' & Hh').
  unfold carried. repeat split; try congruence; try lia.
  intros l o H. destruct (Hh l o H) as (o1 & H1 & Hi1).
  destruct (Hh' l o1 H1) as (o2 & H2 & Hi2).
  exists o2. split; [exact H2 | congruence].
Qed.

Lemma kept_carried c c' : kept c c' -> carried c c'.
Proof.
  intros (Hd & Ha & _ & _ & Ht & Hl & Hh).
  unfold carried. repeat split; try assumption; try lia.
  intros l o H. destruct (Hh l o H) as (o' & H' & _ & Hi). eauto.
Qed.

Lemma calculatePercent_carried depth num c p c' :
  calculatePercent depth num c = Return p c' -> carried c c'.
Proof.
  intros H. apply calculatePercent_refreshes in H.
  destruct (grows c (toNumber num)).
  - destruct H as (Hk & _). apply kept_carried. exact Hk.
  - destruct H as (-> & _). apply carried_refl.
Qed.

Lemma write_carried c l o (f : sample -> sample) :
  heap c !! l = Some o -> id (f o) = id o ->
  carried c (set_heap (<[l := f o]> (heap c)) c).
Proof.
  intros Hl Hid. unfold carried. cbn [data options dataArray heap set_heap].
  repeat split; try reflexivity; try lia.
  - rewrite length_insert. lia.
  - intros l' o' Hl'. destruct (Nat.eq_dec l' l) as [-> | Hne].
    + exists (f o).
      rewrite list_lookup_insert_eq by (eapply lookup_lt_Some; exact Hl).
      rewrite (lookup_same _ _ _ _ Hl Hl'). auto.
    + exists o'. rewrite list_lookup_insert_ne by congruence. auto.
Qed.

Lemma alloc_carried c x : carried c (set_heap (heap c ++ [x]) c).
Proof.
  unfold carried. cbn [data options dataArray heap set_heap].
  repeat split; try reflexivity; try lia.
  - rewrite length_app. lia.
  - intros l o Hl. exists o.
    rewrite lookup_app_l by (eapply lookup_lt_Some; exact Hl). auto.
Qed.

Lemma stored_as_le n n' v e : (n' <= n)%nat -> stored_as n v e -> stored_as n' v e.
Proof.
  intros Hn. destruct v; simpl; try tauto.
  intros (l & -> & Hl). exists l. split; [reflexivity | lia].
Qed.

Lemma transformElement_carried depth v c e c' :
  transformElement depth v c = Return e c' ->
  carried c c' /\ stored_as (length (heap c)) v e.
Proof.
  intros H. destruct v as [| | b | n | s | l]; simpl in H;
    try (injection H as <- <-; split; [apply carried_refl | reflexivity]);
    try discriminate H.
  - apply bind_Return in H as (p & c1 & Hcall & H).
    apply bind_Return in H as (l & c2 & Halloc & H).
    injection Halloc as <- <-. injection H as <- <-.
    apply calculatePercent_carried in Hcall.
    split; [eapply carried_trans; [exact Hcall | apply alloc_carried] |].
    exists (length (heap c1)). split; [reflexivity |].
    destruct Hcall as (_ & _ & _ & Hlen & _). exact Hlen.
  - apply bind_Return in H as (o_ & c0 & Hread & H).
    unfold read in Hread.
    destruct (heap c !! l) as [o |] eqn:Ho; [| discriminate].
    injection Hread as <- <-.
    apply bind_Return in H as ([] & c1 & Hw1 & H).
    unfold write in Hw1. rewrite Ho in Hw1. injection Hw1 as <-.
    apply bind_Return in H as (p & c2 & Hcall & H).
    apply bind_Return in H as ([] & c3 & Hw2 & H).
    injection H as <- <-.
    unfold write in Hw2.
    destruct (heap c2 !! l) as [o2 |] eqn:Ho2; [| discriminate].
    injection Hw2 as <-.
    split; [| reflexivity].
    eapply carried_trans;
      [apply (write_carried c l o (set_defValue (value o)));
       [exact Ho | reflexivity] |].
    eapply carried_trans; [eapply calculatePercent_carried; exact Hcall |].
    apply (write_carried c2 l o2 (set_value (Number p)));
      [exact Ho2 | reflexivity].
Qed.

Lemma transformArray_carried depth vs : forall c b c',
  transformArray depth vs c = Return b c' ->
  carried c c' /\
  exists es, b = BArray es /\ Forall2 (stored_as (length (heap c))) vs es.
Proof.
  unfold transformArray.
  assert (forall c es c',
             mapM (transformElement depth) vs c = Return es c' ->
             carried c c' /\ Forall2 (stored_as (length (heap c))) vs es)
    as Hmap.
  { induction vs as [| v vs IH]; intros c es c' H.
    - injection H as <- <-. split; [apply carried_refl | constructor].
    - simpl in H. apply bind_Return in H as (e & c1 & He & H).
      apply bind_Return in H as (es1 & c2 & Hrest & H).
      injection H as <- <-.
      apply transformElement_carried in He as [Hc1 He].
      apply IH in Hrest as [Hc2 Hes].
      split; [eapply carried_trans; eassumption |].
      constructor; [exact He |].
      eapply Forall2_impl; [exact Hes |].
      intros x y. apply stored_as_le.
      destruct Hc1 as (_ & _ & _ & Hlen & _). exact Hlen. }
  intros c b c' H. apply bind_Return in H as (es & c1 & Hes & H).
  injection H as <- <-. apply Hmap in Hes as [Hc Hf].
  split; [exact Hc |]. exists es. auto.
Qed.

Lemma transformChartDataToPercent_carried depth v c b c' :
  transformChartDataToPercent depth v c = Return b c' -> carried c c'.
Proof.
  intros H. destruct v as [[| | bo | n | s | l] | vs]; simpl in H;
    try (injection H as <- <-; apply carried_refl);
    try discriminate H.
  - apply bind_Return in H as (l & c1 & Halloc & H).
    injection Halloc as <- <-.
    apply transformArray_carried in H as [H _].
    eapply carried_trans; [apply alloc_carried | exact H].
  - apply bind_Return in H as (o & c1 & Hread & H).
    unfold read in Hread. destruct (heap c !! l); [| discriminate].
    injection Hread as <- <-.
    destruct (toBoolean (value s)).
    + apply transformArray_carried in H as [H _]. exact H.
    + injection H as <- <-. apply carried_refl.
  - apply transformArray_carried in H as [H _]. exact H.
Qed.

(** The three ways a call that returns leaves the window. *)
Lemma addChartData_shape depth v c c' (n : nat) :
  Options.totalElement (options c) = of_nat n ->
  (length (data c) <= n)%nat ->
  addChartData depth v c = Return tt c' ->
  Options.totalElement (options c') = of_nat n /\
  (length (data c') <= n)%nat /\
  ((dataArray c < dataArray c')%nat /\ data c' = data c \/
   dataArray c' = dataArray c /\
   exists b, data c' = (if (n <? S (length (data c)))%nat
                        then tail (data c ++ [b]) else data c ++ [b])).
Proof.
  intros Hcap Hlen H.
  destruct (transformChartDataToPercent depth v c) as [b c1 | e c1] eqn:Ht.
  2: { unfold addChartData in H. unfold bind at 1 in H. simpl in H.
       unfold bind at 1 in H. rewrite Ht in H. discriminate H. }
  pose proof (transformChartDataToPercent_carried _ _ _ _ _ Ht)
    as (Hd & Htot & Ha & _ & _).
  destruct (Nat.eq_dec (dataArray c1) (dataArray c)) as [Heq | Hne].
  - rewrite (addChartData_no_growth depth v c b c1 Ht Heq) in H.
    injection H as <-.
    destruct (append_length b c1 n) as [Hl Hdata];
      [rewrite Htot; exact Hcap | rewrite Hd; exact Hlen |].
    rewrite Hd in Hl, Hdata.
    split; [| split; [rewrite Hl; lia |]].
    + unfold append. destruct (jgt _ _); simpl; rewrite Htot; exact Hcap.
    + right. split; [| exists b; exact Hdata].
      unfold append. destruct (jgt _ _); simpl; exact Heq.
  - unfold addChartData in H.
    unfold bind at 1 in H. cbn [get bind ret] in H.
    unfold bind at 1 in H. rewrite Ht in H.
    unfold bind at 1, get at 1 in H. unfold bind at 1 in H.
    destruct (Nat.eqb_spec (dataArray c1) (dataArray c)) as [Heq | _];
      [contradiction |].
    cbn [ret] in H. unfold bind at 1, get at 1 in H.
    unfold jgt in H. rewrite Htot, Hcap, jlt_of_nat, Hd in H.
    destruct (Nat.ltb_spec n (length (data c))) as [Hlt | _]; [lia |].
    injection H as <-.
    split; [rewrite Htot; exact Hcap |].
    split; [rewrite Hd; exact Hlen |].
    left. split; [lia | exact Hd].
Qed.

(** X8.  Whatever the input and whether the range grows or not, a call of
    addChartData that returns leaves a window of at most totalElement
    batches in one of three ways: untouched (the call grew the range and
    its batch went to the replaced array), with one batch appended at the
    end, or, when it was full, with the oldest batch dropped and one
    appended.  It never reorders batches and never changes totalElement. *)
Theorem addChartData_window_bounded depth v c c' (n : nat) :
  Options.totalElement (options c) = of_nat n ->
  (length (data c) <= n)%nat ->
  addChartData depth v c = Return tt c' ->
  Options.totalElement (options c') = of_nat n /\
  (length (data c') <= n)%nat /\
  ((dataArray c < dataArray c')%nat /\ data c' = data c \/
   dataArray c' = dataArray c /\
   exists b, data c' = (if (n <? S (length (data c)))%nat
                        then tail (data c ++ [b]) else data c ++ [b])).
Proof. apply addChartData_shape. Qed.

Lemma addChartData_window_bounded_witness :
  Options.totalElement (options chart_with_10) = of_nat 3 /\
  (length (data chart_with_10) <= 3)%nat /\
  addChartData 2 (Single (VNumber (of_Z 200))) chart_with_10 =
    Return tt (after (addChartData 2 (Single (VNumber (of_Z 200)))
                        chart_with_10)) /\
  (length (data (after (addChartData 2 (Single (VNumber (of_Z 200)))
                          chart_with_10))) <= 3)%nat.
Proof.
  assert (length (data chart_with_10) <= 3)%nat as Hlen
      by (vm_compute; lia).
  assert (addChartData 2 (Single (VNumber (of_Z 200))) chart_with_10 =
          Return tt (after (addChartData 2 (Single (VNumber (of_Z 200)))
                              chart_with_10))) as Hrun
      by (vm_compute; reflexivity).
  split; [reflexivity |]. split; [exact Hlen |]. split; [exact Hrun |].
  exact (proj1 (proj2 (addChartData_window_bounded 2 _ chart_with_10 _ 3
                         eq_refl Hlen Hrun))).
Defined.

(** X9.  With calcMaxValue off, after any [n] calls of addChartData that
    return, on a chart that started with an empty window, the window holds
    min(n, totalElement) batches, whatever the inputs were. *)
Theorem addAll_window_length depth vs c c' (n : nat) :
  Options.calcMaxValue (options c) = false ->
  Options.totalElement (options c) = of_nat n ->
  data c = [] ->
  addAll depth vs c = Return tt c' ->
  length (data c') = Nat.min (length vs) n.
Proof.
  intros Hoff Hcap Hd H.
  rewrite (addAll_fixed_range depth vs c c' n Hoff Hcap); [| | exact H].
  - rewrite Hd. reflexivity.
  - rewrite Hd. simpl. lia.
Qed.

Lemma addAll_window_length_witness :
  Options.calcMaxValue (options (example_chart 0 100 false 3 [])) = false /\
  Options.totalElement (options (example_chart 0 100 false 3 [])) =
    of_nat 3 /\
  data (example_chart 0 100 false 3 []) = [] /\
  exists c',
    addAll 1 [Single (VNumber (of_Z 10)); Single (VNumber (of_Z 200));
              Single (VNumber (of_Z 50)); Single (VNumber (of_Z 90))]
           (example_chart 0 100 false 3 []) = Return tt c' /\
    length (data c') = 3%nat.
Proof.
  split; [reflexivity |]. split; [reflexivity |]. split; [reflexivity |].
  eexists. split; [vm_compute; reflexivity |].
  apply (addAll_window_length 1
           [Single (VNumber (of_Z 10)); Single (VNumber (of_Z 200));
            Single (VNumber (of_Z 50)); Single (VNumber (of_Z 90))]
           (example_chart 0 100 false 3 []) _ 3 eq_refl eq_refl eq_refl).
  vm_compute. reflexivity.
Defined.

(** X10.  When transformChartDataToPercent returns on an array, the batch
    is an array of the same length, aligned with the input position by
    position: an object is stored by the very reference handed in, a number
    by a reference to an object that did not exist before the call, and
    every other element by [undefined].  An array holding [null] makes the
    call throw. *)
Theorem transformChartDataToPercent_array_aligned depth vs c b c' :
  transformChartDataToPercent depth (Array vs) c = Return b c' ->
  exists es, b = BArray es /\
             length es = length vs /\
             Forall2 (stored_as (length (heap c))) vs es /\
             ~ In VNull vs.
Proof.
  intros H. cbn [transformChartDataToPercent] in H.
  apply transformArray_carried in H as (_ & es & -> & Hf).
  exists es. split; [reflexivity |].
  split; [symmetry; eapply Forall2_length; exact Hf |].
  split; [exact Hf |].
  clear - Hf. induction Hf as [| v e vs es Hv _ IH]; [intros [] |].
  intros [-> | Hin]; [exact Hv | exact (IH Hin)].
Qed.

Lemma transformChartDataToPercent_array_aligned_witness :
  exists b c',
    transformChartDataToPercent 1
      (Array [VNumber (of_Z 10); VString "x"; VObject 0%nat])
      (example_chart 0 100 false 3 [Sample (Number (of_Z 30)) Undefined None])
    = Return b c' /\
    exists es, b = BArray es /\ length es = 3%nat.
Proof.
  eexists _, _. split; [vm_compute; reflexivity |].
  destruct (transformChartDataToPercent_array_aligned 1
              [VNumber (of_Z 10); VString "x"; VObject 0%nat]
              (example_chart 0 100 false 3
                 [Sample (Number (of_Z 30)) Undefined None]) _ _
              ltac:(vm_compute; reflexivity)) as (es & Hb & Hlen & _).
  exists es. split; [exact Hb | exact Hlen].
Defined.

Lemma addChartData_heap depth v c c' :
  addChartData depth v c = Return tt c' ->
  exists b c1,
    transformChartDataToPercent depth v c = Return b c1 /\
    heap c' = heap c1 /\ options c' = options c1 /\
    settings c' = settings c1 /\ calls c' = calls c1.
Proof.
  intros H.
  destruct (transformChartDataToPercent depth v c) as [b c1 | e c1] eqn:Ht.
  2: { unfold addChartData in H. unfold bind at 1 in H. simpl in H.
       unfold bind at 1 in H. rewrite Ht in H. discriminate H. }
  exists b, c1. split; [reflexivity |].
  unfold addChartData in H.
  unfold bind at 1 in H. cbn [get bind ret] in H.
  unfold bind at 1 in H. rewrite Ht in H.
  unfold bind at 1, get at 1 in H. unfold bind at 1 in H.
  destruct (dataArray c1 =? dataArray c)%nat;
    cbn [modify ret] in H; unfold bind at 1, get at 1 in H;
    destruct (jgt _ _); injection H as <-; repeat split; reflexivity.
Qed.

(** X11.  A call of addChartData that returns removes no object and
    changes the [id] of none: every object that existed before still
    exists, under the same reference and with the same [id]. *)
Theorem addChartData_keeps_objects depth v c c' :
  addChartData depth v c = Return tt c' ->
  (length (heap c) <= length (heap c'))%nat /\
  forall l o, heap c !! l = Some o ->
              exists o', heap c' !! l = Some o' /\ id o' = id o.
Proof.
  intros H. apply addChartData_heap in H as (b & c1 & Ht & Hh & _).
  apply transformChartDataToPercent_carried in Ht as (_ & _ & _ & Hlen & Hid).
  rewrite Hh. split; [exact Hlen | exact Hid].
Qed.

Lemma addChartData_keeps_objects_witness :
  exists c',
    addChartData 2 (Single (VNumber (of_Z 200))) chart_with_10 =
      Return tt c' /\
    (length (heap chart_with_10) <= length (heap c'))%nat.
Proof.
  eexists. split; [vm_compute; reflexivity |].
  exact (proj1 (addChartData_keeps_objects 2 (Single (VNumber (of_Z 200)))
                  chart_with_10 _ ltac:(vm_compute; reflexivity))).
Defined.

(** ** Objects handed in *)


(** X12.  An object with a truthy [value] whose normalisation does not
    grow the range is changed in place and stored by reference: after the
    call its [defValue] holds what [value] held, its [value] holds the
    percent, its [id] is as before, and the batch appended to the window is
    the one-element array referring to that object. *)
Theorem addChartData_object_stored_by_reference depth c l o :
  heap c !! l = Some o ->
  toBoolean (value o) = true ->
  grows c (toNumber (value o)) = false ->
  addChartData (S depth) (Single (VObject l)) c =
  Return tt
    (append (BArray [ERef l])
       (set_heap
          (<[l := Sample (Number (spec_percent c (spec_clamp c
                                    (toNumber (value o)))))
                         (value o) (id o)]> (heap c)) c)).
Proof. apply addChartData_object_in_place. Qed.

Lemma addChartData_object_stored_by_reference_witness :
  let o := Sample (Number (of_Z 30)) Undefined (Some "a"%string) in
  heap (example_chart 0 100 false 3 [o]) !! 0%nat = Some o /\
  toBoolean (value o) = true /\
  grows (example_chart 0 100 false 3 [o]) (toNumber (value o)) = false /\
  exists c',
    addChartData 1 (Single (VObject 0%nat)) (example_chart 0 100 false 3 [o])
    = Return tt c'.
Proof.
  intros o. split; [reflexivity |]. split; [reflexivity |].
  split; [reflexivity |]. eexists.
  exact (addChartData_object_stored_by_reference 0
           (example_chart 0 100 false 3 [o]) 0%nat o
           eq_refl eq_refl eq_refl).
Defined.



(** ** Objects left alone *)

Lemma untouched_outside_refl ls c : untouched_outside ls c c.
Proof. intros l o H _. exact H. Qed.

Lemma untouched_outside_trans ls c1 c2 c3 :
  untouched_outside ls c1 c2 -> untouched_outside ls c2 c3 ->
  untouched_outside ls c1 c3.
Proof. intros H1 H2 l o Ho Hl. apply H2; [apply H1 |]; assumption. Qed.

Lemma untouched_outside_incl ls ls' c c' :
  incl ls ls' -> untouched_outside ls c c' -> untouched_outside ls' c c'.
Proof. intros Hi H l o Ho Hl. apply H; [exact Ho |]. intros Hin. apply Hl, Hi, Hin. Qed.

Lemma write_untouched ls c l x :
  In l ls -> untouched_outside ls c (set_heap (<[l := x]> (heap c)) c).
Proof.
  intros Hl l' o Ho Hout. cbn [heap set_heap].
  rewrite list_lookup_insert_ne by (intros ->; contradiction). exact Ho.
Qed.

Lemma alloc_untouched ls c x :
  untouched_outside ls c (set_heap (heap c ++ [x]) c).
Proof.
  intros l o Ho _. cbn [heap set_heap].
  rewrite lookup_app_l by (eapply lookup_lt_Some; exact Ho). exact Ho.
Qed.

Lemma refreshes_data call num c p c' :
  refreshes call -> call num c = Return p c' -> data c' = data c.
Proof.
  intros Hr H. apply Hr in H. destruct (grows c (toNumber num)).
  - destruct H as ((Hd & _) & _). exact Hd.
  - destruct H as (-> & _). reflexivity.
Qed.

Section Touch.
Variable call : field -> M jsnum.
Hypothesis call_refreshes : refreshes call.
Hypothesis call_touches : touches_stored_only call.

Lemma recalculateSample_touch ls c e e' c' :
  stored c = ls -> incl (refs [e]) ls ->
  recalculateSample call e c = Return e' c' ->
  untouched_outside ls c c' /\ stored c' = ls.
Proof.
  intros Hs Hin H. destruct e as [| l]; [discriminate H |].
  unfold recalculateSample in H.
  apply bind_Return in H as (o_ & c0 & Hread & H).
  unfold read in Hread. destruct (heap c !! l) as [o |] eqn:Ho; [| discriminate].
  injection Hread as <- <-.
  apply bind_Return in H as (p & c1 & Hcall & H).
  apply bind_Return in H as ([] & c2 & Hwrite & H).
  injection H as <- <-.
  unfold write in Hwrite.
  destruct (heap c1 !! l) as [o1 |] eqn:Ho1; [| discriminate].
  injection Hwrite as <-.
  pose proof (refreshes_data _ _ _ _ _ call_refreshes Hcall) as Hd.
  pose proof (call_touches _ _ _ _ Hcall) as Ht. rewrite Hs in Ht.
  split.
  - eapply untouched_outside_trans; [exact Ht |].
    apply write_untouched. apply Hin. left. reflexivity.
  - unfold stored. cbn [data set_heap]. rewrite Hd. exact Hs.
Qed.

Lemma recalculate_elems_touch ls es : forall c es' c',
  stored c = ls -> incl (refs es) ls ->
  mapM (recalculateSample call) es c = Return es' c' ->
  untouched_outside ls c c' /\ stored c' = ls.
Proof.
  induction es as [| e es IH]; intros c es' c' Hs Hin H.
  - injection H as <- <-. split; [apply untouched_outside_refl | exact Hs].
  - simpl in H. apply bind_Return in H as (e' & c1 & He & H).
    apply bind_Return in H as (es1 & c2 & Hrest & H).
    injection H as <- <-.
    apply (recalculateSample_touch ls) in He as [H1 Hs1]; [| exact Hs |].
    + apply IH in Hrest as [H2 Hs2]; [| exact Hs1 |].
      * split; [eapply untouched_outside_trans; eassumption | exact Hs2].
      * intros x Hx. apply Hin. destruct e; [exact Hx | right; exact Hx].
    + intros x Hx. apply Hin. destruct e; [destruct Hx |].
      destruct Hx as [<- | []]. left. reflexivity.
Qed.

Lemma recalculate_batches_touch ls bs : forall c bs' c',
  stored c = ls -> incl (concat (map batch_refs bs)) ls ->
  mapM (recalculateBatch call) bs c = Return bs' c' ->
  untouched_outside ls c c' /\ stored c' = ls.
Proof.
  induction bs as [| b bs IH]; intros c bs' c' Hs Hin H.
  - injection H as <- <-. split; [apply untouched_outside_refl | exact Hs].
  - simpl in H. apply bind_Return in H as (b' & cb & Hb & H).
    apply bind_Return in H as (bs1 & c2 & Hrest & H).
    injection H as <- <-.
    destruct b as [| es]; [discriminate Hb |].
    unfold recalculateBatch in Hb.
    apply bind_Return in Hb as (es' & c1 & Hes & Hb).
    injection Hb as <- <-. simpl in Hin.
    apply (recalculate_elems_touch ls) in Hes as [H1 Hs1]; [| exact Hs |].
    + apply IH in Hrest as [H2 Hs2]; [| exact Hs1 |].
      * split; [eapply untouched_outside_trans; eassumption | exact Hs2].
      * intros x Hx. apply Hin, in_or_app. right. exact Hx.
    + intros x Hx. apply Hin, in_or_app. left. exact Hx.
Qed.

Lemma calculatePercent_frame_touches :
  touches_stored_only (calculatePercent_frame call).
Proof.
  intros num c p c' H. rewrite calculatePercent_frame_unfold in H.
  destruct (grows c (toNumber num)) eqn:Hg.
  - destruct num as [| n].
    { exfalso. unfold grows, jgt, toNumber in Hg.
      destruct (maxOf c); rewrite andb_false_r in Hg; discriminate Hg. }
    cbn [toNumber] in Hg.
    rewrite (filterValue_grows _ _ _ Hg) in H.
    unfold bind at 1 in H.
    destruct (recalculatePercents call (grown_range n c)) as [[] c1 | e c1]
      eqn:Hrec; [| discriminate H].
    injection H as <- <-.
    unfold recalculatePercents in Hrec.
    apply bind_Return in Hrec as (c0 & c0' & Hget & Hrec).
    injection Hget as <- <-.
    apply bind_Return in Hrec as (d & c2 & Hmap & Hrec).
    injection Hrec as <-.
    apply (recalculate_batches_touch (stored c)) in Hmap as [Ht _];
      [| reflexivity | intros x Hx; exact Hx].
    intros l o Ho Hout. apply (Ht l o Ho Hout).
  - destruct (filterValue_settled call num c Hg) as (v & Hf & _).
    rewrite Hf in H. injection H as <- <-. apply untouched_outside_refl.
Qed.
End Touch.

Lemma calculatePercent_touches depth : touches_stored_only (calculatePercent depth).
Proof.
  induction depth as [| depth IH].
  - intros num c p c' H. discriminate H.
  - apply calculatePercent_frame_touches;
      [apply calculatePercent_refreshes | exact IH].
Qed.

Lemma transformElement_touch depth v c e c' :
  transformElement depth v c = Return e c' ->
  untouched_outside
    (stored c ++ match v with VObject l => [l] | _ => [] end) c c'.
Proof.
  intros H. destruct v as [| | b | n | s | l]; simpl in H;
    try (injection H as <- <-; apply untouched_outside_refl);
    try discriminate H.
  - apply bind_Return in H as (p & c1 & Hcall & H).
    apply bind_Return in H as (l & c2 & Halloc & H).
    injection Halloc as <- <-. injection H as <- <-.
    apply calculatePercent_touches in Hcall.
    rewrite app_nil_r.
    eapply untouched_outside_trans; [exact Hcall | apply alloc_untouched].
  - apply bind_Return in H as (o_ & c0 & Hread & H).
    unfold read in Hread.
    destruct (heap c !! l) as [o |] eqn:Ho; [| discriminate].
    injection Hread as <- <-.
    apply bind_Return in H as ([] & c1 & Hw1 & H).
    unfold write in Hw1. rewrite Ho in Hw1. injection Hw1 as <-.
    apply bind_Return in H as (p & c2 & Hcall & H).
    apply bind_Return in H as ([] & c3 & Hw2 & H).
    injection H as <- <-.
    unfold write in Hw2.
    destruct (heap c2 !! l) as [o2 |] eqn:Ho2; [| discriminate].
    injection Hw2 as <-.
    apply calculatePercent_touches in Hcall.
    eapply untouched_outside_trans;
      [apply write_untouched; apply in_or_app; right; left; reflexivity |].
    eapply untouched_outside_trans;
      [eapply untouched_outside_incl; [| exact Hcall];
       intros x Hx; apply in_or_app; left; exact Hx |].
    apply write_untouched. apply in_or_app. right. left. reflexivity.
Qed.

Lemma transformArray_touch depth vs : forall c b c',
  transformArray depth vs c = Return b c' ->
  untouched_outside (stored c ++ input_refs (Array vs)) c c'.
Proof.
  unfold transformArray.
  assert (forall c es c',
             mapM (transformElement depth) vs c = Return es c' ->
             untouched_outside (stored c ++ input_refs (Array vs)) c c')
    as Hmap.
  { induction vs as [| v vs IH]; intros c es c' H.
    - injection H as <- <-. apply untouched_outside_refl.
    - simpl in H. apply bind_Return in H as (e & c1 & He & H).
      apply bind_Return in H as (es1 & c2 & Hrest & H).
      injection H as <- <-.
      pose proof (transformElement_carried _ _ _ _ _ He) as ((Hd & _) & _).
      apply transformElement_touch in He. apply IH in Hrest.
      assert (stored c1 = stored c) as Hs
          by (unfold stored; rewrite Hd; reflexivity).
      rewrite Hs in Hrest.
      eapply untouched_outside_trans.
      + eapply untouched_outside_incl; [| exact He].
        intros x Hx. apply in_app_or in Hx as [Hx | Hx];
          apply in_or_app; [left; exact Hx | right].
        destruct v; try contradiction. destruct Hx as [<- | []].
        left. reflexivity.
      + eapply untouched_outside_incl; [| exact Hrest].
        intros x Hx. apply in_app_or in Hx as [Hx | Hx];
          apply in_or_app; [left; exact Hx | right].
        cbn [input_refs omap] in *. destruct v; try exact Hx.
        right. exact Hx. }
  intros c b c' H. apply bind_Return in H as (es & c1 & Hes & H).
  injection H as <- <-. apply Hmap in Hes. exact Hes.
Qed.

Lemma transformChartDataToPercent_touch depth v c b c' :
  transformChartDataToPercent depth v c = Return b c' ->
  untouched_outside (stored c ++ input_refs v) c c'.
Proof.
  intros H. destruct v as [[| | bo | n | s | l] | vs]; simpl in H;
    try (injection H as <- <-; apply untouched_outside_refl);
    try discriminate H.
  - apply bind_Return in H as (l & c1 & Halloc & H).
    injection Halloc as <- <-.
    apply transformArray_touch in H.
    intros l o Ho Hout. apply H.
    + cbn [heap set_heap].
      rewrite lookup_app_l by (eapply lookup_lt_Some; exact Ho). exact Ho.
    + intros Hin. apply in_app_or in Hin as [Hin | Hin].
      * apply Hout, in_or_app. left. exact Hin.
      * destruct Hin as [<- | []].
        apply lookup_lt_Some in Ho. lia.
  - apply bind_Return in H as (o & c1 & Hread & H).
    unfold read in Hread. destruct (heap c !! l); [| discriminate].
    injection Hread as <- <-.
    destruct (toBoolean (value s)).
    + apply transformArray_touch in H. exact H.
    + injection H as <- <-. apply untouched_outside_refl.
  - apply transformArray_touch in H. exact H.
Qed.

(** X14.  A call of addChartData that returns changes no object other than
    the samples stored in the window and the objects it was handed: every
    other object is afterwards exactly as it was. *)
Theorem addChartData_leaves_other_objects depth v c c' :
  addChartData depth v c = Return tt c' ->
  forall l o, heap c !! l = Some o ->
              ~ In l (stored c) -> ~ In l (input_refs v) ->
              heap c' !! l = Some o.
Proof.
  intros H l o Ho Hs Hi.
  apply addChartData_heap in H as (b & c1 & Ht & Hh & _).
  apply transformChartDataToPercent_touch in Ht. rewrite Hh.
  apply Ht; [exact Ho |]. intros Hin.
  apply in_app_or in Hin as [Hin | Hin]; contradiction.
Qed.

Lemma addChartData_leaves_other_objects_witness :
  let o := Sample (Number (of_Z 7)) (Number (of_Z 8)) (Some "kept"%string) in
  exists c',
    addAll 2 [Single (VNumber (of_Z 10)); Single (VNumber (of_Z 200))]
           (growing_chart [o]) = Return tt c' /\
    heap c' !! 0%nat = Some o.
Proof.
  intros o.
  assert (addChartData 1 (Single (VNumber (of_Z 10))) (growing_chart [o]) =
          Return tt (after (addChartData 1 (Single (VNumber (of_Z 10)))
                              (growing_chart [o])))) as H1
      by (vm_compute; reflexivity).
  set (c1 := after _) in H1.
  assert (addChartData 2 (Single (VNumber (of_Z 200))) c1 =
          Return tt (after (addChartData 2 (Single (VNumber (of_Z 200))) c1)))
    as H2 by (vm_compute; reflexivity).
  eexists. split; [vm_compute; reflexivity |].
  apply (addChartData_leaves_other_objects 2 (Single (VNumber (of_Z 200)))
           c1 _ H2).
  - reflexivity.
  - vm_compute. intros [H | []]. discriminate H.
  - intros [].
Defined.

(** ** Frames *)

Lemma forEach_drawLineSample segmentKey es : forall iterKey c,
  Forall (drawable_elem (heap c)) es ->
  forEach_from iterKey (drawLineSample segmentKey) es c =
  Return tt (add_calls (line_calls (heap c) segmentKey iterKey es) c).
Proof.
  induction es as [| e es IH]; intros iterKey c H.
  - simpl. rewrite add_calls_nil. reflexivity.
  - inversion H as [| ? ? He Hes]; subst.
    destruct He as (l & o & -> & Ho).
    cbn [forEach_from line_calls line_drawn]. rewrite Ho.
    unfold bind at 1. unfold drawLineSample, bind, read, modify. rewrite Ho.
    rewrite IH by exact Hes.
    destruct c; unfold add_calls, add_call; simpl.
    rewrite <- !app_assoc. reflexivity.
Qed.

Lemma forEach_drawLine bs : forall segmentKey c,
  Forall (drawable_batch (heap c)) bs ->
  forEach_from segmentKey drawLine bs c =
  Return tt (add_calls (line_window_calls (heap c) segmentKey bs) c).
Proof.
  induction bs as [| b bs IH]; intros segmentKey c H.
  - simpl. rewrite add_calls_nil. reflexivity.
  - inversion H as [| ? ? (es & -> & Hes) Hbs]; subst.
    cbn [forEach_from line_window_calls elems]. unfold bind at 1.
    unfold drawLine, forEach. rewrite forEach_drawLineSample by exact Hes.
    rewrite IH by exact Hbs.
    destruct c; unfold add_calls; simpl. rewrite <- !app_assoc. reflexivity.
Qed.

Lemma line_percents_calls h segmentKey es : forall iterKey,
  line_percents (line_calls h segmentKey iterKey es) = shown h es.
Proof.
  induction es as [| e es IH]; intros iterKey; [reflexivity |].
  cbn [line_calls]. unfold line_percents, shown in *.
  rewrite omap_app, IH. destruct e as [| l]; [reflexivity |]. simpl.
  destruct (h !! l); reflexivity.
Qed.

Lemma line_percents_window h bs : forall segmentKey,
  line_percents (line_window_calls h segmentKey bs) = window_shown h bs.
Proof.
  induction bs as [| b bs IH]; intros segmentKey; [reflexivity |].
  cbn [line_window_calls]. unfold line_percents in *.
  rewrite omap_app, IH. unfold window_shown. simpl.
  f_equal. apply line_percents_calls.
Qed.

(** X15.  In line mode a frame over a window of objects returns and leaves
    the window, the samples and the range as they are: it clears the
    stage, draws every stored sample once, batch by batch in the stored
    order, and resets the line's position last. *)
Theorem render_line_frame {host : ArraySort} c :
  Options.type (options c) = line -> drawable c ->
  render c =
  Return tt (add_calls (Stage_clearStage ::
                        line_window_calls (heap c) 0 (data c) ++
                        [Line_resetXY]) c) /\
  line_percents (line_window_calls (heap c) 0 (data c)) =
  window_shown (heap c) (data c).
Proof.
  intros Ht Hdr. split; [| apply line_percents_window].
  unfold render.
  unfold bind at 1, modify at 1. unfold bind at 1, get at 1.
  cbn [options add_call]. rewrite Ht.
  unfold renderLine, bind at 1, get at 1. unfold forEach.
  cbn [data add_call]. unfold bind at 1.
  rewrite forEach_drawLine by exact Hdr.
  unfold modify. destruct c; unfold add_calls, add_call; simpl.
  rewrite <- !app_assoc. reflexivity.
Qed.

Lemma line_chart_drawable : drawable line_chart.
Proof.
  constructor; [| constructor].
  exists [ERef 0%nat; ERef 1%nat]. split; [reflexivity |].
  repeat constructor; eexists _, _; split; reflexivity.
Qed.

Lemma render_line_frame_witness :
  Options.type (options line_chart) = line /\
  drawable line_chart /\
  line_percents (calls (after (@render linear_host line_chart))) =
  [Number (of_Z 20); Number (of_Z 60)].
Proof.
  split; [reflexivity |]. split; [exact line_chart_drawable |].
  destruct (@render_line_frame linear_host line_chart eq_refl
              line_chart_drawable) as [Hr _].
  rewrite Hr. reflexivity.
Defined.

(** ** Frames that throw *)

Lemma forEach_lands {A} (f : A -> nat -> M unit) l :
  (forall x i, lands (f x i)) -> forall i, lands (forEach_from i f l).
Proof.
  intros Hf. induction l as [| x l IH]; intros i c.
  - left. eexists. reflexivity.
  - cbn [forEach_from]. unfold bind.
    destruct (Hf x i c) as [[c1 ->] | [c1 ->]].
    + apply IH.
    + right. eexists. reflexivity.
Qed.

Lemma forEach_throws {A} (f : A -> nat -> M unit) (bad : A -> Prop) l :
  (forall x i, lands (f x i)) ->
  (forall x i c, bad x -> exists c', f x i c = Throw TypeError c') ->
  Exists bad l ->
  forall i c, exists c', forEach_from i f l c = Throw TypeError c'.
Proof.
  intros Hf Hbad H.
  induction H as [x l Hx | x l _ IH]; intros i c;
    cbn [forEach_from]; unfold bind.
  - destruct (Hbad x i c Hx) as [c1 ->]. eexists. reflexivity.
  - destruct (Hf x i c) as [[c1 ->] | [c1 ->]];
      [apply IH | eexists; reflexivity].
Qed.

Lemma drawLineSample_lands segmentKey e i : lands (drawLineSample segmentKey e i).
Proof.
  intros c. destruct e as [| l]; [right; eexists; reflexivity |].
  unfold drawLineSample, bind, read, modify.
  destruct (heap c !! l); [left | right]; eexists; reflexivity.
Qed.

Lemma drawBarSample_lands segmentKey e i : lands (drawBarSample segmentKey e i).
Proof.
  intros c. destruct e as [| l]; [right; eexists; reflexivity |].
  unfold drawBarSample, bind, read, modify.
  destruct (heap c !! l); [left | right]; eexists; reflexivity.
Qed.

Lemma drawLine_lands b segmentKey : lands (drawLine b segmentKey).
Proof.
  destruct b as [| es]; [intros c; right; eexists; reflexivity |].
  apply forEach_lands. apply drawLineSample_lands.
Qed.

Lemma drawLine_undrawable b segmentKey c :
  undrawable_batch b -> exists c', drawLine b segmentKey c = Throw TypeError c'.
Proof.
  destruct b as [| es]; intros H; [eexists; reflexivity |].
  apply (forEach_throws _ (fun e => e = EUndefined)).
  - apply drawLineSample_lands.
  - intros x i c0 ->. eexists. reflexivity.
  - apply List.Exists_exists. exists EUndefined. split; [exact H | reflexivity].
Qed.

Section Throwing.
Context {host : ArraySort}.

Lemma drawBar_lands b segmentKey : lands (drawBar b segmentKey).
Proof.
  destruct b as [| es]; [intros c; right; eexists; reflexivity |].
  intros c. unfold drawBar. unfold bind at 1, get at 1.
  unfold bind at 1, modify at 1.
  apply forEach_lands. apply drawBarSample_lands.
Qed.

Lemma sort_undefined comparefn es :
  In EUndefined es -> In EUndefined (sort comparefn es).
Proof.
  intros H. unfold sort, undefineds. apply in_or_app. right.
  apply list_elem_of_In, list_elem_of_filter.
  split; [reflexivity | apply list_elem_of_In; exact H].
Qed.

Lemma drawBar_undrawable b segmentKey c :
  undrawable_batch b -> exists c', drawBar b segmentKey c = Throw TypeError c'.
Proof.
  destruct b as [| es]; intros H; [eexists; reflexivity |].
  unfold drawBar. unfold bind at 1, get at 1. unfold bind at 1, modify at 1.
  apply (forEach_throws _ (fun e => e = EUndefined)).
  - apply drawBarSample_lands.
  - intros x i c0 ->. eexists. reflexivity.
  - apply List.Exists_exists. exists EUndefined.
    split; [apply sort_undefined; exact H | reflexivity].
Qed.

Lemma render_undrawable c :
  Options.type (options c) <> otherType -> undrawable c ->
  exists c', render c = Throw TypeError c'.
Proof.
  intros Ht Hu. unfold render.
  unfold bind at 1, modify at 1. unfold bind at 1, get at 1.
  cbn [options add_call].
  destruct (Options.type (options c)); [| | contradiction].
  - unfold renderLine, bind at 1, get at 1. cbn [data add_call].
    unfold bind at 1, forEach.
    destruct (forEach_throws drawLine undrawable_batch (data c)
                drawLine_lands
                (fun x i c0 => drawLine_undrawable x i c0) Hu 0%nat
                (add_call Stage_clearStage c)) as [c' ->].
    eexists. reflexivity.
  - unfold renderBar, bind at 1, get at 1. cbn [data add_call].
    unfold forEach.
    apply (forEach_throws drawBar undrawable_batch (data c)
             drawBar_lands (fun x i c0 => drawBar_undrawable x i c0) Hu).
Qed.

(** X16.  A frame in line or bar mode over a window that holds an
    [undefined] batch, or a batch holding [undefined], throws a TypeError,
    whatever else the window holds and whatever the host's [sort] does. *)
Theorem render_undrawable_throws c :
  Options.type (options c) <> otherType -> undrawable c ->
  exists c', render c = Throw TypeError c'.
Proof. exact (render_undrawable c). Qed.
End Throwing.

Lemma render_undrawable_throws_witness :
  let c := after (addChartData 1 (Single (VString "12"))
                               (example_chart 0 100 false 3 [])) in
  Options.type (options c) <> otherType /\ undrawable c /\
  exists c', @render linear_host c = Throw TypeError c'.
Proof.
  intros c.
  assert (Options.type (options c) <> otherType) as Ht
      by (intros H; discriminate H).
  assert (undrawable c) as Hu by (left; exact I).
  split; [exact Ht |]. split; [exact Hu |].
  exact (@render_undrawable_throws linear_host c Ht Hu).
Defined.

(** ** What a frame leaves alone *)

Lemma draws_only_refl c : draws_only c c.
Proof.
  repeat split. exists []. rewrite app_nil_r. reflexivity.
Qed.

Lemma draws_only_trans c1 c2 c3 :
  draws_only c1 c2 -> draws_only c2 c3 -> draws_only c1 c3.
Proof.
  intros (Hh & Ho & Hs & Ha & Hl & evs & Hc)
         (Hh' & Ho' & Hs' & Ha' & Hl' & evs' & Hc').
  repeat split; try congruence.
  exists (evs ++ evs'). rewrite Hc', Hc, app_assoc. reflexivity.
Qed.

Lemma draws_only_add_call ev c : draws_only c (add_call ev c).
Proof. destruct c. repeat split. exists [ev]. reflexivity. Qed.

Lemma forEach_draws_only {A} (f : A -> nat -> M unit) l :
  (forall x i c, draws_only c (after (f x i c))) ->
  forall i c, draws_only c (after (forEach_from i f l c)).
Proof.
  intros Hf. induction l as [| x l IH]; intros i c.
  - apply draws_only_refl.
  - cbn [forEach_from]. unfold bind. pose proof (Hf x i c) as H.
    destruct (f x i c) as [[] c1 | e c1]; cbn [after] in H.
    + eapply draws_only_trans; [exact H | apply IH].
    + exact H.
Qed.

Lemma drawLineSample_draws_only segmentKey e i c :
  draws_only c (after (drawLineSample segmentKey e i c)).
Proof.
  destruct e as [| l]; [apply draws_only_refl |].
  unfold drawLineSample, bind, read, modify.
  destruct (heap c !! l); [| apply draws_only_refl]. cbn [after].
  eapply draws_only_trans; apply draws_only_add_call.
Qed.

Lemma drawBarSample_draws_only segmentKey e i c :
  draws_only c (after (drawBarSample segmentKey e i c)).
Proof.
  destruct e as [| l]; [apply draws_only_refl |].
  unfold drawBarSample, bind, read, modify.
  destruct (heap c !! l); [| apply draws_only_refl]. cbn [after].
  eapply draws_only_trans; apply draws_only_add_call.
Qed.

Lemma drawLine_draws_only b segmentKey c :
  draws_only c (after (drawLine b segmentKey c)).
Proof.
  destruct b as [| es]; [apply draws_only_refl |].
  apply forEach_draws_only. apply drawLineSample_draws_only.
Qed.

Section Leaves.
Context {host : ArraySort}.

Lemma drawBar_draws_only b segmentKey c :
  draws_only c (after (drawBar b segmentKey c)).
Proof.
  destruct b as [| es]; [apply draws_only_refl |].
  unfold drawBar. unfold bind at 1, get at 1. unfold bind at 1, modify at 1.
  eapply draws_only_trans;
    [| apply forEach_draws_only; apply drawBarSample_draws_only].
  destruct c. unfold draws_only, set_data. cbn.
  repeat split; [apply length_insert |].
  exists []. rewrite app_nil_r. reflexivity.
Qed.

(** X17.  Whatever the window holds, whatever the chart type and the
    host's [sort], and whether the frame returns or throws, render writes
    to no sample, leaves the range, the layout and the number of batches
    as they are, and makes its calls after the ones made before, clearing
    the stage first. *)
Theorem render_draws_only c :
  draws_only c (after (render c)) /\
  exists evs, calls (after (render c)) = calls c ++ Stage_clearStage :: evs.
Proof.
  assert (draws_only (add_call Stage_clearStage c) (after (render c))) as H.
  { unfold render.
    unfold bind at 1, modify at 1. unfold bind at 1, get at 1.
    cbn [options add_call].
    destruct (Options.type (options c)).
    - unfold renderLine, bind at 1, get at 1. cbn [data add_call].
      unfold bind at 1, forEach.
      pose proof (forEach_draws_only drawLine (data c)
                    drawLine_draws_only 0%nat (add_call Stage_clearStage c))
        as H.
      destruct (forEach_from 0 drawLine (data c) _) as [[] c1 | e c1];
        cbn [after] in *; [| exact H].
      eapply draws_only_trans; [exact H | apply draws_only_add_call].
    - unfold renderBar, bind at 1, get at 1. cbn [data add_call].
      apply (forEach_draws_only drawBar (data c) drawBar_draws_only).
    - apply draws_only_refl. }
  split.
  - eapply draws_only_trans; [apply draws_only_add_call | exact H].
  - destruct H as (_ & _ & _ & _ & _ & evs & Hc). exists evs.
    rewrite Hc. destruct c. cbn. rewrite <- app_assoc. reflexivity.
Qed.
End Leaves.

(** ** Frames in bar mode *)

Lemma percents_bar_calls h segmentKey es : forall iterKey,
  percents (bar_calls h segmentKey iterKey es) = shown h es.
Proof.
  induction es as [| e es IH]; intros iterKey; [reflexivity |].
  cbn [bar_calls]. unfold percents, shown in *.
  rewrite omap_app, IH. destruct e as [| l]; [reflexivity |]. simpl.
  destruct (h !! l); reflexivity.
Qed.

Lemma percents_window_calls h bs : forall segmentKey,
  percents (window_calls h segmentKey bs) = window_shown h bs.
Proof.
  induction bs as [| b bs IH]; intros segmentKey; [reflexivity |].
  cbn [window_calls]. unfold percents in *.
  rewrite omap_app, IH. unfold window_shown. simpl.
  f_equal. apply percents_bar_calls.
Qed.

Lemma refs_map_ERef ls : refs (map ERef ls) = ls.
Proof.
  induction ls as [| l ls IH]; [reflexivity |].
  change (refs (map ERef (l :: ls))) with (l :: refs (map ERef ls)).
  rewrite IH. reflexivity.
Qed.

Section Bars.
Context {host : ArraySort}.
Hypothesis host_rearranges : rearranges host.

Lemma render_bar_result c :
  Options.type (options c) = bar -> drawable c ->
  render c =
  Return tt
    (add_calls (Stage_clearStage ::
                window_calls (heap c) 0 (map (sorted_batch (heap c)) (data c)))
               (set_data (map (sorted_batch (heap c)) (data c)) c)).
Proof.
  intros Ht Hdr. unfold render.
  unfold bind at 1, modify at 1. unfold bind at 1, get at 1.
  cbn [options add_call]. rewrite Ht.
  unfold renderBar, bind at 1, get at 1. unfold forEach.
  cbn [data add_call].
  pose proof (forEach_drawBar host_rearranges (data c) []
                (add_call Stage_clearStage c) eq_refl Hdr) as Hloop.
  cbn [length app heap add_call] in Hloop. rewrite Hloop.
  destruct c; unfold add_calls, set_data; cbn.
  rewrite <- app_assoc. reflexivity.
Qed.

Lemma window_shown_sorted h bs :
  Forall (drawable_batch h) bs ->
  Permutation (window_shown h (map (sorted_batch h) bs)) (window_shown h bs).
Proof.
  induction 1 as [| b bs (es & -> & Hes) _ IH]; [constructor |].
  unfold window_shown in *. cbn [map concat sorted_batch elems].
  apply Permutation_app; [| exact IH].
  unfold shown. apply omap_Permutation.
  apply (sort_drawable host_rearranges). exact Hes.
Qed.

(** X18.  In bar mode a frame over a window of objects returns, and draws
    every stored sample exactly once: whatever order the host's [sort]
    chooses, the percents handed to the bars are the stored [value]s, each
    as often as it is stored. *)
Theorem render_bar_draws_every_sample c :
  Options.type (options c) = bar -> drawable c ->
  exists c' evs,
    render c = Return tt c' /\
    calls c' = calls c ++ Stage_clearStage :: evs /\
    Permutation (percents evs) (window_shown (heap c) (data c)).
Proof.
  intros Ht Hdr. eexists _, _.
  split; [apply render_bar_result; assumption |].
  split; [destruct c; reflexivity |].
  rewrite percents_window_calls. apply window_shown_sorted. exact Hdr.
Qed.
End Bars.

Lemma chart_10_20_drawable : drawable chart_10_20.
Proof.
  assert (data chart_10_20 = [BArray [ERef 0%nat; ERef 1%nat]]) as Hd
      by (vm_compute; reflexivity).
  assert (heap chart_10_20 =
          [Sample (Number (of_Z 10)) (Number (of_Z 10)) None;
           Sample (Number (of_Z 20)) (Number (of_Z 20)) None]) as Hh
      by (vm_compute; reflexivity).
  unfold drawable. rewrite Hd, Hh.
  constructor; [| constructor].
  exists [ERef 0%nat; ERef 1%nat]. split; [reflexivity |].
  repeat constructor; eexists _, _; split; reflexivity.
Qed.

Lemma render_bar_draws_every_sample_witness :
  rearranges linear_host /\
  Options.type (options chart_10_20) = bar /\ drawable chart_10_20 /\
  exists c' evs,
    @render linear_host chart_10_20 = Return tt c' /\
    calls c' = calls chart_10_20 ++ Stage_clearStage :: evs /\
    Permutation (percents evs) [Number (of_Z 10); Number (of_Z 20)].
Proof.
  split; [exact linear_host_rearranges |]. split; [reflexivity |].
  split; [exact chart_10_20_drawable |].
  exact (@render_bar_draws_every_sample linear_host linear_host_rearranges
           chart_10_20 eq_refl chart_10_20_drawable).
Defined.

Lemma sorted_batch_binary_host h bs :
  Forall (drawable_batch h) bs -> map (@sorted_batch binary_host h) bs = bs.
Proof.
  induction 1 as [| b bs (es & -> & Hes) _ IH]; [reflexivity |].
  cbn [map sorted_batch]. rewrite IH, sort_binary_host_unchanged by exact Hes.
  reflexivity.
Qed.

(** X19.  On a host that sorts by binary insertion, a frame in bar mode
    leaves every window of objects exactly as it is stored and draws the
    samples in the stored order: the comparator never returns a negative
    number, so no sample is moved. *)
Theorem render_bar_binary_host_in_stored_order c :
  Options.type (options c) = bar -> drawable c ->
  @render binary_host c =
  Return tt (add_calls (Stage_clearStage ::
                        window_calls (heap c) 0 (data c)) c) /\
  percents (window_calls (heap c) 0 (data c)) =
  window_shown (heap c) (data c).
Proof.
  intros Ht Hdr. split; [| apply percents_window_calls].
  rewrite (render_bar_result binary_host_rearranges c Ht Hdr).
  rewrite sorted_batch_binary_host by exact Hdr.
  destruct c; reflexivity.
Qed.

Lemma render_bar_binary_host_in_stored_order_witness :
  Options.type (options chart_10_20) = bar /\ drawable chart_10_20 /\
  data (after (@render binary_host chart_10_20)) = data chart_10_20 /\
  percents (calls (after (@render binary_host chart_10_20))) =
  [Number (of_Z 10); Number (of_Z 20)].
Proof.
  split; [reflexivity |]. split; [exact chart_10_20_drawable |].
  destruct (render_bar_binary_host_in_stored_order chart_10_20 eq_refl
              chart_10_20_drawable) as [Hr _].
  rewrite Hr. split; reflexivity.
Defined.

Lemma sorted_batch_linear_host h bs :
  Forall (drawable_batch h) bs ->
  window_descending h (map (@sorted_batch linear_host h) bs) /\
  Forall2 (fun b b' =>
             forall v, List.filter (has_value h v) (refs (elems b')) =
                       List.filter (has_value h v) (refs (elems b)))
          bs (map (@sorted_batch linear_host h) bs).
Proof.
  unfold window_descending.
  induction 1 as [| b bs (es & -> & Hes) _ [IH1 IH2]];
    [split; constructor |].
  destruct (refs_drawable h es Hes) as [_ Hund].
  assert (refs (@sort linear_host (sortDesc h) es) =
          @host_sort linear_host loc (sortDesc h) (refs es)) as Hrefs.
  { unfold sort. rewrite Hund, app_nil_r. apply refs_map_ERef. }
  destruct (linear_host_descending_stable h (refs es)) as [Hs Hst].
  cbn [map sorted_batch]. split; constructor; try assumption;
    cbn [elems]; rewrite Hrefs; assumption.
Qed.

(** X20.  On a host that sorts by linear insertion, a frame in bar mode
    leaves every batch of a window of objects in descending order of
    [value] (no stored sample is followed by one of a greater value), the
    samples of one and the same [value] in the order they were stored in. *)
Theorem render_bar_linear_host_descending c :
  Options.type (options c) = bar -> drawable c ->
  exists c',
    @render linear_host c = Return tt c' /\
    window_descending (heap c') (data c') /\
    Forall2 (fun b b' =>
               forall v,
                 List.filter (has_value (heap c) v) (refs (elems b')) =
                 List.filter (has_value (heap c) v) (refs (elems b)))
            (data c) (data c').
Proof.
  intros Ht Hdr. eexists.
  split; [apply (render_bar_result linear_host_rearranges c Ht Hdr) |].
  destruct (sorted_batch_linear_host (heap c) (data c) Hdr) as [H1 H2].
  destruct c; cbn in *. split; assumption.
Qed.

Lemma render_bar_linear_host_descending_witness :
  Options.type (options chart_10_20) = bar /\ drawable chart_10_20 /\
  exists c',
    @render linear_host chart_10_20 = Return tt c' /\
    window_descending (heap c') (data c').
Proof.
  split; [reflexivity |]. split; [exact chart_10_20_drawable |].
  destruct (render_bar_linear_host_descending chart_10_20 eq_refl
              chart_10_20_drawable) as (c' & Hr & Hd & _).
  exists c'. split; assumption.
Defined.

(** ** Malformed input, then a frame *)

Lemma append_options b c : options (append b c) = options c.
Proof.
  unfold append.
  destruct (jgt (of_nat (length (data c ++ [b])))
                (Options.totalElement (options c)));
    destruct c; reflexivity.
Qed.

Lemma append_undrawable b c :
  undrawable_batch b ->
  jgt (of_nat 1) (Options.totalElement (options c)) = false ->
  undrawable (append b c).
Proof.
  intros Hb Hcap. unfold append, undrawable.
  destruct (jgt (of_nat (length (data c ++ [b])))
                (Options.totalElement (options c))) eqn:E.
  - destruct (data c) as [| x xs] eqn:Hd.
    + cbn [app length] in E. rewrite Hcap in E. discriminate E.
    + unfold shift, push. destruct c; cbn in *. rewrite Hd. cbn.
      apply List.Exists_app. right. left. exact Hb.
  - unfold push. destruct c; cbn.
    apply List.Exists_app. right. left. exact Hb.
Qed.

(** X21.  A malformed input breaks the frames that follow: after
    addChartData on [undefined], a boolean, a string or an object without
    a [value], which returns without an error, render in line or bar mode
    throws a TypeError (when the window has room for a batch at all). *)
Theorem addChartData_malformed_breaks_render {host : ArraySort} depth c v :
  malformed c v ->
  Options.type (options c) <> otherType ->
  jgt (of_nat 1) (Options.totalElement (options c)) = false ->
  exists c1 c2,
    addChartData depth v c = Return tt c1 /\
    render c1 = Throw TypeError c2.
Proof.
  intros Hv Ht Hcap.
  assert (addChartData depth v c = Return tt (append BUndefined c)) as Ha.
  { apply addChartData_no_growth; [| reflexivity].
    destruct v as [[| | b | n | s | l] | vs]; simpl in Hv;
      try contradiction; try reflexivity.
    destruct Hv as (o & Hl & Ho). simpl. unfold bind, read. rewrite Hl, Ho.
    reflexivity. }
  pose proof (append_undrawable BUndefined c I Hcap) as Hu.
  destruct (render_undrawable (append BUndefined c)) as [c2 Hr];
    [rewrite append_options; exact Ht | exact Hu |].
  exists (append BUndefined c), c2. split; assumption.
Qed.

Lemma addChartData_malformed_breaks_render_witness :
  let c := after (calculateDefaults bare_chart) in
  malformed c (Single (VBoolean true)) /\
  exists c1 c2,
    addChartData 1 (Single (VBoolean true)) c = Return tt c1 /\
    @render binary_host c1 = Throw TypeError c2.
Proof.
  intros c. split; [exact I |].
  apply (@addChartData_malformed_breaks_render binary_host 1 c
           (Single (VBoolean true)) I).
  - intros H. discriminate H.
  - reflexivity.
Defined.

(** ** Layout, again *)

Lemma layout_idempotent o s : layout o (layout o s) = layout o s.
Proof.
  unfold layout. destruct (Layout.hasLegend o), (Options.showRuler o);
    reflexivity.
Qed.

(** X22.  calculateDefaults is idempotent: a second call in a row leaves
    the chart as the first one left it, whatever the options and the
    settings before. *)
Theorem calculateDefaults_idempotent c :
  (calculateDefaults ;;; calculateDefaults) c = calculateDefaults c.
Proof.
  unfold bind. rewrite !calculateDefaults_layout.
  destruct c; cbn. rewrite layout_idempotent. reflexivity.
Qed.

(** X23.  calculateDefaults sets up the normaliser: whatever
    settings.valueDiff held before, on options with finite min < max the
    chart it leaves has valueDiff = max - min, and calculatePercent then
    maps min to 1 and, when the subtraction max - min does not overflow,
    max to 100, and leaves the chart as it is, with calcMaxValue on or
    off. *)
Theorem calculateDefaults_configures depth c mn mx :
  minOf c = Fin mn -> maxOf c = Fin mx -> (mn < mx)%Q ->
  exists c',
    calculateDefaults c = Return tt c' /\
    configured c' mn mx /\
    calculatePercent (S depth) (Number (Fin mn)) c' = Return (of_Z 1) c' /\
    (forall d, jsub (Fin mx) (Fin mn) = Fin d -> (0 < d)%Q ->
               calculatePercent (S depth) (Number (Fin mx)) c' =
               Return (of_Z 100) c').
Proof.
  intros Hmin Hmax Hlt. rewrite calculateDefaults_layout.
  eexists. split; [reflexivity |].
  set (c' := set_settings _ c).
  assert (configured c' mn mx) as Hc.
  { subst c'. unfold configured, minOf, maxOf, diffOf in *.
    destruct c; cbn in *. rewrite Hmin, Hmax. repeat split; assumption. }
  split; [exact Hc |].
  split.
  - rewrite (calculatePercent_in_range depth c' mn mx) by (assumption || lra).
    rewrite percentZ_min by lra. reflexivity.
  - intros d Hd Hpos.
    rewrite (calculatePercent_in_range depth c' mn mx) by (assumption || lra).
    rewrite (percentZ_max mn mx d Hd) by lra. reflexivity.
Qed.

Lemma calculateDefaults_configures_witness :
  minOf bare_chart = Fin (250 # 1) /\ maxOf bare_chart = Fin (500 # 1) /\
  ((250 # 1) < (500 # 1))%Q /\
  jsub (Fin (500 # 1)) (Fin (250 # 1)) = Fin (250 # 1) /\
  exists c',
    calculateDefaults bare_chart = Return tt c' /\
    calculatePercent 1 (Number (of_Z 500)) c' = Return (of_Z 100) c'.
Proof.
  assert (jsub (Fin (500 # 1)) (Fin (250 # 1)) = Fin (250 # 1)) as Hd
      by (vm_compute; reflexivity).
  split; [reflexivity |]. split; [reflexivity |].
  split; [reflexivity |]. split; [exact Hd |].
  destruct (calculateDefaults_configures 0 bare_chart (250 # 1) (500 # 1)
              eq_refl eq_refl eq_refl) as (c' & Hdef & _ & _ & Hmx).
  exists c'. split; [exact Hdef |]. apply (Hmx (250 # 1) Hd). reflexivity.
Defined.

(** ** The window, from the start *)

Lemma addAll_window_normalised depth vs : forall c c',
  window_normalised c -> addAll depth vs c = Return tt c' ->
  window_normalised c'.
Proof.
  induction vs as [| v vs IH]; intros c c' Hw H.
  - injection H as <-. exact Hw.
  - cbn [addAll] in H. apply bind_Return in H as ([] & c1 & Hv & H).
    apply (IH c1); [| exact H].
    apply (addChartData_window_normalised depth v c c1 Hw Hv).
Qed.

(** X24.  From an empty window on, after any sequence of calls of
    addChartData that return (numbers, objects, arrays, malformed input,
    growing the range or not), every sample stored in the window
    satisfies value = calculatePercent(defValue) under the range in
    effect. *)
Theorem addAll_up_to_date depth vs c c' :
  data c = [] -> addAll depth vs c = Return tt c' -> up_to_date c'.
Proof.
  intros Hd H. apply window_normalised_up_to_date.
  apply (addAll_window_normalised depth vs c c'); [| exact H].
  apply window_normalised_up_to_date, empty_window_up_to_date. exact Hd.
Qed.

Lemma addAll_up_to_date_witness :
  let vs := [Single (VNumber (of_Z 10)); Single (VNumber (of_Z 200));
             Array [VNumber (of_Z 50); VNumber (of_Z 20)]] in
  data (growing_chart []) = [] /\
  exists c', addAll 2 vs (growing_chart []) = Return tt c' /\ up_to_date c'.
Proof.
  intros vs. split; [reflexivity |].
  assert (addAll 2 vs (growing_chart []) =
          Return tt (after (addAll 2 vs (growing_chart [])))) as H
      by (vm_compute; reflexivity).
  eexists. split; [exact H |].
  exact (addAll_up_to_date 2 vs (growing_chart []) _ eq_refl H).
Defined.
